(** * AdventureWorks data-warehouse pipeline: a shallow embedding

    Source: [airflow/dags/dw_adventureworks_pipeline.py].

    The pipeline is Python glue around SQL statements.  Python values,
    dictionaries and loops are modelled directly; a relational table is a
    list of rows, or a finite map keyed by the column set its [ON CONFLICT]
    clause names; a statement that raises is a [None] or a [Falhou] result. *)

From Stdlib Require Import ZArith QArith Qabs String List Lia Lqa.
From stdpp Require Import gmap strings list fin_maps.

Set Warnings "-clear-no-such-hyp".

Open Scope string_scope.
Open Scope list_scope.

(** ** Python values as they arrive from the source cursor *)

(** A calendar date, as [datetime.date(year, month, day)] or a SQL [DATE]. *)
Record data := Data { year : Z; month : Z; day : Z }.

(** A [decimal.Decimal] or SQL [NUMERIC]: [nm_val / 10 ^ nm_escala]. *)
Record numeric := Numeric { nm_val : Z; nm_escala : nat }.

#[global] Instance data_eq_dec : EqDecision data.
Proof. solve_decision. Defined.

#[global] Instance numeric_eq_dec : EqDecision numeric.
Proof. solve_decision. Defined.

(** The values a DB-API cursor hands back.  [VFloat] carries the IEEE-754
    bit pattern; [VDatetime] a date and the microseconds since midnight;
    [VOutro] stands for every other object ([bytes], [uuid.UUID],
    [datetime.time], ...), identified by its [repr]. *)
Inductive valor :=
| VNone
| VBool (b : bool)
| VInt (n : Z)
| VFloat (bits : Z)
| VDecimal (d : numeric)
| VDatetime (d : data) (micros : Z)
| VDate (d : data)
| VStr (s : string)
| VOutro (repr : string).

#[global] Instance valor_eq_dec : EqDecision valor.
Proof. solve_decision. Defined.

(** ** Type inference ([inferir_tipo_coluna]) *)

Module Tipos.

(** [isinstance(valor, C)] for the classes the code tests, and for [date].
    In Python [bool] is a subclass of [int] and [datetime] a subclass of
    [date]. *)
Definition isinstance_bool (v : valor) : bool :=
  match v with VBool _ => true | _ => false end.

Definition isinstance_int (v : valor) : bool :=
  match v with VBool _ | VInt _ => true | _ => false end.

Definition isinstance_float (v : valor) : bool :=
  match v with VFloat _ => true | _ => false end.

Definition isinstance_Decimal (v : valor) : bool :=
  match v with VDecimal _ => true | _ => false end.

Definition isinstance_datetime (v : valor) : bool :=
  match v with VDatetime _ _ => true | _ => false end.

Definition isinstance_date (v : valor) : bool :=
  match v with VDate _ | VDatetime _ _ => true | _ => false end.

Definition is_None (v : valor) : bool :=
  match v with VNone => true | _ => false end.

(** The if/elif chain of the loop body: the tag added for [valor], or
    [None] when the iteration is skipped ([continue]). *)
Definition classificar (v : valor) : option string :=
  if is_None v then None
  else if isinstance_bool v then Some "BOOLEAN"
  else if isinstance_int v then Some "INTEGER"
  else if isinstance_float v then Some "DOUBLE PRECISION"
  else if isinstance_Decimal v then Some "NUMERIC(18,4)"
  else if isinstance_datetime v || isinstance_datetime v then Some "TIMESTAMP"
  else Some "TEXT".

(** One iteration of [for valor in amostras]. *)
Definition registrar (tipos : gset string) (v : valor) : gset string :=
  match classificar v with
  | None => tipos
  | Some t => {[ t ]} ∪ tipos
  end.

(** The set [tipos_encontrados] when the loop ends. *)
Definition tipos_encontrados (amostras : list valor) : gset string :=
  foldl registrar ∅ amostras.

(** The final if/elif chain.  [pop()] on a one-element set returns that
    element; the [default] is never reached there. *)
Definition escolher_tipo (tipos : gset string) : string :=
  if decide (tipos = ∅) then "TEXT"
  else if decide (size tipos = 1%nat) then default "TEXT" (head (elements tipos))
  else if decide (tipos ⊆ {[ "INTEGER"; "NUMERIC(18,4)" ]}) then "NUMERIC(18,4)"
  else "TEXT".

Definition inferir_tipo_coluna (amostras : list valor) : string :=
  escolher_tipo (tipos_encontrados amostras).

(** The set of distinct classifications observed in a sample, nulls
    excluded, as the specification words it. *)
Definition classificacoes (amostras : list valor) : gset string :=
  list_to_set (omap classificar amostras).

(** The closed set of storage types. *)
Definition tipos_armazenamento : list string :=
  [ "BOOLEAN"; "INTEGER"; "DOUBLE PRECISION"; "NUMERIC(18,4)"; "TIMESTAMP"; "TEXT" ].

End Tipos.

(** ** Staging extraction ([extrair_dados_para_staging]) *)

Module Staging.
Import Tipos.

(** [MAPA_TABELAS], in the dictionary's insertion order. *)
Definition MAPA_TABELAS : list (string * string) :=
  [ ("Sales.Customer", "stage_clientes");
    ("Person.Person", "stage_pessoas");
    ("Production.Product", "stage_produtos");
    ("Production.ProductSubcategory", "stage_subcategorias");
    ("Production.ProductCategory", "stage_categorias");
    ("Sales.SalesTerritory", "stage_territorios");
    ("Sales.SalesPerson", "stage_vendedores");
    ("HumanResources.Employee", "stage_funcionarios");
    ("Sales.SpecialOffer", "stage_ofertas");
    ("Sales.SalesOrderHeader", "stage_pedidos_header");
    ("Sales.SalesOrderDetail", "stage_pedidos_detalhe") ].

(** A table of the [staging] schema: column definitions (name, type) in
    order, and the rows stored so far. *)
Record tabela := Tabela {
  tb_colunas : list (string * string);
  tb_linhas : list (list valor)
}.

(** What [SELECT * FROM tabela_origem] yields: the names in
    [cursor.description] and [fetchall()].  A table the source does not
    have makes the statement raise. *)
Record extracao := Extracao {
  ex_colunas : list string;
  ex_registros : list (list valor)
}.

(** The destination as the task sees it: the tables of the [staging]
    schema, and the per-table line the task logs when a load completes
    (intermediate table name, [total_inserido]). *)
Record estado := Estado {
  tabelas : gmap string tabela;
  registro : list (string * nat)
}.

(** The loop either runs to its end or raises.  Either way the state is
    the destination as the session sees it at that point: the statements
    executed so far have taken effect in it.  What is left of them in the
    database once an exception has left the connection's [with] block is
    decided where the block ends ([executar_mapa]). *)
Inductive desfecho :=
| Concluido (e : estado)
| Falhou (e : estado).

(** [CREATE TABLE staging.t (placeholder INT)]. *)
Definition tabela_placeholder : tabela := Tabela [("placeholder", "INT")] [].

(** [range(0, fim, passo)] for a positive step. *)
Definition range_passo (fim passo : nat) : list nat :=
  map (λ k, k * passo)%nat (seq 0 ((fim + passo - 1) / passo)).

(** The slice [l[i:j]] for [i <= j]. *)
Definition fatia {A} (l : list A) (i j : nat) : list A := take (j - i) (drop i l).

(** [[r[idx] for r in amostra if r[idx] is not None]]; an index past the
    end of a row raises [IndexError]. *)
Definition valores_amostra (idx : nat) (amostra : list (list valor)) : option (list valor) :=
  vs ← mapM (λ r : list valor, r !! idx) amostra;
  Some (filter (λ v, is_None v = false) vs).

(** The loop [for idx, coluna in enumerate(colunas)] filling the
    dictionary [tipos_coluna]. *)
Fixpoint inferir_colunas (idx : nat) (colunas : list string)
    (amostra : list (list valor)) (tipos_coluna : gmap string string)
    : option (gmap string string) :=
  match colunas with
  | [] => Some tipos_coluna
  | coluna :: resto =>
      vs ← valores_amostra idx amostra;
      inferir_colunas (S idx) resto amostra
        (<[coluna := inferir_tipo_coluna vs]> tipos_coluna)
  end.

(** [definicao_colunas]: each column with [tipos_coluna[col]], in the
    order of [colunas]. *)
Definition definicao_colunas (colunas : list string)
    (tipos_coluna : gmap string string) : option (list (string * string)) :=
  mapM (λ col, t ← tipos_coluna !! col; Some (col, t)) colunas.

Section Destino.

(** Whether the destination takes a Python value into a column of the
    given type.  The driver and the engine decide this, not the pipeline. *)
Variable aceita : string → valor → bool.

(** One [INSERT INTO t VALUES (%s, ..., %s)] with one placeholder per
    column: the row must supply exactly that many parameters, each one
    accepted by its column. *)
Definition linha_aceita (colunas : list (string * string)) (r : list valor) : bool :=
  (length r =? length colunas)%nat
  && forallb (λ cv : (string * string) * valor, aceita cv.1.2 cv.2) (zip colunas r).

(** [execute_batch] sends a page of at most [page_size] statements as
    one command, so a refused row leaves none of the page behind. *)
Definition lote_aceito (colunas : list (string * string)) (lote : list (list valor)) : bool :=
  forallb (linha_aceita colunas) lote.

(** The loop [for i in range(0, len(registros), tamanho_lote)], from the
    list of batches: the rows stored and [total_inserido] so far; the
    flag is [false] when a batch raised. *)
Fixpoint inserir_lotes (colunas : list (string * string))
    (lotes : list (list (list valor))) (linhas : list (list valor))
    (total_inserido : nat) : bool * list (list valor) * nat :=
  match lotes with
  | [] => (true, linhas, total_inserido)
  | lote :: resto =>
      if lote_aceito colunas lote
      then inserir_lotes colunas resto (linhas ++ lote) (total_inserido + length lote)
      else (false, linhas, total_inserido)
  end.

Definition tamanho_lote : nat := 500.

(** The batches [registros[i:i + tamanho_lote]]. *)
Definition lotes (registros : list (list valor)) : list (list (list valor)) :=
  map (λ i, fatia registros i (i + tamanho_lote))
      (range_passo (length registros) tamanho_lote).

(** The body of the loop over [MAPA_TABELAS.items()]: what its statements
    do to the destination as the session sees it.  A [Falhou] state is
    the session's when the exception leaves the body. *)
Definition processar_tabela (fonte : gmap string extracao)
    (tabela_origem tabela_staging : string) (e : estado) : desfecho :=
  match fonte !! tabela_origem with
  | None => Falhou e
  | Some (Extracao colunas registros) =>
      (* DROP TABLE IF EXISTS staging.t CASCADE *)
      let e := Estado (delete tabela_staging (tabelas e)) (registro e) in
      match registros with
      | [] =>
          Concluido (Estado (<[tabela_staging := tabela_placeholder]> (tabelas e))
                            (registro e))
      | _ :: _ =>
          let amostra := take (Nat.min (length registros) 1000) registros in
          match tipos_coluna ← inferir_colunas 0 colunas amostra ∅;
                definicao_colunas colunas tipos_coluna with
          | None => Falhou e
          | Some definicao =>
              (* CREATE TABLE staging.t (definicao_colunas) *)
              let '(ok, linhas, total_inserido) :=
                inserir_lotes definicao (lotes registros) [] 0 in
              let tbs := <[tabela_staging := Tabela definicao linhas]> (tabelas e) in
              if ok
              then Concluido (Estado tbs (registro e ++ [(tabela_staging, total_inserido)]))
              else Falhou (Estado tbs (registro e))
          end
      end
  end.

Fixpoint extrair_tabelas (fonte : gmap string extracao)
    (mapa : list (string * string)) (e : estado) : desfecho :=
  match mapa with
  | [] => Concluido e
  | (tabela_origem, tabela_staging) :: resto =>
      match processar_tabela fonte tabela_origem tabela_staging e with
      | Concluido e' => extrair_tabelas fonte resto e'
      | Falhou e' => Falhou e'
      end
  end.

(** Whether the connection's [with] block runs as one transaction
    although [autocommit] is set inside it.  The driver decides this, not
    the pipeline: psycopg2 opens a transaction in the block from version
    2.9 on and leaves every statement on its own before; the source does
    not fix the version. *)
Variable bloco_transacional : bool.

(** [with obter_conexao_destino() as conn_destino:] around the loop, for
    a given mapping.  [CREATE SCHEMA IF NOT EXISTS staging] touches no
    table.  A block that ends normally commits.  When an exception leaves
    the block the connection rolls back: that undoes every statement of
    the run if the block is one transaction, and nothing if each statement
    was committed on its own.  The lines already logged stay logged. *)
Definition executar_mapa (fonte : gmap string extracao)
    (mapa : list (string * string)) (e : estado) : desfecho :=
  match extrair_tabelas fonte mapa e with
  | Concluido e' => Concluido e'
  | Falhou e' =>
      Falhou (if bloco_transacional then Estado (tabelas e) (registro e') else e')
  end.

Definition extrair_dados_para_staging (fonte : gmap string extracao) (e : estado) : desfecho :=
  executar_mapa fonte MAPA_TABELAS e.

End Destino.

(** The column [idx] of a sample with its nulls removed, and the schema
    the specification describes: every source column, in order, with the
    type inferred from the first 1000 rows. *)
Definition coluna_sem_nulos (idx : nat) (amostra : list (list valor)) : list valor :=
  filter (λ v, is_None v = false) (map (λ r, nth idx r VNone) amostra).

Definition esquema_inferido (colunas : list string) (registros : list (list valor))
    : list (string * string) :=
  imap (λ idx col, (col, inferir_tipo_coluna (coluna_sem_nulos idx (take 1000 registros))))
       colunas.

(** Sample data: a destination that takes every value; one that refuses
    the text [abc] in an [INTEGER] column (the other values play no part
    below); a source with an empty and a non-empty table; a destination
    that already holds an intermediate table. *)
Definition aceita_tudo : string → valor → bool := λ _ _, true.

Definition aceita_inteiros : string → valor → bool :=
  λ t v, negb (bool_decide (t = "INTEGER") && bool_decide (v = VStr "abc")).

Definition fonte_exemplo : gmap string extracao :=
  {[ "Sales.SpecialOffer" := Extracao ["SpecialOfferID"; "Description"] [];
     "Sales.SalesTerritory" :=
       Extracao ["TerritoryID"; "Name"; "Group"]
                [ [VInt 1; VStr "Northwest"; VStr "North America"];
                  [VInt 7; VStr "France"; VNone];
                  [VInt 9; VStr "Australia"; VStr "Pacific"] ] ]}.

Definition estado_exemplo : estado :=
  Estado {[ "stage_ofertas" := Tabela [("SpecialOfferID", "INTEGER")] [[VInt 1]] ]} [].

(** 1000 integer rows followed by one text row, in a single column. *)
Definition fonte_mista : gmap string extracao :=
  {[ "Sales.SpecialOffer" :=
       Extracao ["MinQty"] (replicate 1000 [VInt 0] ++ [[VStr "abc"]]) ]}.

(** 1001 integer rows in a single column: three batches, the last row
    outside the sample. *)
Definition fonte_longa : gmap string extracao :=
  {[ "Sales.SpecialOffer" :=
       Extracao ["MinQty"] (replicate 1000 [VInt 0] ++ [[VInt 7]]) ]}.

End Staging.

(** ** Calendar seed ([inicializar_dimensao_tempo]) *)

Module Tempo.

Open Scope Z_scope.

(** The proleptic Gregorian calendar of SQL [DATE]. *)
Definition ano_bissexto (y : Z) : bool :=
  (y mod 4 =? 0) && (negb (y mod 100 =? 0) || (y mod 400 =? 0)).

Definition dias_no_mes (y m : Z) : Z :=
  if m =? 2 then (if ano_bissexto y then 29 else 28)
  else if (m =? 4) || (m =? 6) || (m =? 9) || (m =? 11) then 30
  else 31.


Definition data_valida (d : data) : bool :=
  (1 <=? month d) && (month d <=? 12)
  && (1 <=? day d) && (day d <=? dias_no_mes (year d) (month d)).

(** [d1 <= d2] on dates. *)
Definition data_leb (d1 d2 : data) : bool :=
  (year d1 <? year d2)
  || ((year d1 =? year d2)
      && ((month d1 <? month d2)
          || ((month d1 =? month d2) && (day d1 <=? day d2)))).

(** [d + INTERVAL '1 day']. *)
Definition proximo_dia (d : data) : data :=
  if day d <? dias_no_mes (year d) (month d) then Data (year d) (month d) (day d + 1)
  else if month d <? 12 then Data (year d) (month d + 1) 1
  else Data (year d + 1) 1 1.

(** [generate_series(inicio, fim, INTERVAL '1 day')]: the dates from
    [inicio], a day apart, while they do not pass [fim].  The engine steps
    timestamps at midnight of the session's time zone; these are the same
    days as long as no day of the range lacks its midnight.  The recursion
    is on a step budget. *)
Fixpoint serie_diaria (passos : nat) (d fim : data) : list data :=
  match passos with
  | O => []
  | S p => if data_leb d fim then d :: serie_diaria p (proximo_dia d) fim else []
  end.

(** No range has more than 366 days per calendar year it touches. *)
Definition generate_series (inicio fim : data) : list data :=
  serie_diaria (Z.to_nat (366 * (year fim - year inicio + 1))) inicio fim.

(** The engine's day number of a date and [EXTRACT(DOW FROM d)]
    (0 is Sunday). *)
Definition date2j (d : data) : Z :=
  let m := if 2 <? month d then month d + 1 else month d + 13 in
  let y := if 2 <? month d then year d + 4800 else year d + 4799 in
  let century := y / 100 in
  y * 365 - 32167 + (y / 4 - century + century / 4) + 7834 * m / 256 + day d.

Definition extract_dow (d : data) : Z := (date2j d + 1) mod 7.

(** [TO_CHAR(d, 'YYYYMMDD')::INT]. *)
Definition yyyymmdd (d : data) : Z := year d * 10000 + month d * 100 + day d.

(** A row of [dw.dim_tempo].  The three columns whose value depends on
    the ISO week rule or on the session's locale ([semana_ano],
    [nome_mes], [nome_dia_semana]) are left out. *)
Record linha_tempo := LinhaTempo {
  sk_tempo : Z;
  data_completa : data;
  ano : Z;
  trimestre : Z;
  mes : Z;
  dia : Z;
  dia_semana : Z;
  eh_fim_semana : bool;
  eh_feriado : bool
}.

(** The [SELECT] list, for one day [d] of the series. *)
Definition linha_do_dia (d : data) : linha_tempo :=
  {| sk_tempo := yyyymmdd d;
     data_completa := d;
     ano := year d;
     trimestre := (month d - 1) / 3 + 1;
     mes := month d;
     dia := day d;
     dia_semana := extract_dow d;
     eh_fim_semana := (extract_dow d =? 0) || (extract_dow d =? 6);
     eh_feriado := false |}.

Definition inicio_calendario : data := Data 2008 1 1.
Definition fim_calendario : data := Data 2030 12 31.

(** The task: count the rows, return at once when there are any,
    otherwise insert the calendar. *)
Definition inicializar_dimensao_tempo (dim_tempo : list linha_tempo) : list linha_tempo :=
  let total := length dim_tempo in
  if (0 <? total)%nat then dim_tempo
  else dim_tempo ++ map linha_do_dia (generate_series inicio_calendario fim_calendario).

(** The series the task inserts. *)
Definition calendario : list data := generate_series inicio_calendario fim_calendario.



End Tempo.

(** ** SQL [NUMERIC] arithmetic *)

Module Num.

Open Scope Z_scope.

Definition pot10 (n : nat) : Z := 10 ^ Z.of_nat n.

(** The rational a [NUMERIC] stands for. *)
Definition num_Q (x : numeric) : Q := inject_Z (nm_val x) / inject_Z (pot10 (nm_escala x)).

(** An [INT] operand of a [NUMERIC] operator. *)
Definition num_of_int (z : Z) : numeric := Numeric z 0.

(** [a * b]: exact, the scales add up. *)
Definition num_mul (a b : numeric) : numeric :=
  Numeric (nm_val a * nm_val b) (nm_escala a + nm_escala b).

(** [a - b]: exact, at the larger of the two scales. *)
Definition num_sub (a b : numeric) : numeric :=
  let s := Nat.max (nm_escala a) (nm_escala b) in
  Numeric (nm_val a * pot10 (s - nm_escala a) - nm_val b * pot10 (s - nm_escala b)) s.

(** The integer nearest to [n / d], a tie going away from zero ([d] not 0). *)
Definition div_arredondada (n d : Z) : Z :=
  Z.sgn n * Z.sgn d * ((2 * Z.abs n + Z.abs d) / (2 * Z.abs d)).

(** [x] brought to [s] decimals. *)
Definition num_round (x : numeric) (s : nat) : numeric :=
  if (nm_escala x <=? s)%nat
  then Numeric (nm_val x * pot10 (s - nm_escala x)) s
  else Numeric (div_arredondada (nm_val x) (pot10 (nm_escala x - s))) s.

(** [x::NUMERIC(p, s)]: rounded to [s] decimals; raises "numeric field
    overflow" unless the result is below [10 ^ (p - s)] in magnitude. *)
Definition num_cast (p s : nat) (x : numeric) : option numeric :=
  let r := num_round x s in
  if Z.abs (nm_val r) <? pot10 p then Some r else None.

(** [a / b] rounded at [rscale] decimals; raises "division by zero". *)
Definition num_div (rscale : nat) (a b : numeric) : option numeric :=
  if nm_val b =? 0 then None
  else Some (Numeric (div_arredondada (nm_val a * pot10 (rscale + nm_escala b))
                                      (nm_val b * pot10 (nm_escala a)))
                     rscale).

(** [x > 0]. *)
Definition num_pos (x : numeric) : bool := 0 <? nm_val x.

(** An operator applied to nullable operands is null when one of them is. *)
Definition nulo2 {A B C : Type} (f : A → B → C) (x : option A) (y : option B) : option C :=
  match x, y with
  | Some a, Some b => Some (f a b)
  | _, _ => None
  end.

(** [COALESCE(x, d)]. *)
Definition coalesce {A : Type} (x : option A) (d : A) : A := default d x.

(** A cast of a nullable value: null stays null, a value may raise. *)
Definition cast_nulo (p s : nat) (x : option numeric) : option (option numeric) :=
  match x with
  | None => Some None
  | Some v => Some <$> num_cast p s v
  end.

End Num.

(** ** Region dimension ([carregar_dimensao_regiao]) *)

Module Regiao.

Open Scope Z_scope.

(** A row of [staging.stage_territorios], with the columns the load reads. *)
Record territorio := Territorio {
  TerritoryID : option Z;
  Name : option string;
  CountryRegionCode : option string;
  Group : option string
}.

(** A row of [dw.dim_regiao]. *)
Record linha_regiao := LinhaRegiao {
  sk_regiao : Z;
  nk_regiao : Z;
  nome_territorio : option string;
  codigo_pais : option string;
  nome_pais : option string;
  continente : option string;
  grupo_regional : option string
}.

(** Modelled from the spec: the definition of [dw.dim_regiao], which the
    source does not contain.  The natural key [nk_regiao] is unique (it is
    the [ON CONFLICT] target), so the rows are a finite map from it; the
    surrogate key is generated by the system, here a sequence read for
    every row the statement proposes. *)
Record dim_regiao := DimRegiao {
  linhas : gmap Z linha_regiao;
  proximo_sk : Z
}.

(** [s LIKE '%sub%']. *)
Fixpoint contem (sub s : string) : bool :=
  String.prefix sub s
  || match s with
     | EmptyString => false
     | String _ resto => contem sub resto
     end.

(** The [CASE] deriving the continent; a null group matches no [WHEN]. *)
Definition continente_de (grupo : option string) : string :=
  match grupo with
  | None => "Outros"
  | Some g =>
      if contem "America" g then "Américas"
      else if contem "Europe" g then "Europa"
      else if contem "Pacific" g then "Ásia-Pacífico"
      else "Outros"
  end.

(** A row of the [SELECT]: the proposed values of the six inserted columns. *)
Record proposta := Proposta {
  p_nk_regiao : Z;
  p_nome_territorio : option string;
  p_codigo_pais : option string;
  p_nome_pais : option string;
  p_continente : option string;
  p_grupo_regional : option string
}.

#[global] Instance proposta_eq_dec : EqDecision proposta.
Proof. solve_decision. Defined.

(** The [SELECT] list with its [WHERE t."TerritoryID" IS NOT NULL]. *)
Definition selecionar (t : territorio) : option proposta :=
  nk ← TerritoryID t;
  Some {| p_nk_regiao := nk;
          p_nome_territorio := Name t;
          p_codigo_pais := CountryRegionCode t;
          p_nome_pais := CountryRegionCode t;
          p_continente := Some (continente_de (Group t));
          p_grupo_regional := Group t |}.

(** [SELECT DISTINCT ...]. *)
Definition propostas (stage_territorios : list territorio) : list proposta :=
  remove_dups (omap selecionar stage_territorios).

(** [ON CONFLICT (nk_regiao) DO UPDATE SET nome_territorio = EXCLUDED.
    nome_territorio, grupo_regional = EXCLUDED.grupo_regional]. *)
Definition atualizar (antiga : linha_regiao) (p : proposta) : linha_regiao :=
  {| sk_regiao := sk_regiao antiga;
     nk_regiao := nk_regiao antiga;
     nome_territorio := p_nome_territorio p;
     codigo_pais := codigo_pais antiga;
     nome_pais := nome_pais antiga;
     continente := continente antiga;
     grupo_regional := p_grupo_regional p |}.

Definition inserir (sk : Z) (p : proposta) : linha_regiao :=
  {| sk_regiao := sk;
     nk_regiao := p_nk_regiao p;
     nome_territorio := p_nome_territorio p;
     codigo_pais := p_codigo_pais p;
     nome_pais := p_nome_pais p;
     continente := p_continente p;
     grupo_regional := p_grupo_regional p |}.

(** One proposed row: inserted, or merged into the row that has its
    natural key. *)
Definition upsert (d : dim_regiao) (p : proposta) : dim_regiao :=
  match linhas d !! p_nk_regiao p with
  | Some antiga =>
      DimRegiao (<[p_nk_regiao p := atualizar antiga p]> (linhas d)) (proximo_sk d + 1)
  | None =>
      DimRegiao (<[p_nk_regiao p := inserir (proximo_sk d) p]> (linhas d)) (proximo_sk d + 1)
  end.

(** The statement.  Two proposed rows with one natural key make it raise
    ("ON CONFLICT DO UPDATE command cannot affect row a second time"). *)
Definition carregar_dimensao_regiao (d : dim_regiao) (stage_territorios : list territorio)
    : option dim_regiao :=
  let ps := propostas stage_territorios in
  if bool_decide (NoDup (p_nk_regiao <$> ps)) then Some (foldl upsert d ps) else None.

(** The dimension after the task: a statement that raised changes nothing. *)
Definition apos_carga (d : dim_regiao) (stage_territorios : list territorio) : dim_regiao :=
  default d (carregar_dimensao_regiao d stage_territorios).

(** Sample data: a territory staged in the group Europe, then the same
    territory staged in the group Pacific under a new name. *)
Definition territorios_antes : list territorio :=
  [ Territorio (Some 7) (Some "France") (Some "FR") (Some "Europe") ].

Definition territorios_depois : list territorio :=
  [ Territorio (Some 7) (Some "Oceania") (Some "FR") (Some "Pacific") ].

Definition dim_vazia : dim_regiao := DimRegiao ∅ 1.

End Regiao.

(** ** Fact load ([carregar_fato_vendas]) *)

Module Fato.
Import Num.

Open Scope Z_scope.

(** Rows of [staging.stage_pedidos_header] and [staging.
    stage_pedidos_detalhe], with the columns the load reads.  Identifiers
    and quantities are staged as [INTEGER], prices and discounts as
    [NUMERIC] (what the inference gives for the source's integer and
    money columns), the order date as a timestamp of which [::DATE] keeps
    the day. *)
Record pedido_header := PedidoHeader {
  soh_SalesOrderID : option Z;
  soh_OrderDate : option data;
  soh_CustomerID : option Z;
  soh_SalesPersonID : option Z;
  soh_TerritoryID : option Z
}.

Record pedido_detalhe := PedidoDetalhe {
  sod_SalesOrderID : option Z;
  sod_SalesOrderDetailID : option Z;
  sod_OrderQty : option Z;
  sod_ProductID : option Z;
  sod_SpecialOfferID : option Z;
  sod_UnitPrice : option numeric;
  sod_UnitPriceDiscount : option numeric
}.

Record staging := Staging {
  stage_pedidos_header : list pedido_header;
  stage_pedidos_detalhe : list pedido_detalhe
}.

(** The columns of [dw.dim_produto] the load reads. *)
Record linha_produto := LinhaProduto {
  dp_sk_produto : Z;
  dp_custo_unitario : option numeric
}.

(** The dimensions, each a finite map from its natural key (unique, being
    the [ON CONFLICT] target of its load); for all but the product
    dimension the load reads the surrogate key only. *)
Record dimensoes := Dimensoes {
  dim_cliente : gmap Z Z;
  dim_produto : gmap Z linha_produto;
  dim_regiao : gmap Z Z;
  dim_vendedor : gmap Z Z;
  dim_oferta : gmap Z Z
}.

(** A row of [dw.fato_vendas]: the seventeen inserted columns, with the
    values of the [SELECT] list (the table's own column types are not in
    the source). *)
Record fato := Fato {
  sk_tempo : option Z;
  sk_cliente : option Z;
  sk_produto : option Z;
  sk_regiao : option Z;
  sk_vendedor : option Z;
  sk_oferta : option Z;
  numero_pedido : Z;
  numero_linha : Z;
  quantidade_vendida : option Z;
  valor_unitario : option numeric;
  valor_bruto : option numeric;
  valor_desconto : option numeric;
  valor_liquido : option numeric;
  custo_total : option numeric;
  lucro_bruto : option numeric;
  percentual_desconto : option numeric;
  margem_contribuicao : option numeric
}.

(** [a = b] as a join condition: not satisfied when a side is null. *)
Definition sql_eq (a b : option Z) : bool :=
  match a, b with
  | Some x, Some y => x =? y
  | _, _ => false
  end.

(** [x > 0] as a [WHEN] condition: not satisfied when [x] is null. *)
Definition positivo (x : option numeric) : bool :=
  match x with
  | Some v => num_pos v
  | None => false
  end.

(** [stage_pedidos_detalhe sod INNER JOIN stage_pedidos_header soh ON
    soh."SalesOrderID" = sod."SalesOrderID"]. *)
Definition juntar (stg : staging) : list (pedido_detalhe * pedido_header) :=
  sod ← stage_pedidos_detalhe stg;
  soh ← stage_pedidos_header stg;
  if sql_eq (soh_SalesOrderID soh) (sod_SalesOrderID sod) then [(sod, soh)] else [].

(** [WHERE soh."SalesOrderID" IS NOT NULL AND sod."SalesOrderDetailID" IS
    NOT NULL]: the joined rows that pass, with their two key values. *)
Definition filtrar (j : pedido_detalhe * pedido_header)
    : option (pedido_detalhe * pedido_header * Z * Z) :=
  pedido ← soh_SalesOrderID j.2;
  linha ← sod_SalesOrderDetailID j.1;
  Some (j.1, j.2, pedido, linha).

Definition filtrados (stg : staging) : list (pedido_detalhe * pedido_header * Z * Z) :=
  omap filtrar (juntar stg).

Section Motor.

(** The scale at which the engine rounds the quotient of two [NUMERIC]
    values; the engine chooses it from the operands. *)
Variable escala_divisao : numeric → numeric → nat.

(** [a / b] on nullable operands. *)
Definition dividir (a b : option numeric) : option (option numeric) :=
  match a, b with
  | Some x, Some y => Some <$> num_div (escala_divisao x y) x y
  | _, _ => Some None
  end.

(** [COALESCE(sod."UnitPriceDiscount", 0)] and
    [COALESCE(dp.custo_unitario, 0)], [dp] being the product row the left
    join found, if any. *)
Definition desconto_de (sod : pedido_detalhe) : numeric :=
  coalesce (sod_UnitPriceDiscount sod) (num_of_int 0).

Definition custo_de (dw : dimensoes) (sod : pedido_detalhe) : numeric :=
  coalesce ((sod_ProductID sod ≫= (λ nk, dim_produto dw !! nk)) ≫= dp_custo_unitario)
           (num_of_int 0).

(** The [CASE] of the contribution margin, from the net value and the
    gross profit. *)
Definition margem (liquido lucro : option numeric) : option (option numeric) :=
  if positivo liquido
  then q ← dividir lucro liquido;
       cast_nulo 5 2 (nulo2 num_mul q (Some (num_of_int 100)))
  else Some (Some (num_of_int 0)).

(** The [SELECT] list for one joined row that passed the [WHERE], the
    dimensions being left-joined by natural key; [None] when a cast
    raises. *)
Definition linha_fato (dw : dimensoes) (sod : pedido_detalhe) (soh : pedido_header)
    (pedido linha : Z) : option fato :=
  let dp := sod_ProductID sod ≫= (λ nk, dim_produto dw !! nk) in
  preco ← cast_nulo 15 4 (sod_UnitPrice sod);
  let qtd := num_of_int <$> sod_OrderQty sod in
  let bruto := nulo2 num_mul preco qtd in
  let liquido := nulo2 num_mul bruto (Some (num_sub (num_of_int 1) (desconto_de sod))) in
  let custo_tot := nulo2 num_mul (Some (custo_de dw sod)) qtd in
  let lucro := nulo2 num_sub liquido custo_tot in
  pct ← cast_nulo 5 2 (Some (num_mul (desconto_de sod) (num_of_int 100)));
  mc ← margem liquido lucro;
  Some {| sk_tempo := Tempo.yyyymmdd <$> soh_OrderDate soh;
          sk_cliente := soh_CustomerID soh ≫= (λ nk, dim_cliente dw !! nk);
          sk_produto := dp_sk_produto <$> dp;
          sk_regiao := soh_TerritoryID soh ≫= (λ nk, dim_regiao dw !! nk);
          sk_vendedor := soh_SalesPersonID soh ≫= (λ nk, dim_vendedor dw !! nk);
          sk_oferta := sod_SpecialOfferID sod ≫= (λ nk, dim_oferta dw !! nk);
          numero_pedido := pedido;
          numero_linha := linha;
          quantidade_vendida := sod_OrderQty sod;
          valor_unitario := preco;
          valor_bruto := bruto;
          valor_desconto := nulo2 num_mul bruto (Some (desconto_de sod));
          valor_liquido := liquido;
          custo_total := custo_tot;
          lucro_bruto := lucro;
          percentual_desconto := pct;
          margem_contribuicao := mc |}.

(** The rows the [SELECT] proposes; one cast that raises aborts the
    statement. *)
Definition selecionar (dw : dimensoes) (stg : staging) : option (list fato) :=
  mapM (λ r : pedido_detalhe * pedido_header * Z * Z,
          linha_fato dw r.1.1.1 r.1.1.2 r.1.2 r.2)
       (filtrados stg).

(** [ON CONFLICT (numero_pedido, numero_linha) DO NOTHING], for one
    proposed row, counting the rows inserted.  The fact table is a finite
    map from the composite key the conflict clause names. *)
Definition inserir_se_ausente (acc : gmap (Z * Z) fato * nat) (f : fato)
    : gmap (Z * Z) fato * nat :=
  match acc.1 !! (numero_pedido f, numero_linha f) with
  | Some _ => acc
  | None => (<[(numero_pedido f, numero_linha f) := f]> acc.1, S acc.2)
  end.

(** The statement: the fact table after it and [cursor.rowcount], or
    [None] when it raised. *)
Definition carregar_fato_vendas (dw : dimensoes) (stg : staging)
    (fato_vendas : gmap (Z * Z) fato) : option (gmap (Z * Z) fato * nat) :=
  fs ← selecionar dw stg;
  Some (foldl inserir_se_ausente (fato_vendas, 0%nat) fs).

(** The fact table after the task: a statement that raised is not
    committed. *)
Definition apos_carga (dw : dimensoes) (stg : staging)
    (fato_vendas : gmap (Z * Z) fato) : gmap (Z * Z) fato :=
  match carregar_fato_vendas dw stg fato_vendas with
  | Some (t, _) => t
  | None => fato_vendas
  end.

End Motor.

(** Sample data.  An engine that rounds every quotient at 20 decimals;
    one order header; a line of 2 units at 100 with a discount fraction
    of 0.1; a line of 1 unit at 3 without discount, of a product whose
    unit cost is 1; a line without line id whose margin would not fit
    [NUMERIC(5,2)]; dimensions before and after the product is loaded. *)
Definition escala_20 : numeric → numeric → nat := λ _ _, 20%nat.

Definition header_exemplo : pedido_header :=
  PedidoHeader (Some 43659) (Some (Data 2011 5 31)) (Some 29825) (Some 279) (Some 5).

Definition detalhe_100 : pedido_detalhe :=
  PedidoDetalhe (Some 43659) (Some 1) (Some 2) (Some 776) (Some 1)
                (Some (Numeric 100 0)) (Some (Numeric 1 1)).

Definition detalhe_3 : pedido_detalhe :=
  PedidoDetalhe (Some 43659) (Some 2) (Some 1) (Some 707) (Some 1)
                (Some (Numeric 3 0)) None.

Definition detalhe_sem_linha : pedido_detalhe :=
  PedidoDetalhe (Some 43659) None (Some 1) (Some 707) (Some 1)
                (Some (Numeric 1 2)) None.

Definition dimensoes_vazias : dimensoes := Dimensoes ∅ ∅ ∅ ∅ ∅.

Definition dimensoes_exemplo : dimensoes :=
  Dimensoes {[ 29825 := 1 ]} {[ 707 := LinhaProduto 1 (Some (Numeric 10000 4)) ]} ∅ ∅ ∅.

Definition staging_exemplo : staging :=
  Staging [header_exemplo] [detalhe_100; detalhe_3].

Open Scope Q_scope.



(** The rows the statement proposes for the two sample lines: the first
    with the dimensions empty, the second with the product loaded. *)
Definition fato_100 : fato :=
  {| sk_tempo := Some 20110531%Z; sk_cliente := None; sk_produto := None;
     sk_regiao := None; sk_vendedor := None; sk_oferta := None;
     numero_pedido := 43659; numero_linha := 1;
     quantidade_vendida := Some 2%Z;
     valor_unitario := Some (Numeric 1000000 4);
     valor_bruto := Some (Numeric 2000000 4);
     valor_desconto := Some (Numeric 2000000 5);
     valor_liquido := Some (Numeric 18000000 5);
     custo_total := Some (Numeric 0 0);
     lucro_bruto := Some (Numeric 18000000 5);
     percentual_desconto := Some (Numeric 1000 2);
     margem_contribuicao := Some (Numeric 10000 2) |}.


End Fato.

(** ** The task graph ([with DAG(...) as dag]) *)

Module Dag.

Inductive tarefa :=
| inicio_pipeline
| fim_pipeline
| task_dim_tempo
| task_staging
| checkpoint_staging
| task_dim_cliente
| task_dim_produto
| task_dim_regiao
| task_dim_vendedor
| task_dim_oferta
| checkpoint_dimensoes
| task_fato_vendas.

#[global] Instance tarefa_eq_dec : EqDecision tarefa.
Proof. solve_decision. Defined.

Definition todas_tarefas : list tarefa :=
  [ inicio_pipeline; fim_pipeline; task_dim_tempo; task_staging; checkpoint_staging;
    task_dim_cliente; task_dim_produto; task_dim_regiao; task_dim_vendedor;
    task_dim_oferta; checkpoint_dimensoes; task_fato_vendas ].

(** [esq >> dir], each side a task or a list of tasks: every task on the
    right becomes downstream of every task on the left. *)
Definition rshift (esq dir : list tarefa) : list (tarefa * tarefa) :=
  a ← esq; b ← dir; [(a, b)].

(** [g1 >> g2 >> ... >> gn]: [>>] returns its right operand. *)
Fixpoint cadeia (grupos : list (list tarefa)) : list (tarefa * tarefa) :=
  match grupos with
  | g1 :: ((g2 :: _) as resto) => rshift g1 g2 ++ cadeia resto
  | _ => []
  end.

(** The three statements under "Definição do fluxo de execução": the
    pairs (upstream, downstream). *)
Definition dag : list (tarefa * tarefa) :=
  cadeia [ [inicio_pipeline]; [task_dim_tempo]; [task_staging]; [checkpoint_staging] ]
  ++ cadeia [ [checkpoint_staging];
              [ task_dim_cliente; task_dim_produto; task_dim_regiao;
                task_dim_vendedor; task_dim_oferta ];
              [checkpoint_dimensoes] ]
  ++ cadeia [ [checkpoint_dimensoes]; [task_fato_vendas]; [fim_pipeline] ].

(** A run, as the scheduler may carry it out: the starts and ends of the
    tasks in the order they happen. *)
Inductive evento :=
| Inicia (t : tarefa)
| Termina (t : tarefa).

#[global] Instance evento_eq_dec : EqDecision evento.
Proof. solve_decision. Defined.

Fixpoint posicao (e : evento) (l : list evento) : option nat :=
  match l with
  | [] => None
  | x :: resto => if decide (x = e) then Some 0%nat else S <$> posicao e resto
  end.

(** Both events happen, [e1] before [e2]. *)
Definition precede (e1 e2 : evento) (l : list evento) : bool :=
  match posicao e1 l, posicao e2 l with
  | Some i, Some j => (i <? j)%nat
  | _, _ => false
  end.

(** The scheduler's rule (every task with the default trigger rule): each
    task starts once and then ends once, and starts only after all its
    upstream tasks have ended. *)
Definition execucao_valida (l : list evento) : bool :=
  bool_decide (NoDup l)
  && forallb (λ t, precede (Inicia t) (Termina t) l) todas_tarefas
  && forallb (λ ab : tarefa * tarefa, precede (Termina ab.1) (Inicia ab.2) l) dag.

(** A run that loads the salesperson dimension before the region
    dimension. *)
Definition execucao_vendedor_primeiro : list evento :=
  [ Inicia inicio_pipeline; Termina inicio_pipeline;
    Inicia task_dim_tempo; Termina task_dim_tempo;
    Inicia task_staging; Termina task_staging;
    Inicia checkpoint_staging; Termina checkpoint_staging;
    Inicia task_dim_vendedor; Termina task_dim_vendedor;
    Inicia task_dim_cliente; Inicia task_dim_produto;
    Termina task_dim_produto; Termina task_dim_cliente;
    Inicia task_dim_regiao; Inicia task_dim_oferta;
    Termina task_dim_regiao; Termina task_dim_oferta;
    Inicia checkpoint_dimensoes; Termina checkpoint_dimensoes;
    Inicia task_fato_vendas; Termina task_fato_vendas;
    Inicia fim_pipeline; Termina fim_pipeline ].

(** [dr.sk_regiao] of [carregar_dimensao_vendedor]: the salesperson's
    territory looked up in [dw.dim_regiao] by a left join on the natural
    key. *)
Definition sk_regiao_do_vendedor (d : Regiao.dim_regiao) (TerritoryID : option Z)
    : option Z :=
  nk ← TerritoryID; Regiao.sk_regiao <$> (Regiao.linhas d !! nk).

End Dag.

(** ** Outcome of the staging task *)

Module StagingDesfecho.
Import Tipos Staging.

(** The destination as the task leaves it, whether it ended or raised. *)
Definition estado_final (d : desfecho) : estado :=
  match d with
  | Concluido e => e
  | Falhou e => e
  end.

End StagingDesfecho.

(** ** Closing statistics of the fact load ([carregar_fato_vendas]) *)

Module Estatisticas.
Import Num Fato.

Open Scope Z_scope.

(** [a + b]: exact, at the larger of the two scales. *)
Definition num_add (a b : numeric) : numeric :=
  let s := Nat.max (nm_escala a) (nm_escala b) in
  Numeric (nm_val a * pot10 (s - nm_escala a) + nm_val b * pot10 (s - nm_escala b)) s.

(** [SUM(x)] over the rows: nulls are skipped, and the sum of no value is
    null. *)
Definition soma (coluna : list (option numeric)) : option numeric :=
  match omap id coluna with
  | [] => None
  | x :: xs => Some (foldl num_add x xs)
  end.

(** The row the statistics query returns: the row count, [SUM(
    valor_liquido)] and [SUM(lucro_bruto)] of [dw.fato_vendas]. *)
Definition estatisticas (fato_vendas : gmap (Z * Z) fato)
    : nat * option numeric * option numeric :=
  let linhas := (map_to_list fato_vendas).*2 in
  (length linhas, soma (valor_liquido <$> linhas), soma (lucro_bruto <$> linhas)).

(** The last log line formats [stats[1]] and [stats[2]] with [:,.2f];
    on [None] the format raises [TypeError]. *)
Definition linha_de_log (stats : nat * option numeric * option numeric)
    : option (nat * numeric * numeric) :=
  match stats with
  | (n, Some receita, Some lucro) => Some (n, receita, lucro)
  | _ => None
  end.

Section Motor.

Variable escala_divisao : numeric → numeric → nat.

(** The task: the fact table it leaves committed, and whether it ended
    without raising.  The statistics are read after the commit. *)
Definition tarefa_fato_vendas (dw : dimensoes) (stg : staging)
    (fato_vendas : gmap (Z * Z) fato) : gmap (Z * Z) fato * bool :=
  match carregar_fato_vendas escala_divisao dw stg fato_vendas with
  | None => (fato_vendas, false)
  | Some (t, _) => (t, bool_decide (is_Some (linha_de_log (estatisticas t))))
  end.

End Motor.
End Estatisticas.

(** ** Product dimension ([carregar_dimensao_produto]) *)

Module Produto.
Import Num.

Section Motor.

Variable escala_divisao : numeric → numeric → nat.

(** The [CASE] of [margem_percentual], from the staged [ListPrice] and
    [StandardCost] (both [NUMERIC] columns); [None] when the division or
    the cast raises.  The [ELSE 0] is an integer. *)
Definition margem_percentual (ListPrice StandardCost : option numeric) : option numeric :=
  if num_pos (coalesce ListPrice (num_of_int 0))
  then
    let diferenca :=
      num_sub (coalesce ListPrice (num_of_int 0)) (coalesce StandardCost (num_of_int 0)) in
    let divisor := coalesce ListPrice (num_of_int 1) in
    q ← num_div (escala_divisao diferenca divisor) diferenca divisor;
    num_cast 5 2 (num_mul q (num_of_int 100))
  else Some (num_of_int 0).

End Motor.
End Produto.

(** ** Salesperson dimension ([carregar_dimensao_vendedor]) *)

Module Vendedor.

Open Scope Z_scope.

(** The character of a decimal digit. *)
Definition digito (d : Z) : Ascii.ascii := Ascii.ascii_of_nat (48 + Z.to_nat d).

(** The decimal digits of a natural number, most significant first, in
    at most [passos] digits. *)
Fixpoint digitos (passos : nat) (n : Z) : string :=
  match passos with
  | O => ""
  | S p => (if n <? 10 then "" else digitos p (n / 10)) +:+ String (digito (n mod 10)) ""
  end.

(** [z::TEXT] for an integer [z]. *)
Definition texto_de_int (z : Z) : string :=
  if z <? 0
  then "-" +:+ digitos (S (Z.to_nat (Z.log2 (- z)))) (- z)
  else digitos (S (Z.to_nat (Z.log2 z))) z.

Fixpoint repetir (fill : string) (k : nat) : string :=
  match k with
  | O => ""
  | S k => fill +:+ repetir fill k
  end.

(** [LPAD(s, n, fill)]: [s] filled on the left up to [n] characters with
    the characters of [fill], repeated; a longer [s] is cut to its first
    [n] characters. *)
Definition lpad (s : string) (n : nat) (fill : string) : string :=
  let len := String.length s in
  if (n <=? len)%nat then substring 0 n s
  else match fill with
       | "" => s
       | _ => substring 0 (n - len) (repetir fill (n - len)) +:+ s
       end.

(** ['V' || LPAD(sp."BusinessEntityID"::TEXT, 5, '0')], the identifier
    being staged as [INTEGER]. *)
Definition codigo_vendedor (BusinessEntityID : Z) : string :=
  "V" +:+ lpad (texto_de_int BusinessEntityID) 5 "0".

(** The number a text of decimal digits denotes, read from the left
    after [acc]. *)
Fixpoint valor_decimal (acc : Z) (s : string) : Z :=
  match s with
  | "" => acc
  | String c resto => valor_decimal (acc * 10 + (Z.of_nat (Ascii.nat_of_ascii c) - 48)) resto
  end.

End Vendedor.

(** ** Order of the tasks *)

Module DagOrdem.
Import Dag.

(** The tasks directly downstream of [a]. *)
Definition jusante_direto (a : tarefa) : list tarefa :=
  (filter (λ ab : tarefa * tarefa, ab.1 = a) dag).*2.

(** [b] is downstream of [a] through at most [n] edges. *)
Fixpoint jusante_em (n : nat) (a b : tarefa) : bool :=
  match n with
  | O => false
  | S n => existsb (λ c, bool_decide (c = b) || jusante_em n c b) (jusante_direto a)
  end.

(** [b] is downstream of [a], directly or through other tasks. *)
Definition jusante (a b : tarefa) : bool :=
  jusante_em (length todas_tarefas) a b.

(** The five dimension loads, as the flow lists them. *)
Definition cargas_dimensao : list tarefa :=
  [ task_dim_cliente; task_dim_produto; task_dim_regiao; task_dim_vendedor;
    task_dim_oferta ].

(** A run that carries out one task at a time, in the given order. *)
Definition execucao_serial (ordem : list tarefa) : list evento :=
  t ← ordem; [Inicia t; Termina t].

Definition ordem_direta : list tarefa :=
  [ inicio_pipeline; task_dim_tempo; task_staging; checkpoint_staging ]
  ++ cargas_dimensao ++ [ checkpoint_dimensoes; task_fato_vendas; fim_pipeline ].

Definition ordem_inversa : list tarefa :=
  [ inicio_pipeline; task_dim_tempo; task_staging; checkpoint_staging ]
  ++ reverse cargas_dimensao ++ [ checkpoint_dimensoes; task_fato_vendas; fim_pipeline ].

End DagOrdem.

(** * Properties *)



Module TiposProps.
Import Tipos.

Lemma foldl_registrar (amostras : list valor) (acc : gset string) :
  foldl registrar acc amostras = classificacoes amostras ∪ acc.
Proof.
  revert acc. induction amostras as [|v vs IH]; intros acc; simpl.
  - unfold classificacoes. simpl. set_solver.
  - rewrite IH. unfold registrar, classificacoes. simpl.
    destruct (classificar v) as [t|]; simpl; set_solver.
Qed.

Lemma tipos_encontrados_classificacoes (amostras : list valor) :
  tipos_encontrados amostras = classificacoes amostras.
Proof.
  unfold tipos_encontrados. rewrite foldl_registrar. set_solver.
Qed.

Lemma elem_of_classificacoes (t : string) (amostras : list valor) :
  t ∈ classificacoes amostras ↔ ∃ v, v ∈ amostras ∧ classificar v = Some t.
Proof.
  unfold classificacoes. rewrite elem_of_list_to_set, list_elem_of_omap.
  reflexivity.
Qed.

Lemma classificar_tipos_armazenamento (v : valor) (t : string) :
  classificar v = Some t → t ∈ tipos_armazenamento.
Proof.
  unfold tipos_armazenamento.
  destruct v; cbn; intros [= <-]; set_solver.
Qed.

Lemma escolher_tipo_vazio : escolher_tipo ∅ = "TEXT".
Proof. reflexivity. Qed.

Lemma escolher_tipo_unitario (t : string) : escolher_tipo {[ t ]} = t.
Proof.
  unfold escolher_tipo.
  destruct (decide (({[ t ]} : gset string) = ∅)) as [He|_].
  - exfalso. revert He. apply non_empty_singleton_L.
  - rewrite size_singleton. simpl. rewrite elements_singleton. reflexivity.
Qed.

Lemma par_numerico_tamanho :
  size ({[ "INTEGER"; "NUMERIC(18,4)" ]} : gset string) = 2%nat.
Proof. reflexivity. Qed.

Lemma escolher_tipo_par_numerico :
  escolher_tipo {[ "INTEGER"; "NUMERIC(18,4)" ]} = "NUMERIC(18,4)".
Proof. reflexivity. Qed.

(** A subset of a two-element set with at least two elements is that set. *)
Lemma subconjunto_par (S : gset string) :
  (2 <= size S)%nat → S ⊆ {[ "INTEGER"; "NUMERIC(18,4)" ]} →
  S = {[ "INTEGER"; "NUMERIC(18,4)" ]}.
Proof.
  intros Hsz Hsub. apply set_eq. intros x. split; [apply Hsub|].
  intros Hx.
  destruct (decide (x ∈ S)) as [|Hn]; [assumption|exfalso].
  assert (Hs : S ⊆ {[ "INTEGER"; "NUMERIC(18,4)" ]} ∖ {[ x ]}) by set_solver.
  apply subseteq_size in Hs.
  rewrite size_difference in Hs by set_solver.
  rewrite size_singleton, par_numerico_tamanho in Hs. lia.
Qed.

Lemma escolher_tipo_mistura (S : gset string) :
  (2 <= size S)%nat → S ≠ {[ "INTEGER"; "NUMERIC(18,4)" ]} →
  escolher_tipo S = "TEXT".
Proof.
  intros Hsz Hne. unfold escolher_tipo.
  destruct (decide (S = ∅)) as [->|_]; [reflexivity|].
  destruct (decide (size S = 1%nat)) as [H1|_]; [lia|].
  destruct (decide (S ⊆ {[ "INTEGER"; "NUMERIC(18,4)" ]})) as [Hsub|_];
    [|reflexivity].
  exfalso. apply Hne. apply subconjunto_par; assumption.
Qed.

Lemma escolher_tipo_armazenamento (S : gset string) :
  S ⊆ list_to_set tipos_armazenamento → escolher_tipo S ∈ tipos_armazenamento.
Proof.
  intros Hsub. unfold escolher_tipo.
  destruct (decide (S = ∅)); [set_solver|].
  destruct (decide (size S = 1%nat)) as [H1|_].
  - apply size_1_elem_of in H1 as [t Ht]. apply leibniz_equiv in Ht. subst S.
    rewrite elements_singleton. simpl. set_solver.
  - destruct (decide (S ⊆ {[ "INTEGER"; "NUMERIC(18,4)" ]})); set_solver.
Qed.

(** C1.  The inferred type follows the promotion table on the set of
    classifications observed (nulls excluded): empty gives text, a
    singleton gives its element, exactly {integer, decimal} gives decimal,
    every other mixture (in particular boolean with anything else) gives
    text; the answer is one of the six storage types and is a function of
    the observed set alone, so repeating the inference repeats the
    answer. *)
Theorem inferir_tipo_coluna_tabela (amostras : list valor) :
  (classificacoes amostras = ∅ → inferir_tipo_coluna amostras = "TEXT")
  ∧ (∀ t, classificacoes amostras = {[ t ]} → inferir_tipo_coluna amostras = t)
  ∧ (classificacoes amostras = {[ "INTEGER"; "NUMERIC(18,4)" ]} →
     inferir_tipo_coluna amostras = "NUMERIC(18,4)")
  ∧ ((2 <= size (classificacoes amostras))%nat →
     classificacoes amostras ≠ {[ "INTEGER"; "NUMERIC(18,4)" ]} →
     inferir_tipo_coluna amostras = "TEXT")
  ∧ ("BOOLEAN" ∈ classificacoes amostras →
     (2 <= size (classificacoes amostras))%nat →
     inferir_tipo_coluna amostras = "TEXT")
  ∧ inferir_tipo_coluna amostras ∈ tipos_armazenamento
  ∧ (∀ outra, classificacoes outra = classificacoes amostras →
     inferir_tipo_coluna outra = inferir_tipo_coluna amostras).
Proof.
  unfold inferir_tipo_coluna.
  rewrite tipos_encontrados_classificacoes.
  repeat split.
  - intros ->. apply escolher_tipo_vazio.
  - intros t ->. apply escolher_tipo_unitario.
  - intros ->. apply escolher_tipo_par_numerico.
  - apply escolher_tipo_mistura.
  - intros Hb Hsz. apply escolher_tipo_mistura; [assumption|].
    intros Heq. rewrite Heq in Hb. set_solver.
  - apply escolher_tipo_armazenamento. intros t Ht.
    apply elem_of_classificacoes in Ht as (v & _ & Hv).
    apply classificar_tipos_armazenamento in Hv. set_solver.
  - intros outra Heq. rewrite tipos_encontrados_classificacoes, Heq.
    reflexivity.
Qed.

Example inferir_exemplos :
  inferir_tipo_coluna [] = "TEXT"
  ∧ inferir_tipo_coluna [VNone; VNone] = "TEXT"
  ∧ inferir_tipo_coluna [VInt 1; VNone; VInt 7] = "INTEGER"
  ∧ inferir_tipo_coluna [VInt 1; VDecimal (Numeric 25 1)] = "NUMERIC(18,4)"
  ∧ inferir_tipo_coluna [VBool true; VInt 0] = "TEXT"
  ∧ inferir_tipo_coluna [VFloat 0; VInt 0] = "TEXT"
  ∧ inferir_tipo_coluna [VDatetime (Data 2011 5 31) 0] = "TIMESTAMP".
Proof. repeat split; vm_compute; reflexivity. Qed.

Lemma classificar_timestamp (v : valor) :
  classificar v = Some "TIMESTAMP" ↔ isinstance_datetime v = true.
Proof.
  destruct v; cbn; split; intros H; try reflexivity; discriminate H.
Qed.

(** C8.  A value that is a [date] but not a [datetime] is classified as
    text and never as timestamp, and a column holding it is inferred as
    text: the timestamp branch is taken by [datetime] instances only. *)
Theorem date_classificada_como_texto (v : valor) :
  isinstance_date v = true →
  isinstance_datetime v = false →
  isinstance_bool v = false ∧ isinstance_int v = false
  ∧ isinstance_float v = false ∧ isinstance_Decimal v = false
  ∧ classificar v = Some "TEXT"
  ∧ classificar v ≠ Some "TIMESTAMP"
  ∧ inferir_tipo_coluna [v] = "TEXT"
  ∧ (∀ w, classificar w = Some "TIMESTAMP" ↔ isinstance_datetime w = true).
Proof.
  intros Hdate Hdt.
  destruct v; try discriminate Hdate; try discriminate Hdt.
  repeat split; try reflexivity; try discriminate.
  - apply classificar_timestamp.
  - apply classificar_timestamp.
Qed.

Lemma date_classificada_como_texto_witness :
  isinstance_bool (VDate (Data 2011 5 31)) = false
  ∧ isinstance_int (VDate (Data 2011 5 31)) = false
  ∧ isinstance_float (VDate (Data 2011 5 31)) = false
  ∧ isinstance_Decimal (VDate (Data 2011 5 31)) = false
  ∧ classificar (VDate (Data 2011 5 31)) = Some "TEXT"
  ∧ classificar (VDate (Data 2011 5 31)) ≠ Some "TIMESTAMP"
  ∧ inferir_tipo_coluna [VDate (Data 2011 5 31)] = "TEXT"
  ∧ (∀ w, classificar w = Some "TIMESTAMP" ↔ isinstance_datetime w = true).
Proof.
  apply (date_classificada_como_texto (VDate (Data 2011 5 31))); reflexivity.
Defined.

End TiposProps.

Module StagingProps.
Import Tipos Staging StagingDesfecho.

(** *** Batching *)

Lemma range_passo_zero (passo : nat) : range_passo 0 passo = [].
Proof.
  unfold range_passo. destruct passo as [|p]; [reflexivity|].
  replace (0 + S p - 1)%nat with p by lia.
  rewrite Nat.div_small by lia. reflexivity.
Qed.

Lemma range_passo_succ (n passo : nat) :
  (0 < n)%nat → (0 < passo)%nat →
  range_passo n passo = 0%nat :: map (λ i, passo + i)%nat (range_passo (n - passo) passo).
Proof.
  intros Hn Hp. unfold range_passo.
  assert (Hdiv : ((n + passo - 1) / passo = S ((n - passo + passo - 1) / passo))%nat).
  { destruct (le_lt_dec n passo) as [Hle|Hgt].
    - replace (n - passo)%nat with 0%nat by lia.
      replace (0 + passo - 1)%nat with (passo - 1)%nat by lia.
      rewrite (Nat.div_small (passo - 1)) by lia.
      symmetry. apply (Nat.div_unique _ _ 1%nat (n - 1)%nat); lia.
    - replace (n + passo - 1)%nat with ((n - passo + passo - 1) + 1 * passo)%nat by lia.
      rewrite Nat.div_add by lia. lia. }
  rewrite Hdiv. simpl seq. simpl map. f_equal.
  rewrite <- seq_shift, !map_map. apply map_ext. intros k. lia.
Qed.

Lemma lotes_nil : lotes [] = [].
Proof. reflexivity. Qed.

Lemma lotes_cons (registros : list (list valor)) :
  registros ≠ [] →
  lotes registros = take tamanho_lote registros :: lotes (drop tamanho_lote registros).
Proof.
  intros Hne. unfold lotes.
  rewrite range_passo_succ; [|destruct registros; simpl; [congruence|lia]|unfold tamanho_lote; lia].
  cbn [map]. f_equal.
  rewrite length_drop, map_map. apply map_ext. intros i.
  unfold fatia. rewrite drop_drop. f_equal; lia.
Qed.

(** Induction along the batches of a list. *)
Lemma lotes_ind (P : list (list valor) → Prop) :
  P [] →
  (∀ l, l ≠ [] → P (drop tamanho_lote l) → P l) →
  ∀ l, P l.
Proof.
  intros Hnil Hstep l.
  remember (length l) as n eqn:Hn. revert l Hn.
  induction n as [n IH] using lt_wf_ind. intros l Hn.
  destruct l as [|r rs]; [exact Hnil|].
  apply Hstep; [discriminate|].
  apply (IH (length (drop tamanho_lote (r :: rs)))); [|reflexivity].
  rewrite length_drop. subst n. unfold tamanho_lote. simpl. lia.
Qed.

Lemma concat_lotes (registros : list (list valor)) :
  concat (lotes registros) = registros.
Proof.
  induction registros as [|l Hne IH] using lotes_ind; [reflexivity|].
  rewrite lotes_cons by assumption. simpl. rewrite IH. apply take_drop.
Qed.

Lemma lotes_tamanho (registros lote : list (list valor)) :
  lote ∈ lotes registros → (0 < length lote <= tamanho_lote)%nat.
Proof.
  induction registros as [|l Hne IH] using lotes_ind.
  - rewrite lotes_nil. intros H. inversion H.
  - rewrite lotes_cons by assumption. intros [->|Hin]%elem_of_cons; [|auto].
    rewrite length_take. destruct l; [congruence|]. unfold tamanho_lote. cbn [length]. lia.
Qed.

(** Every batch but the last is full. *)
Lemma lotes_cheios (registros : list (list valor)) (k : nat) (lote : list (list valor)) :
  lotes registros !! k = Some lote →
  (S k < length (lotes registros))%nat →
  length lote = tamanho_lote.
Proof.
  revert k. induction registros as [|l Hne IH] using lotes_ind; intros k.
  - rewrite lotes_nil. intros H. inversion H.
  - rewrite lotes_cons by assumption. destruct k as [|k]; simpl.
    + intros [= <-] Hlen. rewrite length_take.
      destruct (decide (drop tamanho_lote l = [])) as [He|Hd].
      * rewrite He, lotes_nil in Hlen. simpl in Hlen. lia.
      * assert (length (drop tamanho_lote l) ≠ 0%nat)
          by (destruct (drop tamanho_lote l); simpl; congruence).
        rewrite length_drop in *. lia.
    + intros Hk Hlen. apply (IH k Hk). lia.
Qed.

Lemma lotes_quantidade (registros : list (list valor)) :
  length (lotes registros) = ((length registros + tamanho_lote - 1) / tamanho_lote)%nat.
Proof.
  unfold lotes, range_passo. rewrite !length_map, length_seq. reflexivity.
Qed.

(** *** Schema inference over the sample *)

Lemma valores_amostra_ok (idx : nat) (amostra : list (list valor)) :
  Forall (λ r, idx < length r)%nat amostra →
  valores_amostra idx amostra = Some (coluna_sem_nulos idx amostra).
Proof.
  intros Hlen. unfold valores_amostra, coluna_sem_nulos.
  assert (Hm : mapM (λ r : list valor, r !! idx) amostra
               = Some (map (λ r, nth idx r VNone) amostra)).
  { apply mapM_Some. induction Hlen as [|r rs Hr _ IH]; constructor; [|exact IH].
    destruct (lookup_lt_is_Some_2 r idx Hr) as [v Hv].
    rewrite Hv. f_equal. symmetry. apply nth_lookup_Some. exact Hv. }
  rewrite Hm. reflexivity.
Qed.

Lemma inferir_colunas_ok (amostra : list (list valor)) (colunas : list string) :
  ∀ (k : nat) (acc : gmap string string),
  Forall (λ r, k + length colunas <= length r)%nat amostra →
  NoDup colunas →
  ∃ tipos, inferir_colunas k colunas amostra acc = Some tipos
    ∧ (∀ i col, colunas !! i = Some col →
         tipos !! col = Some (inferir_tipo_coluna (coluna_sem_nulos (k + i) amostra)))
    ∧ (∀ c, c ∉ colunas → tipos !! c = acc !! c).
Proof.
  induction colunas as [|c cs IH]; intros k acc Hlen Hnd.
  - exists acc. split; [reflexivity|]. split; [intros i col H; inversion H|reflexivity].
  - apply NoDup_cons in Hnd as [Hc Hnd]. cbn [inferir_colunas].
    rewrite valores_amostra_ok; cycle 1.
    { eapply Forall_impl; [exact Hlen|]. cbn. intros r Hr. cbn in Hr. lia. }
    cbn [mbind option_bind].
    destruct (IH (S k) (<[c := inferir_tipo_coluna (coluna_sem_nulos k amostra)]> acc))
      as (tipos & Heq & Hcols & Hout); [|exact Hnd|].
    { eapply Forall_impl; [exact Hlen|]. cbn. intros r Hr. lia. }
    exists tipos. split; [exact Heq|]. split.
    + intros [|i] col Hi; cbn in Hi.
      * injection Hi as <-. rewrite (Hout c Hc), lookup_insert_eq.
        do 3 f_equal. lia.
      * rewrite (Hcols i col Hi). do 3 f_equal. lia.
    + intros c' Hc'. apply not_elem_of_cons in Hc' as [Hne Hc'].
      rewrite (Hout c' Hc'). apply lookup_insert_ne. congruence.
Qed.

Lemma definicao_colunas_ok (tipos : gmap string string) (colunas : list string) :
  ∀ f : nat → string,
  (∀ i col, colunas !! i = Some col → tipos !! col = Some (f i)) →
  definicao_colunas colunas tipos = Some (imap (λ i col, (col, f i)) colunas).
Proof.
  unfold definicao_colunas.
  induction colunas as [|c cs IH]; intros f Hf; [reflexivity|].
  cbn. rewrite (Hf 0%nat c eq_refl). cbn.
  rewrite (IH (f ∘ S)); [reflexivity|].
  intros i col Hi. apply (Hf (S i) col Hi).
Qed.

Lemma esquema_inferido_nomes (colunas : list string) (registros : list (list valor)) :
  (esquema_inferido colunas registros).*1 = colunas.
Proof.
  unfold esquema_inferido.
  assert (H : ∀ (g : nat → string) (l : list string),
             (imap (λ i col, (col, g i)) l).*1 = l).
  { intros g l. revert g. induction l as [|c cs IH]; intros g; [reflexivity|].
    cbn. f_equal. apply (IH (g ∘ S)). }
  apply (H (λ idx, inferir_tipo_coluna
                               (coluna_sem_nulos idx (take 1000 registros)))).
Qed.

Lemma esquema_inferido_length (colunas : list string) (registros : list (list valor)) :
  length (esquema_inferido colunas registros) = length colunas.
Proof.
  rewrite <- (esquema_inferido_nomes colunas registros) at 2.
  rewrite length_fmap. reflexivity.
Qed.

(** The statement [CREATE TABLE] receives the schema the specification
    describes, when no row of the sample is shorter than the column list
    and the column names are distinct. *)
Lemma definicao_inferida (colunas : list string) (registros : list (list valor)) :
  NoDup colunas →
  Forall (λ r, length colunas <= length r)%nat registros →
  (tipos_coluna ← inferir_colunas 0 colunas
                    (take (Nat.min (length registros) 1000) registros) ∅;
   definicao_colunas colunas tipos_coluna)
  = Some (esquema_inferido colunas registros).
Proof.
  intros Hnd Hlen.
  assert (Hmin : take (Nat.min (length registros) 1000) registros = take 1000 registros).
  { destruct (le_lt_dec (length registros) 1000) as [Hle|Hgt].
    - rewrite Nat.min_l by exact Hle. rewrite !take_ge by lia. reflexivity.
    - rewrite Nat.min_r by lia. reflexivity. }
  rewrite Hmin.
  destruct (inferir_colunas_ok (take 1000 registros) colunas 0 ∅
              ltac:(apply Forall_take; exact Hlen) Hnd)
    as (tipos & Heq & Hcols & _).
  rewrite Heq. cbn [mbind option_bind].
  apply (definicao_colunas_ok tipos colunas
           (λ i, inferir_tipo_coluna (coluna_sem_nulos i (take 1000 registros)))).
  exact Hcols.
Qed.

(** *** The load of one mapping *)

Section Carga.

Variable aceita : string → valor → bool.

Lemma inserir_lotes_aceitos (colunas : list (string * string))
    (ls : list (list (list valor))) :
  ∀ (linhas : list (list valor)) (total : nat),
  Forall (λ lote, lote_aceito aceita colunas lote = true) ls →
  inserir_lotes aceita colunas ls linhas total
  = (true, linhas ++ concat ls, (total + length (concat ls))%nat).
Proof.
  induction ls as [|lote resto IH]; intros linhas total Hok; cbn.
  - rewrite app_nil_r, Nat.add_0_r. reflexivity.
  - apply Forall_cons in Hok as [Hl Hr]. rewrite Hl, (IH _ _ Hr).
    rewrite length_app, <- app_assoc, Nat.add_assoc. reflexivity.
Qed.

(** A refused batch stops the loop: the batches before it stay stored,
    the refused one and those after it do not. *)
Lemma inserir_lotes_recusado (colunas : list (string * string))
    (antes : list (list (list valor))) (lote : list (list valor))
    (depois : list (list (list valor))) :
  ∀ (linhas : list (list valor)) (total : nat),
  Forall (λ l, lote_aceito aceita colunas l = true) antes →
  lote_aceito aceita colunas lote = false →
  inserir_lotes aceita colunas (antes ++ lote :: depois) linhas total
  = (false, linhas ++ concat antes, (total + length (concat antes))%nat).
Proof.
  induction antes as [|a resto IH]; intros linhas total Hok Hno; cbn.
  - rewrite Hno, app_nil_r, Nat.add_0_r. reflexivity.
  - apply Forall_cons in Hok as [Ha Hr]. rewrite Ha, (IH _ _ Hr Hno).
    rewrite length_app, <- app_assoc, Nat.add_assoc. reflexivity.
Qed.

Lemma lotes_aceitos (colunas : list (string * string)) (registros : list (list valor)) :
  Forall (λ r, linha_aceita aceita colunas r = true) registros →
  Forall (λ lote, lote_aceito aceita colunas lote = true) (lotes registros).
Proof.
  intros Hok. apply Forall_forall. intros lote Hin.
  unfold lote_aceito. apply forallb_forall. intros r Hr.
  rewrite Forall_forall in Hok. apply Hok.
  rewrite <- (concat_lotes registros). apply list_elem_of_In, in_concat.
  exists lote. split; [apply list_elem_of_In; exact Hin|exact Hr].
Qed.

(** What the load of a mapping does to the destination depends on the
    source only: it sets or removes the intermediate table, appends to
    the log, and ends or raises, the same way from every state. *)
Lemma processar_tabela_forma (fonte : gmap string extracao)
    (tabela_origem tabela_staging : string) (ex : extracao) :
  fonte !! tabela_origem = Some ex →
  ∃ (t : option tabela) (linhas_log : list (string * nat)) (ok : bool),
    ∀ e, ∃ tbs,
      processar_tabela aceita fonte tabela_origem tabela_staging e
      = (if ok then Concluido else Falhou) (Estado tbs (registro e ++ linhas_log))
      ∧ tbs !! tabela_staging = t
      ∧ ∀ k, k ≠ tabela_staging → tbs !! k = tabelas e !! k.
Proof.
  intros Hsrc. unfold processar_tabela. rewrite Hsrc.
  assert (Hins : ∀ (m : gmap string tabela) (x : tabela),
             <[tabela_staging := x]> (delete tabela_staging m) !! tabela_staging = Some x
             ∧ ∀ k, k ≠ tabela_staging →
                    <[tabela_staging := x]> (delete tabela_staging m) !! k = m !! k).
  { intros m x. split; [apply lookup_insert_eq|]. intros k Hk.
    rewrite lookup_insert_ne, lookup_delete_ne by congruence. reflexivity. }
  destruct ex as [colunas registros]. destruct registros as [|r rs].
  - exists (Some tabela_placeholder), [], true. intros e. eexists.
    cbn [tabelas registro]. rewrite app_nil_r. split; [reflexivity|]. apply Hins.
  - set (regs := r :: rs).
    destruct (inferir_colunas 0 colunas (take (Nat.min (length regs) 1000) regs) ∅
              ≫= λ tipos_coluna, definicao_colunas colunas tipos_coluna)
      as [definicao|].
    + destruct (inserir_lotes aceita definicao (lotes regs) [] 0) as [[ok linhas] total].
      destruct ok.
      * exists (Some (Tabela definicao linhas)), [(tabela_staging, total)], true.
        intros e. eexists. cbn [tabelas registro]. split; [reflexivity|]. apply Hins.
      * exists (Some (Tabela definicao linhas)), [], false.
        intros e. eexists. cbn [tabelas registro]. rewrite app_nil_r.
        split; [reflexivity|]. apply Hins.
    + exists None, [], false. intros e. eexists. cbn [tabelas registro].
      rewrite app_nil_r. split; [reflexivity|].
      split; [apply lookup_delete_eq|]. intros k Hk. apply lookup_delete_ne. congruence.
Qed.

(** The destination after the load of one mapping, whether it ended or
    raised: every table but the mapping's own is as before. *)
Lemma processar_tabela_alheias (fonte : gmap string extracao)
    (tabela_origem tabela_staging : string) (e : estado) (k : string) :
  k ≠ tabela_staging →
  tabelas (estado_final (processar_tabela aceita fonte tabela_origem tabela_staging e)) !! k
  = tabelas e !! k.
Proof.
  intros Hk. destruct (fonte !! tabela_origem) as [ex|] eqn:Hsrc.
  - destruct (processar_tabela_forma fonte tabela_origem tabela_staging ex Hsrc)
      as (t & lg & ok & H).
    destruct (H e) as (tbs & -> & _ & Hout). destruct ok; cbn; apply Hout, Hk.
  - unfold processar_tabela. rewrite Hsrc. reflexivity.
Qed.

(** The run leaves alone every table that is not the target of one of its
    mappings, whether it ends or raises. *)
Lemma extrair_tabelas_preserva (fonte : gmap string extracao)
    (mapa : list (string * string)) (e : estado) (k : string) :
  k ∉ mapa.*2 →
  tabelas (estado_final (extrair_tabelas aceita fonte mapa e)) !! k = tabelas e !! k.
Proof.
  revert e. induction mapa as [|[o s] resto IH]; intros e Hk; [reflexivity|].
  rewrite fmap_cons in Hk. apply not_elem_of_cons in Hk as [Hne Hk]. cbn in Hne.
  cbn [extrair_tabelas].
  pose proof (processar_tabela_alheias fonte o s e k Hne) as Hp.
  destruct (processar_tabela aceita fonte o s e) as [e'|e']; cbn in Hp.
  - rewrite (IH e' Hk). exact Hp.
  - exact Hp.
Qed.

(** A run over mappings that complete goes on with what follows them. *)
Lemma extrair_tabelas_app (fonte : gmap string extracao)
    (antes depois : list (string * string)) :
  ∀ e e1, extrair_tabelas aceita fonte antes e = Concluido e1 →
  extrair_tabelas aceita fonte (antes ++ depois) e
  = extrair_tabelas aceita fonte depois e1.
Proof.
  induction antes as [|[o s] resto IH]; intros e e1 Hrun.
  - cbn in Hrun. injection Hrun as ->. reflexivity.
  - cbn [app extrair_tabelas] in *.
    destruct (processar_tabela aceita fonte o s e) as [e'|e']; [|discriminate Hrun].
    apply IH, Hrun.
Qed.

(** The schema of [definicao_inferida] needs the rows of the sample only. *)
Lemma definicao_inferida_amostra (colunas : list string) (registros : list (list valor)) :
  NoDup colunas →
  Forall (λ r, length colunas <= length r)%nat (take 1000 registros) →
  (tipos_coluna ← inferir_colunas 0 colunas
                    (take (Nat.min (length registros) 1000) registros) ∅;
   definicao_colunas colunas tipos_coluna)
  = Some (esquema_inferido colunas registros).
Proof.
  intros Hnd Hlen.
  assert (Hmin : take (Nat.min (length registros) 1000) registros = take 1000 registros).
  { destruct (le_lt_dec (length registros) 1000) as [Hle|Hgt].
    - rewrite Nat.min_l by exact Hle. rewrite !take_ge by lia. reflexivity.
    - rewrite Nat.min_r by lia. reflexivity. }
  rewrite Hmin.
  destruct (inferir_colunas_ok (take 1000 registros) colunas 0 ∅ Hlen Hnd)
    as (tipos & Heq & Hcols & _).
  rewrite Heq. cbn [mbind option_bind].
  apply (definicao_colunas_ok tipos colunas
           (λ i, inferir_tipo_coluna (coluna_sem_nulos i (take 1000 registros)))).
  exact Hcols.
Qed.

(** A sampled row with fewer values than there are columns makes the
    inference raise [IndexError]. *)
Lemma inferir_colunas_curta (amostra : list (list valor)) (r : list valor)
    (colunas : list string) :
  r ∈ amostra →
  ∀ (k : nat) (acc : gmap string string),
  (k <= length r < k + length colunas)%nat →
  inferir_colunas k colunas amostra acc = None.
Proof.
  intros Hr. induction colunas as [|c cs IH]; intros k acc Hlen; cbn in Hlen; [lia|].
  cbn [inferir_colunas]. apply bind_None.
  destruct (valores_amostra k amostra) as [vs|] eqn:Hvs; [right|left; reflexivity].
  exists vs. split; [reflexivity|]. apply IH.
  unfold valores_amostra in Hvs. apply bind_Some in Hvs as (ws & Hws & _).
  apply mapM_Some in Hws. apply list_elem_of_lookup in Hr as [i Hi].
  destruct (Forall2_lookup_l _ _ _ _ _ Hws Hi) as (w & _ & Hw).
  apply lookup_lt_Some in Hw. lia.
Qed.

(** The loop over the batches ends without raising only when the
    destination took every batch. *)
Lemma inserir_lotes_ok (colunas : list (string * string))
    (ls : list (list (list valor))) :
  ∀ (linhas : list (list valor)) (total : nat),
  (inserir_lotes aceita colunas ls linhas total).1.1 = true →
  Forall (λ lote, lote_aceito aceita colunas lote = true) ls.
Proof.
  induction ls as [|lote resto IH]; intros linhas total Hok; [constructor|].
  cbn [inserir_lotes] in Hok.
  destruct (lote_aceito aceita colunas lote) eqn:Hl; [|discriminate Hok].
  constructor; [exact Hl|]. apply (IH _ _ Hok).
Qed.

(** C6.  A mapping whose source table yields no rows replaces whatever
    intermediate table existed by the one-column placeholder table, logs
    no load and does not raise.  The loop goes on with the mappings that
    follow, from the state with the placeholder: the run over the mapping
    alone ends with that state, whatever the connection's block does at
    its end; reached after other mappings, the mapping hands that state
    to those after it; the run ends whenever the mappings after it end;
    and the placeholder is still there when the loop stops, unless a
    later mapping has the same target. *)
Theorem tabela_vazia_cria_placeholder (fonte : gmap string extracao)
    (tabela_origem tabela_staging : string) (colunas : list string)
    (resto : list (string * string)) (e : estado) :
  fonte !! tabela_origem = Some (Extracao colunas []) →
  processar_tabela aceita fonte tabela_origem tabela_staging e
  = Concluido (Estado (<[tabela_staging := tabela_placeholder]>
                         (delete tabela_staging (tabelas e)))
                      (registro e))
  ∧ <[tabela_staging := tabela_placeholder]> (delete tabela_staging (tabelas e))
      !! tabela_staging
    = Some (Tabela [("placeholder", "INT")] [])
  ∧ (∀ t, t ≠ tabela_staging →
       <[tabela_staging := tabela_placeholder]> (delete tabela_staging (tabelas e)) !! t
       = tabelas e !! t)
  ∧ extrair_tabelas aceita fonte ((tabela_origem, tabela_staging) :: resto) e
    = extrair_tabelas aceita fonte resto
        (Estado (<[tabela_staging := tabela_placeholder]>
                   (delete tabela_staging (tabelas e)))
                (registro e))
  ∧ extrair_tabelas aceita fonte [(tabela_origem, tabela_staging)] e
    = Concluido (Estado (<[tabela_staging := tabela_placeholder]>
                           (delete tabela_staging (tabelas e)))
                        (registro e))
  ∧ (∀ bloco_transacional,
       executar_mapa aceita bloco_transacional fonte [(tabela_origem, tabela_staging)] e
       = Concluido (Estado (<[tabela_staging := tabela_placeholder]>
                              (delete tabela_staging (tabelas e)))
                           (registro e)))
  ∧ (∀ antes e0, extrair_tabelas aceita fonte antes e0 = Concluido e →
       extrair_tabelas aceita fonte (antes ++ (tabela_origem, tabela_staging) :: resto) e0
       = extrair_tabelas aceita fonte resto
           (Estado (<[tabela_staging := tabela_placeholder]>
                      (delete tabela_staging (tabelas e)))
                   (registro e)))
  ∧ (∀ e2,
       extrair_tabelas aceita fonte resto
         (Estado (<[tabela_staging := tabela_placeholder]>
                    (delete tabela_staging (tabelas e)))
                 (registro e))
       = Concluido e2 →
       extrair_tabelas aceita fonte ((tabela_origem, tabela_staging) :: resto) e
       = Concluido e2)
  ∧ (tabela_staging ∉ resto.*2 →
     tabelas (estado_final
                (extrair_tabelas aceita fonte ((tabela_origem, tabela_staging) :: resto) e))
       !! tabela_staging
     = Some tabela_placeholder).
Proof.
  intros Hsrc.
  assert (Hp : processar_tabela aceita fonte tabela_origem tabela_staging e
               = Concluido (Estado (<[tabela_staging := tabela_placeholder]>
                                      (delete tabela_staging (tabelas e)))
                                   (registro e))).
  { unfold processar_tabela. rewrite Hsrc. reflexivity. }
  assert (Hloop : ∀ m, extrair_tabelas aceita fonte ((tabela_origem, tabela_staging) :: m) e
                       = extrair_tabelas aceita fonte m
                           (Estado (<[tabela_staging := tabela_placeholder]>
                                      (delete tabela_staging (tabelas e)))
                                   (registro e))).
  { intros m. cbn [extrair_tabelas]. rewrite Hp. reflexivity. }
  split; [exact Hp|]. split; [apply lookup_insert_eq|]. split.
  { intros t Ht. rewrite lookup_insert_ne, lookup_delete_ne by congruence.
    reflexivity. }
  split; [apply Hloop|]. split; [apply Hloop|]. split.
  { intros b. unfold executar_mapa. rewrite Hloop. reflexivity. }
  split.
  { intros antes e0 Hantes. rewrite (extrair_tabelas_app _ _ _ _ _ Hantes). apply Hloop. }
  split.
  { intros e2 Hresto. rewrite Hloop. exact Hresto. }
  intros Hfora. rewrite Hloop, (extrair_tabelas_preserva _ _ _ _ Hfora).
  apply lookup_insert_eq.
Qed.

(** C7, amended.  For a source table with at least one row and distinct
    column names: the schema of the intermediate table has the source's
    column names in the source's order, each typed by the inference run
    on the non-null values of that column in the first 1000 rows (rows
    after them do not matter); the batches concatenate to the extraction,
    each of at most 500 rows and all but the last of exactly 500.  When
    the destination accepts every row under that schema the table is
    created with it, every extracted row is stored and the count the task
    logs is the number of rows extracted.  When the destination refuses a
    row the load raises instead: nothing is logged for the table and the
    run stops there. *)
Theorem carga_tabela_nao_vazia (fonte : gmap string extracao)
    (tabela_origem tabela_staging : string) (colunas : list string)
    (registros : list (list valor)) (e : estado) :
  fonte !! tabela_origem = Some (Extracao colunas registros) →
  registros ≠ [] →
  NoDup colunas →
  (esquema_inferido colunas registros).*1 = colunas
  ∧ (∀ idx col t, esquema_inferido colunas registros !! idx = Some (col, t) →
       colunas !! idx = Some col
       ∧ t = inferir_tipo_coluna
               (filter (λ v, is_None v = false)
                  (map (λ r, nth idx r VNone) (take 1000 registros))))
  ∧ (∀ outros, take 1000 outros = take 1000 registros →
       esquema_inferido colunas outros = esquema_inferido colunas registros)
  ∧ concat (lotes registros) = registros
  ∧ (∀ lote, lote ∈ lotes registros → (0 < length lote <= 500)%nat)
  ∧ (∀ k lote, lotes registros !! k = Some lote →
       (S k < length (lotes registros))%nat → length lote = 500%nat)
  ∧ (Forall (λ r, linha_aceita aceita (esquema_inferido colunas registros) r = true)
            registros →
     processar_tabela aceita fonte tabela_origem tabela_staging e
     = Concluido (Estado (<[tabela_staging :=
                             Tabela (esquema_inferido colunas registros) registros]>
                            (tabelas e))
                         (registro e ++ [(tabela_staging, length registros)])))
  ∧ (¬ Forall (λ r, linha_aceita aceita (esquema_inferido colunas registros) r = true)
              registros →
     ∃ e', processar_tabela aceita fonte tabela_origem tabela_staging e = Falhou e'
           ∧ registro e' = registro e
           ∧ ∀ resto,
               extrair_tabelas aceita fonte ((tabela_origem, tabela_staging) :: resto) e
               = Falhou e').
Proof.
  intros Hsrc Hne Hnd.
  split; [apply esquema_inferido_nomes|]. split.
  { intros idx col t Hidx. unfold esquema_inferido in Hidx.
    rewrite list_lookup_imap in Hidx.
    destruct (colunas !! idx) as [c|]; [|discriminate Hidx].
    cbn in Hidx. injection Hidx as <- <-. split; reflexivity. }
  split.
  { intros outros Heq. unfold esquema_inferido. rewrite Heq. reflexivity. }
  split; [apply concat_lotes|]. split; [apply lotes_tamanho|].
  split; [apply lotes_cheios|]. split.
  - intros Hok. unfold processar_tabela. rewrite Hsrc.
    destruct registros as [|r0 rs] eqn:Hregs; [congruence|]. rewrite <- Hregs in *.
    assert (Hlen : Forall (λ r, length colunas <= length r)%nat registros).
    { eapply Forall_impl; [exact Hok|]. cbn. intros r Hr.
      unfold linha_aceita in Hr. apply andb_true_iff in Hr as [Hr _].
      apply Nat.eqb_eq in Hr. rewrite esquema_inferido_length in Hr. lia. }
    rewrite (definicao_inferida colunas registros Hnd Hlen).
    rewrite inserir_lotes_aceitos by (apply lotes_aceitos; exact Hok).
    rewrite concat_lotes. cbn [app tabelas registro Nat.add].
    rewrite insert_delete_eq. reflexivity.
  - intros Hno.
    assert (Hfalha : ∃ e', processar_tabela aceita fonte tabela_origem tabela_staging e
                           = Falhou e'
                           ∧ registro e' = registro e).
    { unfold processar_tabela. rewrite Hsrc.
      destruct registros as [|r0 rs] eqn:Hregs; [congruence|]. rewrite <- Hregs in *.
      destruct (decide (Forall (λ r, length colunas <= length r)%nat (take 1000 registros)))
        as [Hlen|Hcurta].
      - rewrite (definicao_inferida_amostra colunas registros Hnd Hlen).
        destruct (inserir_lotes aceita (esquema_inferido colunas registros)
                    (lotes registros) [] 0) as [[ok linhas] total] eqn:Hins.
        destruct ok; [|eexists; split; reflexivity].
        exfalso. apply Hno.
        pose proof (inserir_lotes_ok (esquema_inferido colunas registros)
                      (lotes registros) [] 0%nat) as Hlotes.
        rewrite Hins in Hlotes. specialize (Hlotes eq_refl).
        apply Forall_forall. intros r Hr. rewrite <- (concat_lotes registros) in Hr.
        apply list_elem_of_In, in_concat in Hr as (lote & Hlote & Hr).
        rewrite Forall_forall in Hlotes.
        specialize (Hlotes lote ltac:(apply list_elem_of_In; exact Hlote)).
        unfold lote_aceito in Hlotes. rewrite forallb_forall in Hlotes.
        apply Hlotes, Hr.
      - apply not_Forall_Exists in Hcurta; [|intros r; apply _].
        apply Exists_exists in Hcurta as (r & Hr & Hcurta).
        unfold compose in Hcurta.
        assert (Hmin : take (Nat.min (length registros) 1000) registros
                       = take 1000 registros).
        { destruct (le_lt_dec (length registros) 1000) as [Hle|Hgt].
          - rewrite Nat.min_l by exact Hle. rewrite !take_ge by lia. reflexivity.
          - rewrite Nat.min_r by lia. reflexivity. }
        rewrite Hmin.
        rewrite (inferir_colunas_curta (take 1000 registros) r colunas Hr 0 ∅) by lia.
        eexists. split; reflexivity. }
    destruct Hfalha as (e' & He' & Hreg). exists e'.
    split; [exact He'|]. split; [exact Hreg|].
    intros resto. cbn [extrair_tabelas]. rewrite He'. reflexivity.
Qed.

(** A refused batch makes the load of the mapping raise.  When the
    exception leaves the loop the session has the table with its inferred
    schema and the rows of the batches before the refused one, and
    nothing is logged for it. *)
Lemma carga_tabela_recusada (fonte : gmap string extracao)
    (tabela_origem tabela_staging : string) (colunas : list string)
    (registros : list (list valor)) (e : estado)
    (antes : list (list (list valor))) (lote : list (list valor))
    (depois : list (list (list valor))) :
  fonte !! tabela_origem = Some (Extracao colunas registros) →
  registros ≠ [] →
  NoDup colunas →
  Forall (λ r, length colunas <= length r)%nat registros →
  lotes registros = antes ++ lote :: depois →
  Forall (λ l, lote_aceito aceita (esquema_inferido colunas registros) l = true) antes →
  lote_aceito aceita (esquema_inferido colunas registros) lote = false →
  processar_tabela aceita fonte tabela_origem tabela_staging e
  = Falhou (Estado (<[tabela_staging :=
                       Tabela (esquema_inferido colunas registros) (concat antes)]>
                      (tabelas e))
                   (registro e)).
Proof.
  intros Hsrc Hne Hnd Hlen Hlotes Hantes Hlote.
  unfold processar_tabela. rewrite Hsrc.
  destruct registros as [|r0 rs] eqn:Hregs; [congruence|]. rewrite <- Hregs in *.
  rewrite (definicao_inferida colunas registros Hnd Hlen), Hlotes.
  rewrite (inserir_lotes_recusado _ antes lote depois [] 0%nat Hantes Hlote).
  cbn [app tabelas registro]. rewrite insert_delete_eq. reflexivity.
Qed.

End Carga.

(** The rows of [fonte_longa] and of [fonte_mista] but the last, under
    the schema their first 1000 rows give. *)
Lemma mil_inteiros_aceitos (r : list valor) :
  r ∈ replicate 1000 [VInt 0] →
  linha_aceita aceita_inteiros [("MinQty", "INTEGER")] r = true.
Proof. intros Hr. apply elem_of_replicate in Hr as [-> _]. reflexivity. Qed.

Lemma tabela_vazia_cria_placeholder_witness :
  fonte_exemplo !! "Sales.SpecialOffer" = Some (Extracao ["SpecialOfferID"; "Description"] [])
  ∧ processar_tabela aceita_tudo fonte_exemplo "Sales.SpecialOffer" "stage_ofertas"
      estado_exemplo
    = Concluido (Estado (<["stage_ofertas" := tabela_placeholder]>
                           (delete "stage_ofertas" (tabelas estado_exemplo)))
                        (registro estado_exemplo))
  ∧ extrair_tabelas aceita_tudo fonte_exemplo
      [("Sales.SpecialOffer", "stage_ofertas")] estado_exemplo
    = Concluido (Estado (<["stage_ofertas" := tabela_placeholder]>
                           (delete "stage_ofertas" (tabelas estado_exemplo)))
                        (registro estado_exemplo))
  ∧ tabelas (estado_final
               (extrair_tabelas aceita_tudo fonte_exemplo
                  [("Sales.SpecialOffer", "stage_ofertas");
                   ("Sales.SalesTerritory", "stage_territorios")]
                  estado_exemplo))
      !! "stage_ofertas"
    = Some tabela_placeholder.
Proof.
  assert (H : fonte_exemplo !! "Sales.SpecialOffer"
              = Some (Extracao ["SpecialOfferID"; "Description"] []))
    by (vm_compute; reflexivity).
  split; [exact H|].
  destruct (tabela_vazia_cria_placeholder aceita_tudo fonte_exemplo
              "Sales.SpecialOffer" "stage_ofertas" ["SpecialOfferID"; "Description"]
              [("Sales.SalesTerritory", "stage_territorios")] estado_exemplo H)
    as (Hp & _ & _ & _ & Hso & _ & _ & _ & Hfim).
  split; [exact Hp|]. split; [exact Hso|]. apply Hfim.
  intros Hin. apply list_elem_of_singleton in Hin. discriminate Hin.
Defined.

Lemma carga_tabela_nao_vazia_witness :
  processar_tabela aceita_inteiros fonte_longa "Sales.SpecialOffer" "stage_ofertas"
    estado_exemplo
  = Concluido
      (Estado (<["stage_ofertas" :=
                  Tabela [("MinQty", "INTEGER")] (replicate 1000 [VInt 0] ++ [[VInt 7]])]>
                 (tabelas estado_exemplo))
              [("stage_ofertas", 1001%nat)]).
Proof.
  assert (Hne : replicate 1000 [VInt 0] ++ [[VInt 7]] ≠ []).
  { intros H. apply (f_equal length) in H. rewrite length_app, length_replicate in H.
    discriminate H. }
  destruct (carga_tabela_nao_vazia aceita_inteiros fonte_longa
              "Sales.SpecialOffer" "stage_ofertas" ["MinQty"]
              (replicate 1000 [VInt 0] ++ [[VInt 7]]) estado_exemplo
              ltac:(vm_compute; reflexivity) Hne (NoDup_singleton "MinQty"))
    as (_ & _ & _ & _ & _ & _ & Hok & _).
  assert (Hs : esquema_inferido ["MinQty"] (replicate 1000 [VInt 0] ++ [[VInt 7]])
               = [("MinQty", "INTEGER")]) by (vm_compute; reflexivity).
  assert (Hl : length (replicate 1000 [VInt 0] ++ [[VInt 7]]) = 1001%nat)
    by (rewrite length_app, length_replicate; reflexivity).
  rewrite Hs, Hl in Hok. apply Hok.
  apply Forall_forall. intros r Hr. apply elem_of_app in Hr as [Hr|Hr].
  - apply mil_inteiros_aceitos, Hr.
  - apply list_elem_of_singleton in Hr. subst r. reflexivity.
Defined.

(** C7, as stated, fails.  The table of [fonte_mista] is not empty: 1000
    integer rows, from which the column is inferred as [INTEGER], and
    then a row the destination refuses in such a column.  The load
    raises after the two batches of the first 1000 rows; the session
    then has 1000 of the 1001 extracted rows and no count is logged.
    Once the exception has left the connection's block the table holds
    those 1000 rows, or is what it was before the run: never the 1001
    rows extracted. *)
Lemma carga_nao_vazia_contraexemplo :
  fonte_mista !! "Sales.SpecialOffer"
  = Some (Extracao ["MinQty"] (replicate 1000 [VInt 0] ++ [[VStr "abc"]]))
  ∧ length (replicate 1000 [VInt 0] ++ [[VStr "abc"]]) = 1001%nat
  ∧ esquema_inferido ["MinQty"] (replicate 1000 [VInt 0] ++ [[VStr "abc"]])
    = [("MinQty", "INTEGER")]
  ∧ processar_tabela aceita_inteiros fonte_mista "Sales.SpecialOffer" "stage_ofertas"
      estado_exemplo
    = Falhou (Estado (<["stage_ofertas" :=
                         Tabela [("MinQty", "INTEGER")] (replicate 1000 [VInt 0])]>
                        (tabelas estado_exemplo))
                     (registro estado_exemplo))
  ∧ executar_mapa aceita_inteiros false fonte_mista
      [("Sales.SpecialOffer", "stage_ofertas")] estado_exemplo
    = Falhou (Estado (<["stage_ofertas" :=
                         Tabela [("MinQty", "INTEGER")] (replicate 1000 [VInt 0])]>
                        (tabelas estado_exemplo))
                     (registro estado_exemplo))
  ∧ executar_mapa aceita_inteiros true fonte_mista
      [("Sales.SpecialOffer", "stage_ofertas")] estado_exemplo
    = Falhou estado_exemplo
  ∧ ¬ ∃ e', processar_tabela aceita_inteiros fonte_mista "Sales.SpecialOffer"
              "stage_ofertas" estado_exemplo
            = Concluido e'.
Proof.
  assert (Hsrc : fonte_mista !! "Sales.SpecialOffer"
                 = Some (Extracao ["MinQty"] (replicate 1000 [VInt 0] ++ [[VStr "abc"]])))
    by (vm_compute; reflexivity).
  assert (Hs : esquema_inferido ["MinQty"] (replicate 1000 [VInt 0] ++ [[VStr "abc"]])
               = [("MinQty", "INTEGER")]) by (vm_compute; reflexivity).
  assert (Hp : processar_tabela aceita_inteiros fonte_mista "Sales.SpecialOffer"
                 "stage_ofertas" estado_exemplo
               = Falhou (Estado (<["stage_ofertas" :=
                                    Tabela [("MinQty", "INTEGER")]
                                           (replicate 1000 [VInt 0])]>
                                   (tabelas estado_exemplo))
                                (registro estado_exemplo))).
  { pose proof (carga_tabela_recusada aceita_inteiros fonte_mista
                  "Sales.SpecialOffer" "stage_ofertas" ["MinQty"]
                  (replicate 1000 [VInt 0] ++ [[VStr "abc"]]) estado_exemplo
                  [replicate 500 [VInt 0]; replicate 500 [VInt 0]] [[VStr "abc"]] [])
      as H.
    rewrite Hs in H.
    assert (Hc : concat [replicate 500 [VInt 0]; replicate 500 [VInt 0]]
                 = replicate 1000 [VInt 0]) by (vm_compute; reflexivity).
    rewrite Hc in H. apply H.
    - exact Hsrc.
    - intros Hnil. apply (f_equal length) in Hnil.
      rewrite length_app, length_replicate in Hnil. discriminate Hnil.
    - apply NoDup_singleton.
    - apply Forall_forall. intros r Hr. apply elem_of_app in Hr as [Hr|Hr].
      + apply elem_of_replicate in Hr as [-> _]. cbn. lia.
      + apply list_elem_of_singleton in Hr. subst r. cbn. lia.
    - vm_compute. reflexivity.
    - repeat constructor; vm_compute; reflexivity.
    - vm_compute. reflexivity. }
  split; [exact Hsrc|]. split.
  { rewrite length_app, length_replicate. reflexivity. }
  split; [exact Hs|]. split; [exact Hp|].
  assert (Hrun : extrair_tabelas aceita_inteiros fonte_mista
                   [("Sales.SpecialOffer", "stage_ofertas")] estado_exemplo
                 = Falhou (Estado (<["stage_ofertas" :=
                                      Tabela [("MinQty", "INTEGER")]
                                             (replicate 1000 [VInt 0])]>
                                     (tabelas estado_exemplo))
                                  (registro estado_exemplo))).
  { cbn [extrair_tabelas]. rewrite Hp. reflexivity. }
  split; [unfold executar_mapa; rewrite Hrun; reflexivity|].
  split; [unfold executar_mapa; rewrite Hrun; reflexivity|].
  intros [e' He']. rewrite Hp in He'. discriminate He'.
Qed.

End StagingProps.

Module TempoProps.
Import Tempo.

Open Scope Z_scope.



Lemma calendario_length : Z.of_nat (length calendario) = 8401.
Proof. vm_compute. reflexivity. Qed.

(** The [i]-th day of the series is a valid date within the bounds, [i]
    days after the first. *)
Lemma calendario_dias (i : nat) (d : data) :
  calendario !! i = Some d →
  date2j d = date2j inicio_calendario + Z.of_nat i
  ∧ data_valida d = true
  ∧ data_leb inicio_calendario d = true
  ∧ data_leb d fim_calendario = true.
Proof.
  assert (H : forallb (λ id : nat * data,
                (date2j id.2 =? date2j inicio_calendario + Z.of_nat id.1)
                && data_valida id.2
                && data_leb inicio_calendario id.2
                && data_leb id.2 fim_calendario)
              (imap pair calendario) = true) by (vm_compute; reflexivity).
  intros Hi. rewrite forallb_forall in H.
  specialize (H (i, d)). cbn in H.
  destruct (andb_prop _ _ (H ltac:(apply list_elem_of_In, elem_of_lookup_imap; eauto)))
    as [[[H1 H2]%andb_prop H3]%andb_prop H4].
  apply Z.eqb_eq in H1. auto.
Qed.


Lemma inicializar_vazia :
  inicializar_dimensao_tempo [] = map linha_do_dia calendario.
Proof. reflexivity. Qed.

Lemma lookup_linhas (i : nat) :
  map linha_do_dia calendario !! i = linha_do_dia <$> calendario !! i.
Proof. apply (list_lookup_fmap linha_do_dia calendario i). Qed.


End TempoProps.

Module RegiaoProps.
Import Regiao.

Open Scope Z_scope.

Lemma upsert_outra_chave (d : dim_regiao) (p : proposta) (k : Z) :
  p_nk_regiao p ≠ k → linhas (upsert d p) !! k = linhas d !! k.
Proof.
  intros Hne. unfold upsert.
  destruct (linhas d !! p_nk_regiao p); cbn; apply lookup_insert_ne; exact Hne.
Qed.

Lemma upsert_conflito (d : dim_regiao) (p : proposta) (antiga : linha_regiao) :
  linhas d !! p_nk_regiao p = Some antiga →
  linhas (upsert d p) !! p_nk_regiao p = Some (atualizar antiga p).
Proof.
  intros Hk. unfold upsert. rewrite Hk. cbn. apply lookup_insert_eq.
Qed.

(** Proposed rows that do not carry the key [k] leave its row alone. *)
Lemma foldl_upsert_alheias (ps : list proposta) :
  ∀ (d : dim_regiao) (k : Z),
  k ∉ (p_nk_regiao <$> ps) → linhas (foldl upsert d ps) !! k = linhas d !! k.
Proof.
  induction ps as [|p ps IH]; intros d k Hk; [reflexivity|].
  rewrite fmap_cons in Hk. apply not_elem_of_cons in Hk as [Hne Hk].
  cbn [foldl]. rewrite (IH _ _ Hk). apply upsert_outra_chave. congruence.
Qed.

(** A row already stored under [k] ends as itself when no proposed row
    carries [k], and merged with the one proposed row that does. *)
Lemma foldl_upsert_existente (ps : list proposta) :
  ∀ (d : dim_regiao) (k : Z) (antiga : linha_regiao),
  NoDup (p_nk_regiao <$> ps) →
  linhas d !! k = Some antiga →
  ((k ∉ (p_nk_regiao <$> ps)) ∧ linhas (foldl upsert d ps) !! k = Some antiga)
  ∨ (∃ p, p ∈ ps ∧ p_nk_regiao p = k
          ∧ linhas (foldl upsert d ps) !! k = Some (atualizar antiga p)).
Proof.
  induction ps as [|p ps IH]; intros d k antiga Hnd Hk.
  - left. split; [apply not_elem_of_nil|exact Hk].
  - rewrite fmap_cons in Hnd. apply NoDup_cons in Hnd as [Hp Hnd]. cbn [foldl].
    destruct (decide (p_nk_regiao p = k)) as [<-|Hne].
    + right. exists p. split; [apply elem_of_cons; left; reflexivity|].
      split; [reflexivity|].
      rewrite (foldl_upsert_alheias ps _ _ Hp). apply upsert_conflito. exact Hk.
    + destruct (IH (upsert d p) k antiga Hnd) as [[Hn Hl]|(q & Hq & Hqk & Hl)].
      * rewrite upsert_outra_chave by exact Hne. exact Hk.
      * left. split; [|exact Hl]. rewrite fmap_cons.
        apply not_elem_of_cons. split; [congruence|exact Hn].
      * right. exists q. split; [apply elem_of_cons; right; exact Hq|].
        split; assumption.
Qed.

Lemma elem_of_propostas (p : proposta) (stage_territorios : list territorio) :
  p ∈ propostas stage_territorios
  ↔ ∃ t, t ∈ stage_territorios ∧ selecionar t = Some p.
Proof.
  unfold propostas. rewrite elem_of_remove_dups, list_elem_of_omap. reflexivity.
Qed.

(** C9.  A region row present before the load keeps, after any load that
    completes, its surrogate key, natural key, country code, country name
    and continent; only the territory name and the regional group are
    taken from the staged row with the same natural key, and without such
    a staged row the row is untouched.  The continent is therefore not
    recomputed: the territory staged first in the group Europe and then
    in the group Pacific ends with the group Pacific and the continent of
    Europe, which is not the continent the load derives from Pacific. *)
Theorem regiao_conflito_atualiza_nome_e_grupo :
  (∀ (d d' : dim_regiao) (stage_territorios : list territorio) (k : Z)
     (antiga : linha_regiao),
     carregar_dimensao_regiao d stage_territorios = Some d' →
     linhas d !! k = Some antiga →
     ∃ nova, linhas d' !! k = Some nova
       ∧ sk_regiao nova = sk_regiao antiga
       ∧ nk_regiao nova = nk_regiao antiga
       ∧ codigo_pais nova = codigo_pais antiga
       ∧ nome_pais nova = nome_pais antiga
       ∧ continente nova = continente antiga
       ∧ ((nova = antiga
           ∧ ∀ t, t ∈ stage_territorios → TerritoryID t ≠ Some k)
          ∨ (∃ t, t ∈ stage_territorios ∧ TerritoryID t = Some k
                  ∧ nome_territorio nova = Name t
                  ∧ grupo_regional nova = Group t)))
  ∧ (∃ nova,
       linhas (apos_carga (apos_carga dim_vazia territorios_antes) territorios_depois)
         !! 7 = Some nova
       ∧ grupo_regional nova = Some "Pacific"
       ∧ continente nova = Some "Europa"
       ∧ continente nova ≠ Some (continente_de (grupo_regional nova))).
Proof.
  split.
  - intros d d' stg k antiga Hload Hk. unfold carregar_dimensao_regiao in Hload.
    destruct (bool_decide (NoDup (p_nk_regiao <$> propostas stg))) eqn:Hnd;
      [|discriminate Hload].
    apply bool_decide_eq_true_1 in Hnd. injection Hload as <-.
    destruct (foldl_upsert_existente (propostas stg) d k antiga Hnd Hk)
      as [[Hn Hl]|(p & Hp & Hpk & Hl)].
    + exists antiga. split; [exact Hl|]. repeat (split; [reflexivity|]).
      left. split; [reflexivity|]. intros t Ht Hid. apply Hn.
      apply list_elem_of_fmap. 
      exists (Proposta k (Name t) (CountryRegionCode t) (CountryRegionCode t)
                       (Some (continente_de (Group t))) (Group t)).
      split; [reflexivity|]. apply elem_of_propostas. exists t.
      split; [exact Ht|]. unfold selecionar. rewrite Hid. reflexivity.
    + exists (atualizar antiga p). split; [exact Hl|].
      repeat (split; [reflexivity|]). right.
      apply elem_of_propostas in Hp as (t & Ht & Hsel). exists t.
      unfold selecionar in Hsel.
      destruct (TerritoryID t) as [nk|] eqn:Hid; [|discriminate Hsel].
      cbn in Hsel. injection Hsel as <-. cbn in Hpk. subst nk.
      split; [exact Ht|]. split; [reflexivity|]. split; reflexivity.
  - eexists. split; [vm_compute; reflexivity|].
    split; [reflexivity|]. split; [reflexivity|].
    vm_compute. discriminate.
Qed.

Lemma regiao_conflito_atualiza_nome_e_grupo_witness :
  ∃ nova,
    linhas (apos_carga (apos_carga dim_vazia territorios_antes) territorios_depois) !! 7
    = Some nova
    ∧ sk_regiao nova = 1
    ∧ codigo_pais nova = Some "FR"
    ∧ continente nova = Some "Europa"
    ∧ nome_territorio nova = Some "Oceania"
    ∧ grupo_regional nova = Some "Pacific".
Proof.
  destruct (proj1 regiao_conflito_atualiza_nome_e_grupo
              (apos_carga dim_vazia territorios_antes)
              (apos_carga (apos_carga dim_vazia territorios_antes) territorios_depois)
              territorios_depois 7
              (LinhaRegiao 1 7 (Some "France") (Some "FR") (Some "FR")
                           (Some "Europa") (Some "Europe"))
              ltac:(vm_compute; reflexivity) ltac:(vm_compute; reflexivity))
    as (nova & Hl & _).
  exists nova. split; [exact Hl|].
  vm_compute in Hl. injection Hl as <-. repeat split; reflexivity.
Defined.

End RegiaoProps.

Module NumProps.
Import Num.

Open Scope Z_scope.

Lemma pot10_pos (n : nat) : 0 < pot10 n.
Proof. unfold pot10. apply Z.pow_pos_nonneg; lia. Qed.

Lemma pot10_add (a b : nat) : pot10 (a + b) = pot10 a * pot10 b.
Proof. unfold pot10. rewrite Nat2Z.inj_add. apply Z.pow_add_r; lia. Qed.

(** The rounded quotient is within half a unit of the quotient. *)
Lemma div_arredondada_erro (n d : Z) :
  d ≠ 0 → Z.abs (2 * (div_arredondada n d * d - n)) <= Z.abs d.
Proof.
  intros Hd. unfold div_arredondada.
  assert (Hpos : 0 < 2 * Z.abs d) by lia.
  pose proof (Z.div_mod (2 * Z.abs n + Z.abs d) (2 * Z.abs d) ltac:(lia)) as Hdm.
  pose proof (Z.mod_pos_bound (2 * Z.abs n + Z.abs d) (2 * Z.abs d) Hpos) as Hmod.
  set (q := (2 * Z.abs n + Z.abs d) / (2 * Z.abs d)) in *.
  set (r := (2 * Z.abs n + Z.abs d) mod (2 * Z.abs d)) in *.
  destruct (Z.lt_trichotomy n 0) as [Hn|[Hn|Hn]];
    destruct (Z.lt_trichotomy d 0) as [Hd'|[Hd'|Hd']]; try lia;
    rewrite ?(Z.sgn_neg n), ?(Z.sgn_pos n), ?(Z.sgn_neg d), ?(Z.sgn_pos d) by lia;
    try (subst n; cbn [Z.sgn]); 
    rewrite ?(Z.abs_neq d), ?(Z.abs_eq d), ?(Z.abs_neq n), ?(Z.abs_eq n) in * by lia;
    nia.
Qed.

Open Scope Q_scope.

Lemma Q10_pos (n : nat) : 0 < inject_Z (pot10 n).
Proof. change 0 with (inject_Z 0). rewrite <- Zlt_Qlt. apply pot10_pos. Qed.

Lemma Q10_neq0 (n : nat) : ¬ inject_Z (pot10 n) == 0.
Proof. pose proof (Q10_pos n). lra. Qed.

Lemma Q10_add (a b : nat) :
  inject_Z (pot10 (a + b)) == inject_Z (pot10 a) * inject_Z (pot10 b).
Proof. rewrite pot10_add, inject_Z_mult. reflexivity. Qed.

(** [10 ^ s = 10 ^ e * 10 ^ (s - e)] for [e <= s]. *)
Lemma Q10_split (e s : nat) :
  (e <= s)%nat →
  inject_Z (pot10 s) == inject_Z (pot10 e) * inject_Z (pot10 (s - e)).
Proof.
  intros Hle. rewrite <- Q10_add. replace (e + (s - e))%nat with s by lia. reflexivity.
Qed.


Lemma num_Q_of_int (z : Z) : num_Q (num_of_int z) == inject_Z z.
Proof.
  unfold num_Q, num_of_int. cbn [nm_val nm_escala].
  change (inject_Z (pot10 0)) with 1. field.
Qed.

Lemma num_Q_mul (a b : numeric) : num_Q (num_mul a b) == num_Q a * num_Q b.
Proof.
  unfold num_Q, num_mul. cbn [nm_val nm_escala].
  rewrite inject_Z_mult, Q10_add. field. split; apply Q10_neq0.
Qed.

Lemma num_Q_sub (a b : numeric) : num_Q (num_sub a b) == num_Q a - num_Q b.
Proof.
  unfold num_Q, num_sub. cbn [nm_val nm_escala].
  set (s := Nat.max (nm_escala a) (nm_escala b)).
  unfold Z.sub. rewrite inject_Z_plus, inject_Z_opp, !inject_Z_mult.
  rewrite (Q10_split (nm_escala a) s) at 1 by lia.
  pose proof (Q10_neq0 (nm_escala a)). pose proof (Q10_neq0 (nm_escala b)).
  pose proof (Q10_neq0 (s - nm_escala a)). pose proof (Q10_neq0 (s - nm_escala b)).
  assert (Hs : inject_Z (pot10 (nm_escala a)) * inject_Z (pot10 (s - nm_escala a))
               == inject_Z (pot10 (nm_escala b)) * inject_Z (pot10 (s - nm_escala b))).
  { rewrite <- !Q10_split by lia. reflexivity. }
  set (A := inject_Z (pot10 (nm_escala a))) in *.
  set (B := inject_Z (pot10 (nm_escala b))) in *.
  set (A' := inject_Z (pot10 (s - nm_escala a))) in *.
  set (B' := inject_Z (pot10 (s - nm_escala b))) in *.
  set (va := inject_Z (nm_val a)). set (vb := inject_Z (nm_val b)).
  assert (HA' : A' == B * B' / A) by (rewrite <- Hs; field; assumption).
  rewrite HA'. field. repeat split; assumption.
Qed.




Lemma num_round_escala (x : numeric) (s : nat) : nm_escala (num_round x s) = s.
Proof. unfold num_round. destruct (nm_escala x <=? s)%nat; reflexivity. Qed.






(** A multiple of the divisor is divided exactly. *)
Lemma div_arredondada_exata (k d : Z) :
  d ≠ 0%Z → div_arredondada (k * d) d = k.
Proof.
  intros Hd. pose proof (div_arredondada_erro (k * d) d Hd) as H. nia.
Qed.


End NumProps.

Module FatoProps.
Import Num Fato NumProps.

Open Scope Z_scope.

(** *** The rows the statement reads *)

Lemma juntar_app (hs : list pedido_header) (ds1 ds2 : list pedido_detalhe) :
  juntar (Staging hs (ds1 ++ ds2)) = juntar (Staging hs ds1) ++ juntar (Staging hs ds2).
Proof. unfold juntar. cbn. apply bind_app. Qed.

Lemma filtrados_app (hs : list pedido_header) (ds1 ds2 : list pedido_detalhe) :
  filtrados (Staging hs (ds1 ++ ds2))
  = filtrados (Staging hs ds1) ++ filtrados (Staging hs ds2).
Proof. unfold filtrados. rewrite juntar_app. apply omap_app. Qed.

(** A detail row with a null key component passes no joined row on. *)
Lemma filtrados_chave_nula (hs : list pedido_header) (sod : pedido_detalhe) :
  sod_SalesOrderID sod = None ∨ sod_SalesOrderDetailID sod = None →
  filtrados (Staging hs [sod]) = [].
Proof.
  intros Hnull. unfold filtrados, juntar. cbn. rewrite app_nil_r.
  induction hs as [|soh hs IH]; [reflexivity|].
  cbn. rewrite omap_app, IH, app_nil_r.
  destruct Hnull as [Hn|Hn].
  - unfold sql_eq. rewrite Hn. destruct (soh_SalesOrderID soh); reflexivity.
  - destruct (sql_eq _ _); [|reflexivity]. cbn. unfold filtrar. cbn.
    rewrite Hn. destruct (soh_SalesOrderID soh); reflexivity.
Qed.

Section MotorProps.

Variable escala_divisao : numeric → numeric → nat.

(** C10.  A staged order-detail row whose order id or order line id is
    null changes nothing in what the fact load does: with or without it
    the statement proposes the same rows, raises in the same cases, and
    leaves the same fact table and row count. *)
Theorem fato_exclui_chave_nula (dw : dimensoes) (hs : list pedido_header)
    (antes depois : list pedido_detalhe) (sod : pedido_detalhe)
    (fato_vendas : gmap (Z * Z) fato) :
  sod_SalesOrderID sod = None ∨ sod_SalesOrderDetailID sod = None →
  filtrados (Staging hs (antes ++ sod :: depois)) = filtrados (Staging hs (antes ++ depois))
  ∧ selecionar escala_divisao dw (Staging hs (antes ++ sod :: depois))
    = selecionar escala_divisao dw (Staging hs (antes ++ depois))
  ∧ carregar_fato_vendas escala_divisao dw (Staging hs (antes ++ sod :: depois)) fato_vendas
    = carregar_fato_vendas escala_divisao dw (Staging hs (antes ++ depois)) fato_vendas.
Proof.
  intros Hnull.
  assert (Hf : filtrados (Staging hs (antes ++ sod :: depois))
               = filtrados (Staging hs (antes ++ depois))).
  { change (sod :: depois) with ([sod] ++ depois).
    rewrite !filtrados_app, (filtrados_chave_nula hs sod Hnull). reflexivity. }
  split; [exact Hf|].
  assert (Hs : selecionar escala_divisao dw (Staging hs (antes ++ sod :: depois))
               = selecionar escala_divisao dw (Staging hs (antes ++ depois))).
  { unfold selecionar. rewrite Hf. reflexivity. }
  split; [exact Hs|]. unfold carregar_fato_vendas. rewrite Hs. reflexivity.
Qed.

(** *** Insert-if-absent *)

Lemma inserir_preserva (acc : gmap (Z * Z) fato * nat) (f g : fato) (k : Z * Z) :
  acc.1 !! k = Some g → (inserir_se_ausente acc f).1 !! k = Some g.
Proof.
  intros Hk. unfold inserir_se_ausente.
  destruct (acc.1 !! (numero_pedido f, numero_linha f)) eqn:Hf; [exact Hk|].
  cbn. rewrite lookup_insert_ne; [exact Hk|]. intros <-. congruence.
Qed.

Lemma foldl_inserir_preserva (fs : list fato) :
  ∀ (acc : gmap (Z * Z) fato * nat) (g : fato) (k : Z * Z),
  acc.1 !! k = Some g → (foldl inserir_se_ausente acc fs).1 !! k = Some g.
Proof.
  induction fs as [|f fs IH]; intros acc g k Hk; [exact Hk|].
  cbn [foldl]. apply IH, inserir_preserva, Hk.
Qed.

Lemma inserir_chave_presente (acc : gmap (Z * Z) fato * nat) (f : fato) :
  is_Some ((inserir_se_ausente acc f).1 !! (numero_pedido f, numero_linha f)).
Proof.
  unfold inserir_se_ausente.
  destruct (acc.1 !! (numero_pedido f, numero_linha f)) eqn:Hf.
  - rewrite Hf. eauto.
  - cbn. rewrite lookup_insert_eq. eauto.
Qed.

(** After the statement every proposed key is in the table. *)
Lemma foldl_inserir_chaves (fs : list fato) :
  ∀ (acc : gmap (Z * Z) fato * nat) (f : fato),
  f ∈ fs →
  is_Some ((foldl inserir_se_ausente acc fs).1 !! (numero_pedido f, numero_linha f)).
Proof.
  induction fs as [|f' fs IH]; intros acc f Hin; [inversion Hin|].
  cbn [foldl]. apply elem_of_cons in Hin as [->|Hin]; [|apply IH, Hin].
  destruct (inserir_chave_presente acc f') as [g Hg].
  rewrite (foldl_inserir_preserva fs _ g _ Hg). eauto.
Qed.

(** Proposed rows whose keys are all in the table insert nothing. *)
Lemma foldl_inserir_nada (fs : list fato) (acc : gmap (Z * Z) fato * nat) :
  Forall (λ f, is_Some (acc.1 !! (numero_pedido f, numero_linha f))) fs →
  foldl inserir_se_ausente acc fs = acc.
Proof.
  induction 1 as [|f fs [g Hg] _ IH]; [reflexivity|].
  cbn [foldl]. unfold inserir_se_ausente at 2. rewrite Hg. exact IH.
Qed.

(** The number reported is the growth of the table. *)
Lemma foldl_inserir_contagem (fs : list fato) :
  ∀ acc : gmap (Z * Z) fato * nat,
  (size (foldl inserir_se_ausente acc fs).1 + acc.2
   = size acc.1 + (foldl inserir_se_ausente acc fs).2)%nat.
Proof.
  induction fs as [|f fs IH]; intros acc; [reflexivity|].
  cbn [foldl]. specialize (IH (inserir_se_ausente acc f)).
  assert (Hx : inserir_se_ausente acc f = acc
               ∨ (size (inserir_se_ausente acc f).1 = S (size acc.1)
                  ∧ (inserir_se_ausente acc f).2 = S acc.2)).
  { unfold inserir_se_ausente.
    destruct (acc.1 !! (numero_pedido f, numero_linha f)) eqn:Hf; [left; reflexivity|].
    right. cbn. rewrite map_size_insert_None by exact Hf. split; reflexivity. }
  destruct Hx as [Hx|[Hx1 Hx2]]; [rewrite Hx in *; exact IH|lia].
Qed.

(** The keys of the proposed rows are those of the rows that passed the
    [WHERE]; the dimensions have no part in them. *)
Lemma linha_fato_chave (dw : dimensoes) (sod : pedido_detalhe) (soh : pedido_header)
    (pedido linha : Z) (f : fato) :
  linha_fato escala_divisao dw sod soh pedido linha = Some f →
  (numero_pedido f, numero_linha f) = (pedido, linha).
Proof.
  unfold linha_fato. intros H. cbv zeta in H.
  apply bind_Some in H as (preco & _ & H).
  apply bind_Some in H as (pct & _ & H).
  apply bind_Some in H as (margem & _ & H).
  injection H as <-. reflexivity.
Qed.

Lemma selecionar_chaves (dw : dimensoes) (stg : staging) (fs : list fato) :
  selecionar escala_divisao dw stg = Some fs →
  (λ f, (numero_pedido f, numero_linha f)) <$> fs
  = (λ r : pedido_detalhe * pedido_header * Z * Z, (r.1.2, r.2)) <$> filtrados stg.
Proof.
  unfold selecionar. intros H. apply mapM_Some in H.
  induction H as [|r f rs fs Hrf _ IH]; [reflexivity|].
  cbn. rewrite IH. f_equal. apply (linha_fato_chave _ _ _ _ _ _ Hrf).
Qed.

(** A load that follows a completed load of the same staged rows inserts
    nothing, whatever the dimensions hold by then. *)
Lemma segunda_carga_nada (dw dw' : dimensoes) (stg : staging)
    (t t1 : gmap (Z * Z) fato) (n : nat) (r : gmap (Z * Z) fato * nat) :
  carregar_fato_vendas escala_divisao dw stg t = Some (t1, n) →
  carregar_fato_vendas escala_divisao dw' stg t1 = Some r →
  r = (t1, 0%nat).
Proof.
  unfold carregar_fato_vendas. intros H1 H2.
  apply bind_Some in H1 as (fs & Hfs & H1). injection H1 as H1.
  apply bind_Some in H2 as (fs' & Hfs' & H2). injection H2 as <-.
  apply foldl_inserir_nada. apply Forall_forall. intros f' Hf'. cbn [fst].
  assert (Hk : (numero_pedido f', numero_linha f')
               ∈ (λ f, (numero_pedido f, numero_linha f)) <$> fs).
  { rewrite (selecionar_chaves dw stg fs Hfs), <- (selecionar_chaves dw' stg fs' Hfs').
    apply list_elem_of_fmap. exists f'. split; [reflexivity|exact Hf']. }
  apply list_elem_of_fmap in Hk as (f & Hkf & Hf). rewrite Hkf.
  pose proof (foldl_inserir_chaves fs (t, 0%nat) f Hf) as Hin.
  rewrite H1 in Hin. exact Hin.
Qed.

Lemma apos_carga_Some (dw : dimensoes) (stg : staging)
    (t t1 : gmap (Z * Z) fato) (n : nat) :
  carregar_fato_vendas escala_divisao dw stg t = Some (t1, n) →
  apos_carga escala_divisao dw stg t = t1.
Proof. unfold apos_carga. intros ->. reflexivity. Qed.

Lemma apos_carga_None (dw : dimensoes) (stg : staging) (t : gmap (Z * Z) fato) :
  carregar_fato_vendas escala_divisao dw stg t = None →
  apos_carga escala_divisao dw stg t = t.
Proof. unfold apos_carga. intros ->. reflexivity. Qed.

(** C3.  The fact load never changes a row that is already stored: a
    stored key keeps its row whatever the load proposes for it.  Run a
    second time on the same staged rows the load leaves the table, and so
    its row count, as the first run left it; after a first run that
    completed this holds even when the dimensions changed in between, and
    the second run reports no inserted row. *)
Theorem fato_escrita_unica (dw dw' : dimensoes) (stg : staging)
    (fato_vendas : gmap (Z * Z) fato) :
  (∀ k f, fato_vendas !! k = Some f →
          apos_carga escala_divisao dw stg fato_vendas !! k = Some f)
  ∧ apos_carga escala_divisao dw stg (apos_carga escala_divisao dw stg fato_vendas)
    = apos_carga escala_divisao dw stg fato_vendas
  ∧ size (apos_carga escala_divisao dw stg (apos_carga escala_divisao dw stg fato_vendas))
    = size (apos_carga escala_divisao dw stg fato_vendas)
  ∧ (is_Some (carregar_fato_vendas escala_divisao dw stg fato_vendas) →
     apos_carga escala_divisao dw' stg (apos_carga escala_divisao dw stg fato_vendas)
     = apos_carga escala_divisao dw stg fato_vendas
     ∧ ∀ r, carregar_fato_vendas escala_divisao dw' stg
              (apos_carga escala_divisao dw stg fato_vendas) = Some r →
            r = (apos_carga escala_divisao dw stg fato_vendas, 0%nat)).
Proof.
  assert (Hsegunda : ∀ dw2, is_Some (carregar_fato_vendas escala_divisao dw stg fato_vendas) →
            apos_carga escala_divisao dw2 stg (apos_carga escala_divisao dw stg fato_vendas)
            = apos_carga escala_divisao dw stg fato_vendas
            ∧ ∀ r, carregar_fato_vendas escala_divisao dw2 stg
                     (apos_carga escala_divisao dw stg fato_vendas) = Some r →
                   r = (apos_carga escala_divisao dw stg fato_vendas, 0%nat)).
  { intros dw2 [[t1 n] H1]. rewrite (apos_carga_Some dw stg fato_vendas t1 n H1).
    assert (Hr : ∀ r, carregar_fato_vendas escala_divisao dw2 stg t1 = Some r →
                      r = (t1, 0%nat))
      by (intros r; apply (segunda_carga_nada dw dw2 stg fato_vendas t1 n r H1)).
    split; [|exact Hr].
    destruct (carregar_fato_vendas escala_divisao dw2 stg t1) as [r|] eqn:H2;
      [|apply apos_carga_None; exact H2].
    rewrite (Hr r eq_refl) in H2. apply (apos_carga_Some _ _ _ _ _ H2). }
  assert (Hmesma : apos_carga escala_divisao dw stg (apos_carga escala_divisao dw stg fato_vendas)
                   = apos_carga escala_divisao dw stg fato_vendas).
  { destruct (carregar_fato_vendas escala_divisao dw stg fato_vendas) as [r|] eqn:H1.
    - apply (Hsegunda dw). eauto.
    - rewrite !(apos_carga_None dw stg fato_vendas H1). reflexivity. }
  split; [|split; [exact Hmesma|split; [rewrite Hmesma; reflexivity|apply Hsegunda]]].
  intros k f Hk.
  destruct (carregar_fato_vendas escala_divisao dw stg fato_vendas) as [[t1 n]|] eqn:H1;
    [|rewrite (apos_carga_None _ _ _ H1); exact Hk].
  rewrite (apos_carga_Some _ _ _ _ _ H1).
  unfold carregar_fato_vendas in H1. apply bind_Some in H1 as (fs & _ & H1).
  injection H1 as H1. change t1 with (t1, n).1. rewrite <- H1.
  apply foldl_inserir_preserva. exact Hk.
Qed.

(** *** Derived metrics *)

(** The columns of a proposed row, as the [SELECT] list computes them. *)
Lemma linha_fato_Some (dw : dimensoes) (sod : pedido_detalhe) (soh : pedido_header)
    (pedido linha : Z) (f : fato) :
  linha_fato escala_divisao dw sod soh pedido linha = Some f →
  cast_nulo 15 4 (sod_UnitPrice sod) = Some (valor_unitario f)
  ∧ quantidade_vendida f = sod_OrderQty sod
  ∧ valor_bruto f = nulo2 num_mul (valor_unitario f) (num_of_int <$> sod_OrderQty sod)
  ∧ valor_desconto f = nulo2 num_mul (valor_bruto f) (Some (desconto_de sod))
  ∧ valor_liquido f
    = nulo2 num_mul (valor_bruto f) (Some (num_sub (num_of_int 1) (desconto_de sod)))
  ∧ custo_total f
    = nulo2 num_mul (Some (custo_de dw sod)) (num_of_int <$> sod_OrderQty sod)
  ∧ lucro_bruto f = nulo2 num_sub (valor_liquido f) (custo_total f)
  ∧ cast_nulo 5 2 (Some (num_mul (desconto_de sod) (num_of_int 100)))
    = Some (percentual_desconto f)
  ∧ margem escala_divisao (valor_liquido f) (lucro_bruto f)
    = Some (margem_contribuicao f).
Proof.
  unfold linha_fato. intros H. cbv zeta in H.
  apply bind_Some in H as (preco & Hpreco & H).
  apply bind_Some in H as (pct & Hpct & H).
  apply bind_Some in H as (mc & Hmc & H).
  injection H as <-. cbn [valor_unitario quantidade_vendida valor_bruto valor_desconto
    valor_liquido custo_total lucro_bruto percentual_desconto margem_contribuicao].
  repeat split; assumption.
Qed.

Open Scope Q_scope.



End MotorProps.


(** The specification's worked case: unit price 100, quantity 2, discount
    fraction 0.1 give gross 200, discount value 20 and net 180. *)
Example caso_100_2_01 :
  linha_fato escala_20 dimensoes_vazias detalhe_100 header_exemplo 43659 1 = Some fato_100
  ∧ num_Q (Numeric 2000000 4) == 200
  ∧ num_Q (Numeric 2000000 5) == 20
  ∧ num_Q (Numeric 18000000 5) == 180.
Proof. repeat split. Qed.


Section MetricasNulas.

Variable escala_divisao : numeric → numeric → nat.

(** Without a unit price or a quantity the value metrics of the row are
    null and its margin is 0. *)
Lemma metricas_nulas (dw : dimensoes) (sod : pedido_detalhe) (soh : pedido_header)
    (pedido linha : Z) (f : fato) :
  linha_fato escala_divisao dw sod soh pedido linha = Some f →
  sod_UnitPrice sod = None ∨ sod_OrderQty sod = None →
  valor_bruto f = None ∧ valor_desconto f = None ∧ valor_liquido f = None
  ∧ lucro_bruto f = None ∧ margem_contribuicao f = Some (num_of_int 0).
Proof.
  intros Hf Hnull.
  destruct (linha_fato_Some escala_divisao dw sod soh pedido linha f Hf)
    as (Hp & _ & Hb & Hvd & Hl & _ & Hlb & _ & Hmc).
  assert (Hb' : valor_bruto f = None).
  { rewrite Hb. destruct Hnull as [Hn|Hn]; rewrite Hn in *.
    - cbn in Hp. injection Hp as <-. reflexivity.
    - destruct (valor_unitario f); reflexivity. }
  rewrite Hb' in Hvd, Hl. cbn in Hvd, Hl. rewrite Hl in Hlb, Hmc. cbn in Hlb, Hmc.
  injection Hmc as Hmc. auto.
Qed.

End MetricasNulas.

(** *** The loads on the sample data *)

(** The table is first loaded while the dimensions are empty; by the
    second run the product is known, and the rows the statement proposes
    differ from the stored ones; the table stays as it was. *)
Lemma fato_escrita_unica_witness :
  apos_carga escala_20 dimensoes_exemplo staging_exemplo
    (apos_carga escala_20 dimensoes_vazias staging_exemplo ∅)
  = apos_carga escala_20 dimensoes_vazias staging_exemplo ∅
  ∧ size (apos_carga escala_20 dimensoes_vazias staging_exemplo ∅) = 2%nat
  ∧ selecionar escala_20 dimensoes_exemplo staging_exemplo
    ≠ selecionar escala_20 dimensoes_vazias staging_exemplo.
Proof.
  split; [|split; [vm_compute; reflexivity|vm_compute; discriminate]].
  apply (proj2 (proj2 (proj2 (fato_escrita_unica escala_20 dimensoes_vazias
                                dimensoes_exemplo staging_exemplo ∅)))).
  eexists. vm_compute. reflexivity.
Defined.

(** The line without a line id is left out, and with it the overflow its
    margin would raise. *)
Lemma fato_exclui_chave_nula_witness :
  carregar_fato_vendas escala_20 dimensoes_exemplo
    (Staging [header_exemplo] ([detalhe_100] ++ detalhe_sem_linha :: [detalhe_3])) ∅
  = carregar_fato_vendas escala_20 dimensoes_exemplo
      (Staging [header_exemplo] ([detalhe_100] ++ [detalhe_3])) ∅
  ∧ is_Some (carregar_fato_vendas escala_20 dimensoes_exemplo
               (Staging [header_exemplo] ([detalhe_100] ++ detalhe_sem_linha :: [detalhe_3]))
               ∅).
Proof.
  split.
  - apply (fato_exclui_chave_nula escala_20 dimensoes_exemplo [header_exemplo]
             [detalhe_100] [detalhe_3] detalhe_sem_linha ∅).
    right. reflexivity.
  - eexists. vm_compute. reflexivity.
Defined.

(** The same line with a line id: 0.01 net against a cost of 1 is a
    margin of -9900, which [NUMERIC(5,2)] does not hold; the statement
    raises and loads nothing. *)
Example margem_fora_do_tipo :
  carregar_fato_vendas escala_20 dimensoes_exemplo
    (Staging [header_exemplo]
       [detalhe_100;
        PedidoDetalhe (Some 43659) (Some 3) (Some 1) (Some 707) (Some 1)
                      (Some (Numeric 1 2)) None]) ∅
  = None.
Proof. vm_compute. reflexivity. Qed.

End FatoProps.

Module DagProps.
Import Dag.

Lemma precede_posicoes (e1 e2 : evento) (l : list evento) :
  precede e1 e2 l = true ↔
  ∃ i j, posicao e1 l = Some i ∧ posicao e2 l = Some j ∧ (i < j)%nat.
Proof.
  unfold precede. split.
  - destruct (posicao e1 l) as [i|]; [|discriminate].
    destruct (posicao e2 l) as [j|]; [|discriminate].
    intros H. apply Nat.ltb_lt in H. eauto.
  - intros (i & j & -> & -> & H). apply Nat.ltb_lt, H.
Qed.

Lemma precede_trans (e1 e2 e3 : evento) (l : list evento) :
  precede e1 e2 l = true → precede e2 e3 l = true → precede e1 e3 l = true.
Proof.
  rewrite !precede_posicoes.
  intros (i & j & Hi & Hj & Hij) (j' & k & Hj' & Hk & Hjk).
  rewrite Hj in Hj'. injection Hj' as <-. exists i, k. repeat split; [assumption..|lia].
Qed.

Lemma execucao_valida_aresta (l : list evento) (a b : tarefa) :
  execucao_valida l = true → (a, b) ∈ dag →
  precede (Termina a) (Inicia b) l = true.
Proof.
  unfold execucao_valida. intros [[_ _]%andb_prop Hd]%andb_prop Hin.
  rewrite forallb_forall in Hd. apply (Hd (a, b)), list_elem_of_In, Hin.
Qed.

Lemma execucao_valida_tarefa (l : list evento) (t : tarefa) :
  execucao_valida l = true → precede (Inicia t) (Termina t) l = true.
Proof.
  unfold execucao_valida. intros [[_ Ht]%andb_prop _]%andb_prop.
  rewrite forallb_forall in Ht. apply Ht. destruct t; cbn; tauto.
Qed.

(** C4.  The graph does not order the region load before the salesperson
    load.  It orders the fact load after every dimension load, through
    the dimensions checkpoint, but has no edge from one dimension load to
    another: a run the scheduler may carry out ends the salesperson load
    before the region load starts.  On a first run the salesperson's
    region key is then looked up in an empty region dimension and is
    null, where after the region load it is resolved. *)
Theorem vendedor_sem_ordem_com_regiao :
  (∀ l d, execucao_valida l = true →
          d ∈ [ task_dim_cliente; task_dim_produto; task_dim_regiao;
                task_dim_vendedor; task_dim_oferta ] →
          precede (Termina d) (Inicia task_fato_vendas) l = true)
  ∧ ((task_dim_regiao, task_dim_vendedor) ∉ dag)
  ∧ execucao_valida execucao_vendedor_primeiro = true
  ∧ precede (Termina task_dim_vendedor) (Inicia task_dim_regiao)
            execucao_vendedor_primeiro = true
  ∧ precede (Termina task_dim_regiao) (Inicia task_dim_vendedor)
            execucao_vendedor_primeiro = false
  ∧ sk_regiao_do_vendedor Regiao.dim_vazia (Some 7%Z) = None
  ∧ sk_regiao_do_vendedor
      (Regiao.apos_carga Regiao.dim_vazia Regiao.territorios_antes) (Some 7%Z)
    = Some 1%Z.
Proof.
  split; [|split; [|repeat split; vm_compute; reflexivity]].
  - intros l d Hv Hd.
    apply (precede_trans _ (Inicia checkpoint_dimensoes)).
    + apply execucao_valida_aresta; [exact Hv|].
      repeat (apply elem_of_cons in Hd as [->|Hd]; [vm_compute; set_solver|]).
      inversion Hd.
    + apply (precede_trans _ (Termina checkpoint_dimensoes)).
      * apply execucao_valida_tarefa, Hv.
      * apply execucao_valida_aresta; [exact Hv|]. vm_compute. set_solver.
  - vm_compute. set_solver.
Qed.

End DagProps.

Module NumLimites.
Import Num NumProps.

Open Scope Z_scope.

(** The rounded quotient does not cross an integer the quotient does not
    cross. *)
Lemma div_arredondada_limites (n d k : Z) :
  0 < d →
  (n <= k * d → div_arredondada n d <= k)
  ∧ (k * d <= n → k <= div_arredondada n d).
Proof.
  intros Hd. unfold div_arredondada.
  rewrite (Z.sgn_pos d Hd), (Z.abs_eq d) by lia.
  pose proof (Z.div_mod (2 * Z.abs n + d) (2 * d) ltac:(lia)) as Hdm.
  pose proof (Z.mod_pos_bound (2 * Z.abs n + d) (2 * d) ltac:(lia)) as Hmod.
  set (q := (2 * Z.abs n + d) / (2 * d)) in *.
  set (r := (2 * Z.abs n + d) mod (2 * d)) in *.
  destruct (Z.sgn_spec n) as [[Hn ->]|[[Hn ->]|[Hn ->]]]; split; intros H; nia.
Qed.

Lemma Qdiv_nao_negativo (z D : Q) : (0 < D)%Q → (0 <= z / D)%Q ↔ (0 <= z)%Q.
Proof.
  intros HD. split; intros H.
  - assert (Heq : (z == z / D * D)%Q) by (field; lra).
    rewrite Heq. apply Qmult_le_0_compat; lra.
  - apply Qle_shift_div_l; [exact HD|]. lra.
Qed.

(** A value against an integer, on the stored digits. *)
Lemma num_Q_le_int (x : numeric) (k : Z) :
  (num_Q x <= inject_Z k)%Q ↔ nm_val x <= k * pot10 (nm_escala x).
Proof.
  pose proof (Q10_pos (nm_escala x)) as Hp.
  assert (Heq : (inject_Z k - num_Q x
                 == inject_Z (k * pot10 (nm_escala x) - nm_val x)
                    / inject_Z (pot10 (nm_escala x)))%Q).
  { unfold num_Q, Z.sub. rewrite inject_Z_plus, inject_Z_opp, inject_Z_mult.
    field. apply Q10_neq0. }
  assert (Hz : (0 <= inject_Z (k * pot10 (nm_escala x) - nm_val x))%Q
               ↔ nm_val x <= k * pot10 (nm_escala x)).
  { change 0%Q with (inject_Z 0). rewrite <- Zle_Qle. lia. }
  rewrite <- Hz, <- (Qdiv_nao_negativo _ _ Hp), <- Heq. split; intros H; lra.
Qed.

Lemma num_Q_ge_int (x : numeric) (k : Z) :
  (inject_Z k <= num_Q x)%Q ↔ k * pot10 (nm_escala x) <= nm_val x.
Proof.
  pose proof (Q10_pos (nm_escala x)) as Hp.
  assert (Heq : (num_Q x - inject_Z k
                 == inject_Z (nm_val x - k * pot10 (nm_escala x))
                    / inject_Z (pot10 (nm_escala x)))%Q).
  { unfold num_Q, Z.sub. rewrite inject_Z_plus, inject_Z_opp, inject_Z_mult.
    field. apply Q10_neq0. }
  assert (Hz : (0 <= inject_Z (nm_val x - k * pot10 (nm_escala x)))%Q
               ↔ k * pot10 (nm_escala x) <= nm_val x).
  { change 0%Q with (inject_Z 0). rewrite <- Zle_Qle. lia. }
  rewrite <- Hz, <- (Qdiv_nao_negativo _ _ Hp), <- Heq. split; intros H; lra.
Qed.

(** Rounding to any number of decimals does not cross an integer. *)
Lemma num_round_limites (x : numeric) (s : nat) (k : Z) :
  ((num_Q x <= inject_Z k)%Q → (num_Q (num_round x s) <= inject_Z k)%Q)
  ∧ ((inject_Z k <= num_Q x)%Q → (inject_Z k <= num_Q (num_round x s))%Q).
Proof.
  rewrite !num_Q_le_int, !num_Q_ge_int. unfold num_round.
  destruct (nm_escala x <=? s)%nat eqn:Hle; cbn [nm_val nm_escala].
  - apply Nat.leb_le in Hle.
    replace (pot10 s) with (pot10 (nm_escala x) * pot10 (s - nm_escala x))
      by (rewrite <- pot10_add; f_equal; lia).
    pose proof (pot10_pos (s - nm_escala x)). split; intros H1; nia.
  - apply Nat.leb_gt in Hle.
    replace (pot10 (nm_escala x)) with (pot10 s * pot10 (nm_escala x - s))
      by (rewrite <- pot10_add; f_equal; lia).
    pose proof (pot10_pos (nm_escala x - s)) as Hp.
    destruct (div_arredondada_limites (nm_val x) (pot10 (nm_escala x - s))
                (k * pot10 s) Hp) as [Hup Hlo].
    split; intros H1; [apply Hup|apply Hlo]; lia.
Qed.

(** The quotient by a positive value, rounded at any scale, does not
    cross an integer the exact quotient does not cross. *)
Lemma num_div_limites (rscale : nat) (a b : numeric) (k : Z) :
  num_pos b = true →
  ∃ q, num_div rscale a b = Some q
       ∧ nm_escala q = rscale
       ∧ ((num_Q a <= inject_Z k * num_Q b)%Q → (num_Q q <= inject_Z k)%Q)
       ∧ ((inject_Z k * num_Q b <= num_Q a)%Q → (inject_Z k <= num_Q q)%Q).
Proof.
  intros Hb. unfold num_pos in Hb. apply Z.ltb_lt in Hb.
  unfold num_div. rewrite (proj2 (Z.eqb_neq _ _)) by lia.
  eexists. split; [reflexivity|]. split; [reflexivity|].
  rewrite num_Q_le_int, num_Q_ge_int. cbn [nm_val nm_escala].
  pose proof (pot10_pos (nm_escala a)) as Hpa.
  pose proof (pot10_pos (nm_escala b)) as Hpb.
  pose proof (pot10_pos rscale) as Hpr.
  assert (Hd : 0 < nm_val b * pot10 (nm_escala a)) by nia.
  destruct (div_arredondada_limites (nm_val a * pot10 (rscale + nm_escala b))
              (nm_val b * pot10 (nm_escala a)) (k * pot10 rscale) Hd) as [Hup Hlo].
  assert (Hprod : (0 < inject_Z (pot10 (nm_escala a)) * inject_Z (pot10 (nm_escala b)))%Q)
    by (apply Qmult_lt_0_compat; apply Q10_pos).
  assert (Hcross : (inject_Z k * num_Q b - num_Q a
                    == inject_Z (k * nm_val b * pot10 (nm_escala a)
                                 - nm_val a * pot10 (nm_escala b))
                       / (inject_Z (pot10 (nm_escala a))
                          * inject_Z (pot10 (nm_escala b))))%Q).
  { unfold num_Q, Z.sub. rewrite inject_Z_plus, inject_Z_opp, !inject_Z_mult.
    field. split; apply Q10_neq0. }
  assert (Hcross' : (num_Q a - inject_Z k * num_Q b
                     == inject_Z (nm_val a * pot10 (nm_escala b)
                                  - k * nm_val b * pot10 (nm_escala a))
                        / (inject_Z (pot10 (nm_escala a))
                           * inject_Z (pot10 (nm_escala b))))%Q).
  { unfold num_Q, Z.sub. rewrite inject_Z_plus, inject_Z_opp, !inject_Z_mult.
    field. split; apply Q10_neq0. }
  split; intros H.
  - apply Hup. rewrite pot10_add.
    assert (H0 : (0 <= inject_Z k * num_Q b - num_Q a)%Q) by lra.
    rewrite Hcross in H0. apply (proj1 (Qdiv_nao_negativo _ _ Hprod)) in H0.
    change 0%Q with (inject_Z 0) in H0. rewrite <- Zle_Qle in H0. nia.
  - apply Hlo. rewrite pot10_add.
    assert (H0 : (0 <= num_Q a - inject_Z k * num_Q b)%Q) by lra.
    rewrite Hcross' in H0. apply (proj1 (Qdiv_nao_negativo _ _ Hprod)) in H0.
    change 0%Q with (inject_Z 0) in H0. rewrite <- Zle_Qle in H0. nia.
Qed.

(** Rounded at any scale, the quotient of a value by itself brought to
    more decimals is 1. *)
Lemma num_div_por_si (rscale k : nat) (l : numeric) :
  nm_val l ≠ 0 →
  num_div rscale (Numeric (nm_val l * pot10 k) (nm_escala l + k)) l
  = Some (Numeric (pot10 rscale) rscale).
Proof.
  intros Hl. unfold num_div. rewrite (proj2 (Z.eqb_neq _ _) Hl).
  cbn [nm_val nm_escala]. do 2 f_equal.
  replace (nm_val l * pot10 k * pot10 (rscale + nm_escala l))
    with (pot10 rscale * (nm_val l * pot10 (nm_escala l + k)))
    by (rewrite !pot10_add; ring).
  apply div_arredondada_exata.
  pose proof (pot10_pos (nm_escala l + k)). nia.
Qed.

(** 1 at any scale, times 100, is 100.00 as [NUMERIC(5,2)]. *)
Lemma cem_por_cento (rscale : nat) :
  num_cast 5 2 (num_mul (Numeric (pot10 rscale) rscale) (num_of_int 100))
  = Some (Numeric 10000 2).
Proof.
  assert (Hr : num_round (num_mul (Numeric (pot10 rscale) rscale) (num_of_int 100)) 2
               = Numeric 10000 2).
  { unfold num_round, num_mul, num_of_int. cbn [nm_val nm_escala].
    rewrite Nat.add_0_r. destruct (rscale <=? 2)%nat eqn:Hle.
    - apply Nat.leb_le in Hle. f_equal.
      replace (pot10 rscale * 100 * pot10 (2 - rscale))
        with (100 * (pot10 rscale * pot10 (2 - rscale))) by ring.
      rewrite <- pot10_add. replace (rscale + (2 - rscale))%nat with 2%nat by lia.
      reflexivity.
    - apply Nat.leb_gt in Hle. f_equal.
      replace (pot10 rscale * 100) with (10000 * pot10 (rscale - 2)).
      + apply div_arredondada_exata. pose proof (pot10_pos (rscale - 2)). lia.
      + replace rscale with (2 + (rscale - 2))%nat at 2 by lia.
        rewrite pot10_add. change (pot10 2) with 100. ring. }
  unfold num_cast. cbv zeta. rewrite Hr. reflexivity.
Qed.

End NumLimites.

Module TiposAmostra.
Import Tipos TiposProps.

Lemma classificacoes_app (a b : list valor) :
  classificacoes (a ++ b) = classificacoes a ∪ classificacoes b.
Proof.
  unfold classificacoes. rewrite omap_app, list_to_set_app_L. reflexivity.
Qed.

Lemma inferir_escolher (amostras : list valor) :
  inferir_tipo_coluna amostras = escolher_tipo (classificacoes amostras).
Proof.
  unfold inferir_tipo_coluna. rewrite tipos_encontrados_classificacoes. reflexivity.
Qed.

(** What a result other than text says about the observed set. *)
Lemma escolher_tipo_nao_texto (S : gset string) :
  escolher_tipo S ≠ "TEXT" →
  S = {[ escolher_tipo S ]}
  ∨ (escolher_tipo S = "NUMERIC(18,4)" ∧ S = {[ "INTEGER"; "NUMERIC(18,4)" ]}).
Proof.
  intros Hne.
  destruct (decide (S = ∅)) as [->|Hempty]; [contradiction|].
  destruct (decide (size S = 1%nat)) as [H1|H1].
  - left. apply size_1_elem_of in H1 as [t Ht]. apply leibniz_equiv in Ht. subst S.
    rewrite escolher_tipo_unitario. reflexivity.
  - right.
    assert (Hsz : (2 <= size S)%nat).
    { assert (size S ≠ 0%nat) by (intros H0; apply size_empty_inv in H0;
                                   apply leibniz_equiv in H0; contradiction).
      lia. }
    destruct (decide (S = {[ "INTEGER"; "NUMERIC(18,4)" ]})) as [->|Hpar].
    + split; reflexivity.
    + exfalso. apply Hne. apply escolher_tipo_mistura; assumption.
Qed.

(** When the inferred type is not text, every sampled value is a null or
    a value of the inferred class, or an integer under the promoted
    decimal type. *)
Theorem inferir_tipo_coluna_cobre_amostra (amostras : list valor) (v : valor) :
  inferir_tipo_coluna amostras ≠ "TEXT" →
  v ∈ amostras →
  is_None v = true
  ∨ classificar v = Some (inferir_tipo_coluna amostras)
  ∨ (inferir_tipo_coluna amostras = "NUMERIC(18,4)"
     ∧ isinstance_int v = true ∧ isinstance_bool v = false).
Proof.
  rewrite inferir_escolher. intros Hne Hv.
  destruct (classificar v) as [c|] eqn:Hc.
  - assert (Hin : c ∈ classificacoes amostras)
      by (apply elem_of_classificacoes; eauto).
    destruct (escolher_tipo_nao_texto _ Hne) as [HS|[Hr HS]].
    + rewrite HS in Hin. apply elem_of_singleton in Hin. subst c. auto.
    + rewrite HS in Hin. rewrite Hr.
      apply elem_of_union in Hin as [Hin|Hin]; apply elem_of_singleton in Hin; subst c.
      * right. right. split; [reflexivity|]. destruct v; try discriminate Hc; auto.
      * auto.
  - left. destruct v; try discriminate Hc. reflexivity.
Qed.

Lemma inferir_tipo_coluna_cobre_amostra_witness :
  is_None (VInt 7) = true
  ∨ classificar (VInt 7)
    = Some (inferir_tipo_coluna [VDecimal (Numeric 25 1); VNone; VInt 7])
  ∨ (inferir_tipo_coluna [VDecimal (Numeric 25 1); VNone; VInt 7] = "NUMERIC(18,4)"
     ∧ isinstance_int (VInt 7) = true ∧ isinstance_bool (VInt 7) = false).
Proof.
  apply (inferir_tipo_coluna_cobre_amostra [VDecimal (Numeric 25 1); VNone; VInt 7] (VInt 7)).
  - vm_compute. discriminate.
  - set_solver.
Defined.

(** Once a sample with a non-null value is inferred as text, no further
    value changes that; and nulls, order and repetitions never matter. *)
Theorem inferir_tipo_coluna_texto_absorve (amostras mais : list valor) :
  classificacoes amostras ≠ ∅ →
  inferir_tipo_coluna amostras = "TEXT" →
  inferir_tipo_coluna (amostras ++ mais) = "TEXT"
  ∧ inferir_tipo_coluna (mais ++ amostras) = "TEXT".
Proof.
  intros Hne Htext.
  assert (H : ∀ T : gset string, escolher_tipo (classificacoes amostras ∪ T) = "TEXT").
  { intros T. rewrite inferir_escolher in Htext.
    set (S := classificacoes amostras) in *.
    destruct (decide (size S = 1%nat)) as [H1|H1].
    - apply size_1_elem_of in H1 as [t Ht]. apply leibniz_equiv in Ht.
      rewrite Ht in Htext. rewrite escolher_tipo_unitario in Htext. subst t.
      rewrite Ht.
      destruct (decide (T ⊆ {[ "TEXT" ]})) as [Hsub|Hsub].
      + replace ({[ "TEXT" ]} ∪ T) with ({[ "TEXT" ]} : gset string) by set_solver.
        apply escolher_tipo_unitario.
      + apply escolher_tipo_mistura; cycle 1.
        { intros Heq.
          assert (Hin : "TEXT" ∈ ({[ "INTEGER"; "NUMERIC(18,4)" ]} : gset string))
            by (rewrite <- Heq; set_solver).
          apply elem_of_union in Hin as [Hin|Hin];
            apply elem_of_singleton in Hin; discriminate Hin. }
        assert (∃ x, x ∈ T ∧ x ≠ "TEXT") as (x & Hx & Hxn).
        { destruct (set_choose_or_empty (T ∖ {[ "TEXT" ]})) as [[x Hx]|He].
          - exists x. apply elem_of_difference in Hx as [Hx Hn].
            split; [exact Hx|]. intros ->. apply Hn, elem_of_singleton. reflexivity.
          - exfalso. apply Hsub. intros y Hy. apply elem_of_singleton.
            destruct (decide (y = "TEXT")) as [|Hn]; [assumption|exfalso].
            apply (not_elem_of_empty (C := gset string) y). rewrite <- He.
            apply elem_of_difference. split; [exact Hy|].
            intros Hs. apply elem_of_singleton in Hs. contradiction. }
        assert (Hsub2 : ({[ "TEXT" ]} ∪ {[ x ]} : gset string) ⊆ {[ "TEXT" ]} ∪ T).
        { apply union_mono_l. apply singleton_subseteq_l. exact Hx. }
        apply subseteq_size in Hsub2.
        rewrite size_union in Hsub2.
        * rewrite !size_singleton in Hsub2. exact Hsub2.
        * intros y Hy1 Hy2. apply elem_of_singleton in Hy1, Hy2. congruence.
    - assert (Hsz : (2 <= size S)%nat).
      { assert (size S ≠ 0%nat) by (intros H0; apply size_empty_inv in H0;
                                     apply leibniz_equiv in H0; contradiction).
        lia. }
      assert (Hpar : S ≠ {[ "INTEGER"; "NUMERIC(18,4)" ]}).
      { intros Heq. rewrite Heq in Htext. vm_compute in Htext. discriminate Htext. }
      apply escolher_tipo_mistura.
      + assert (Hs : S ⊆ S ∪ T) by set_solver. apply subseteq_size in Hs. lia.
      + intros Heq. apply Hpar. apply subconjunto_par; [exact Hsz|]. set_solver. }
  split; rewrite inferir_escolher, classificacoes_app; [apply H|].
  rewrite (comm_L (∪)). apply H.
Qed.

Lemma inferir_tipo_coluna_texto_absorve_witness :
  inferir_tipo_coluna ([VInt 1; VStr "x"] ++ [VInt 2; VInt 3]) = "TEXT"
  ∧ inferir_tipo_coluna ([VInt 2; VInt 3] ++ [VInt 1; VStr "x"]) = "TEXT".
Proof.
  apply (inferir_tipo_coluna_texto_absorve [VInt 1; VStr "x"] [VInt 2; VInt 3]).
  - vm_compute. discriminate.
  - vm_compute. reflexivity.
Defined.

(** The nulls of a sample, the order of its values and their repetitions
    play no part in the result: removing the nulls before the call, as the
    staging loader does, changes nothing. *)
Theorem inferir_tipo_coluna_sem_nulos (amostras outra : list valor) :
  inferir_tipo_coluna (filter (λ v, is_None v = false) amostras)
  = inferir_tipo_coluna amostras
  ∧ ((∀ v, is_None v = false → v ∈ amostras ↔ v ∈ outra) →
     inferir_tipo_coluna amostras = inferir_tipo_coluna outra).
Proof.
  assert (Hc : ∀ a b : list valor,
             (∀ v, is_None v = false → v ∈ a ↔ v ∈ b) →
             classificacoes a = classificacoes b).
  { intros a b Hab. apply set_eq. intros t. rewrite !elem_of_classificacoes.
    split; intros (v & Hv & Hcl); exists v; (split; [|exact Hcl]);
      apply Hab; try assumption; destruct v; try discriminate Hcl; reflexivity. }
  split.
  - rewrite !inferir_escolher. f_equal. apply Hc. intros v Hv.
    rewrite list_elem_of_filter. tauto.
  - intros Hab. rewrite !inferir_escolher. f_equal. apply Hc, Hab.
Qed.

End TiposAmostra.

Module StagingExecucao.
Import Tipos Staging StagingProps StagingDesfecho.

Section Execucao.

Variable aceita : string → valor → bool.

(** The log after the load of one mapping is the log before it, with
    what the load appended. *)
Lemma processar_tabela_registro (fonte : gmap string extracao)
    (tabela_origem tabela_staging : string) (e : estado) :
  registro e
  `prefix_of` registro (estado_final (processar_tabela aceita fonte tabela_origem
                                        tabela_staging e)).
Proof.
  destruct (fonte !! tabela_origem) as [ex|] eqn:Hsrc.
  - destruct (processar_tabela_forma aceita fonte tabela_origem tabela_staging ex Hsrc)
      as (t & lg & ok & H).
    destruct (H e) as (tbs & -> & _). destruct ok; cbn; apply prefix_app_r; reflexivity.
  - unfold processar_tabela. rewrite Hsrc. reflexivity.
Qed.

(** Whether it ends or raises, the run never touches a table of the
    staging schema that is not the target of one of its mappings, and it
    only appends to the log of loaded tables. *)
Theorem extrair_tabelas_alheias (fonte : gmap string extracao)
    (mapa : list (string * string)) (e : estado) :
  (∀ k, k ∉ mapa.*2 →
        tabelas (estado_final (extrair_tabelas aceita fonte mapa e)) !! k = tabelas e !! k)
  ∧ registro e `prefix_of` registro (estado_final (extrair_tabelas aceita fonte mapa e)).
Proof.
  split; [intros k; apply extrair_tabelas_preserva|].
  revert e. induction mapa as [|[o s] resto IH]; intros e; [reflexivity|].
  cbn [extrair_tabelas].
  pose proof (processar_tabela_registro fonte o s e) as Hp.
  destruct (processar_tabela aceita fonte o s e) as [e'|e']; cbn in Hp.
  - etransitivity; [exact Hp|apply IH].
  - exact Hp.
Qed.


(** A completed run sets the target tables from the source alone: run
    from any other state it completes too, with the same target tables,
    and leaves the other tables of that state alone. *)
Lemma extrair_tabelas_de_outro_estado (fonte : gmap string extracao)
    (mapa : list (string * string)) :
  ∀ e e1 e', extrair_tabelas aceita fonte mapa e = Concluido e1 →
  ∃ e1', extrair_tabelas aceita fonte mapa e' = Concluido e1'
         ∧ (∀ k, k ∈ mapa.*2 → tabelas e1' !! k = tabelas e1 !! k)
         ∧ (∀ k, k ∉ mapa.*2 → tabelas e1' !! k = tabelas e' !! k).
Proof.
  induction mapa as [|[o s] resto IH]; intros e e1 e' Hrun.
  - exists e'. split; [reflexivity|]. split; [|reflexivity].
    intros k Hk. inversion Hk.
  - cbn [extrair_tabelas] in *.
    destruct (fonte !! o) as [ex|] eqn:Hsrc;
      [|unfold processar_tabela in Hrun; rewrite Hsrc in Hrun; discriminate Hrun].
    destruct (processar_tabela_forma aceita fonte o s ex Hsrc) as (t & lg & ok & Hforma).
    destruct (Hforma e) as (tbs & Hpe & Hs & Hout).
    destruct (Hforma e') as (tbs' & Hpe' & Hs' & Hout').
    rewrite Hpe in Hrun. rewrite Hpe'.
    destruct ok; [|discriminate Hrun].
    destruct (IH _ e1 (Estado tbs' (registro e' ++ lg)) Hrun) as (e1' & Hrun' & Hin & Hnot).
    exists e1'. split; [exact Hrun'|]. cbn [tabelas] in *.
    pose proof (extrair_tabelas_preserva aceita fonte resto (Estado tbs (registro e ++ lg))) as Hfr.
    rewrite Hrun in Hfr. cbn in Hfr.
    split.
    + intros k Hk. destruct (decide (k ∈ resto.*2)) as [Hr|Hr]; [apply Hin, Hr|].
      rewrite fmap_cons in Hk. cbn [snd] in Hk.
      apply elem_of_cons in Hk as [->|Hk]; [|contradiction].
      rewrite (Hnot _ Hr), (Hfr _ Hr), Hs, Hs'. reflexivity.
    + intros k Hk. rewrite fmap_cons in Hk. cbn [snd] in Hk.
      apply not_elem_of_cons in Hk as [Hne Hk].
      rewrite (Hnot _ Hk). apply Hout'. exact Hne.
Qed.

(** Run again on the same source, a completed run completes again and
    leaves every table of the staging schema as the first run left it. *)
Theorem extrair_tabelas_idempotente (fonte : gmap string extracao)
    (mapa : list (string * string)) (e e1 : estado) :
  extrair_tabelas aceita fonte mapa e = Concluido e1 →
  ∃ e2, extrair_tabelas aceita fonte mapa e1 = Concluido e2
        ∧ tabelas e2 = tabelas e1.
Proof.
  intros Hrun.
  destruct (extrair_tabelas_de_outro_estado fonte mapa e e1 e1 Hrun)
    as (e2 & Hrun2 & Hin & Hnot).
  exists e2. split; [exact Hrun2|]. apply map_eq. intros k.
  destruct (decide (k ∈ mapa.*2)) as [Hk|Hk]; [apply Hin, Hk|apply Hnot, Hk].
Qed.

(** A batch the destination refuses, in a run that reached its mapping.
    The task raises, with nothing logged for the table.  If the
    connection's block is one transaction, the rollback at its end leaves
    every table of the staging schema as it was before the run, the
    tables the earlier mappings had rebuilt included.  If every statement
    was committed on its own, the tables are as the loop left them: the
    earlier mappings' tables rebuilt, and the table of the refused load
    with its inferred schema and only the rows of the batches before the
    refused one. *)
Theorem lote_recusado_no_bloco (bloco_transacional : bool)
    (fonte : gmap string extracao) (mapa_antes mapa_depois : list (string * string))
    (tabela_origem tabela_staging : string) (colunas : list string)
    (registros : list (list valor)) (e e1 : estado)
    (antes : list (list (list valor))) (lote : list (list valor))
    (depois : list (list (list valor))) :
  extrair_tabelas aceita fonte mapa_antes e = Concluido e1 →
  fonte !! tabela_origem = Some (Extracao colunas registros) →
  registros ≠ [] →
  NoDup colunas →
  Forall (λ r, length colunas <= length r)%nat registros →
  lotes registros = antes ++ lote :: depois →
  Forall (λ l, lote_aceito aceita (esquema_inferido colunas registros) l = true) antes →
  lote_aceito aceita (esquema_inferido colunas registros) lote = false →
  executar_mapa aceita bloco_transacional fonte
    (mapa_antes ++ (tabela_origem, tabela_staging) :: mapa_depois) e
  = Falhou (if bloco_transacional
            then Estado (tabelas e) (registro e1)
            else Estado (<[tabela_staging :=
                            Tabela (esquema_inferido colunas registros) (concat antes)]>
                           (tabelas e1))
                        (registro e1)).
Proof.
  intros Hantes Hsrc Hne Hnd Hlen Hlotes Hok Hno.
  unfold executar_mapa. rewrite (extrair_tabelas_app aceita _ _ _ _ _ Hantes).
  cbn [extrair_tabelas].
  rewrite (carga_tabela_recusada aceita fonte tabela_origem tabela_staging colunas
             registros e1 antes lote depois Hsrc Hne Hnd Hlen Hlotes Hok Hno).
  destruct bloco_transacional; reflexivity.
Qed.

End Execucao.

(** The batches of the insert loop are the rows in their order, cut
    every [tamanho_lote] rows: none is empty, every batch but the last
    is full, and their number is the row count over the batch size,
    rounded up. *)
Theorem lotes_particionam (registros : list (list valor)) :
  concat (lotes registros) = registros
  ∧ Forall (λ lote, (0 < length lote <= tamanho_lote)%nat) (lotes registros)
  ∧ (∀ k lote, lotes registros !! k = Some lote →
               (S k < length (lotes registros))%nat → length lote = tamanho_lote)
  ∧ length (lotes registros)
    = ((length registros + tamanho_lote - 1) / tamanho_lote)%nat.
Proof.
  split; [apply concat_lotes|]. split; [|split; [|apply lotes_quantidade]].
  - apply Forall_forall. intros lote Hin. apply (lotes_tamanho registros), Hin.
  - intros k lote. apply lotes_cheios.
Qed.


Lemma extrair_tabelas_idempotente_witness :
  ∃ e2,
    extrair_tabelas aceita_tudo fonte_exemplo
      [("Sales.SpecialOffer", "stage_ofertas"); ("Sales.SalesTerritory", "stage_territorios")]
      (estado_final
         (extrair_tabelas aceita_tudo fonte_exemplo
            [("Sales.SpecialOffer", "stage_ofertas");
             ("Sales.SalesTerritory", "stage_territorios")]
            estado_exemplo))
    = Concluido e2
    ∧ tabelas e2
      = tabelas (estado_final
                   (extrair_tabelas aceita_tudo fonte_exemplo
                      [("Sales.SpecialOffer", "stage_ofertas");
                       ("Sales.SalesTerritory", "stage_territorios")]
                      estado_exemplo)).
Proof.
  apply (extrair_tabelas_idempotente aceita_tudo fonte_exemplo
           [("Sales.SpecialOffer", "stage_ofertas");
            ("Sales.SalesTerritory", "stage_territorios")]
           estado_exemplo).
  vm_compute. reflexivity.
Defined.

Lemma lote_recusado_no_bloco_witness :
  executar_mapa aceita_inteiros true fonte_mista
    ([] ++ ("Sales.SpecialOffer", "stage_ofertas") :: []) estado_exemplo
  = Falhou (Estado (tabelas estado_exemplo) (registro estado_exemplo)).
Proof.
  apply (lote_recusado_no_bloco aceita_inteiros true fonte_mista [] []
           "Sales.SpecialOffer" "stage_ofertas" ["MinQty"]
           (replicate 1000 [VInt 0] ++ [[VStr "abc"]]) estado_exemplo estado_exemplo
           [replicate 500 [VInt 0]; replicate 500 [VInt 0]] [[VStr "abc"]] []).
  - reflexivity.
  - vm_compute. reflexivity.
  - intros Hnil. apply (f_equal length) in Hnil.
    rewrite length_app, length_replicate in Hnil. discriminate Hnil.
  - apply NoDup_singleton.
  - apply Forall_forall. intros r Hr. apply elem_of_app in Hr as [Hr|Hr].
    + apply elem_of_replicate in Hr as [-> _]. cbn. lia.
    + apply list_elem_of_singleton in Hr. subst r. cbn. lia.
  - vm_compute. reflexivity.
  - repeat constructor; vm_compute; reflexivity.
  - vm_compute. reflexivity.
Defined.

End StagingExecucao.

Module TempoChaves.
Import Tempo TempoProps.

Open Scope Z_scope.

Lemma calendario_nao_vazio : map linha_do_dia calendario ≠ [].
Proof.
  intros H. apply (f_equal length) in H. rewrite length_map in H.
  pose proof calendario_length as Hl. rewrite H in Hl. discriminate Hl.
Qed.

(** Seeding is idempotent on every state of the date dimension. *)
Theorem inicializar_dimensao_tempo_idempotente (dim_tempo : list linha_tempo) :
  inicializar_dimensao_tempo (inicializar_dimensao_tempo dim_tempo)
  = inicializar_dimensao_tempo dim_tempo.
Proof.
  assert (Hne : ∀ t, t ≠ [] → inicializar_dimensao_tempo t = t).
  { intros t Ht. unfold inicializar_dimensao_tempo.
    destruct t; [congruence|reflexivity]. }
  destruct dim_tempo as [|l ls].
  - rewrite inicializar_vazia. apply Hne, calendario_nao_vazio.
  - rewrite (Hne (l :: ls)) by discriminate. apply Hne. discriminate.
Qed.

Lemma dias_no_mes_max (y m : Z) : dias_no_mes y m <= 31.
Proof.
  unfold dias_no_mes.
  repeat match goal with |- context [if ?b then _ else _] => destruct b end; lia.
Qed.

(** The year, month and day of a valid date are the digits of its key. *)
Lemma yyyymmdd_partes (d : data) :
  data_valida d = true →
  Data (yyyymmdd d / 10000) (yyyymmdd d / 100 mod 100) (yyyymmdd d mod 100) = d.
Proof.
  destruct d as [y m dd]. intros Hv. unfold data_valida in Hv. cbn [year month day] in Hv.
  pose proof (dias_no_mes_max y m).
  unfold yyyymmdd. cbn [year month day].
  assert (Hy : (y * 10000 + m * 100 + dd) / 10000 = y).
  { symmetry. apply (Z.div_unique _ _ _ (m * 100 + dd)); lia. }
  assert (Hm : (y * 10000 + m * 100 + dd) / 100 = y * 100 + m).
  { symmetry. apply (Z.div_unique _ _ _ dd); lia. }
  assert (Hd : (y * 10000 + m * 100 + dd) mod 100 = dd).
  { symmetry. apply (Z.mod_unique _ _ (y * 100 + m)); lia. }
  assert (Hmm : (y * 100 + m) mod 100 = m).
  { symmetry. apply (Z.mod_unique _ _ y); lia. }
  rewrite Hy, Hm, Hd, Hmm. reflexivity.
Qed.

(** The integer key of a valid date gives the date back: its digits are
    the year, the month and the day.  Two valid dates with the same key
    are the same date. *)
Theorem yyyymmdd_decodifica (d : data) :
  data_valida d = true →
  Data (yyyymmdd d / 10000) (yyyymmdd d / 100 mod 100) (yyyymmdd d mod 100) = d
  ∧ ∀ d', data_valida d' = true → yyyymmdd d' = yyyymmdd d → d' = d.
Proof.
  intros Hv. split; [apply yyyymmdd_partes, Hv|].
  intros d' Hv' Heq.
  rewrite <- (yyyymmdd_partes d' Hv'), <- (yyyymmdd_partes d Hv), Heq. reflexivity.
Qed.

Lemma yyyymmdd_decodifica_witness :
  Data (yyyymmdd (Data 2024 2 29) / 10000) (yyyymmdd (Data 2024 2 29) / 100 mod 100)
       (yyyymmdd (Data 2024 2 29) mod 100)
  = Data 2024 2 29.
Proof.
  apply (proj1 (yyyymmdd_decodifica (Data 2024 2 29) eq_refl)).
Defined.

(** The columns of every seeded row are derived from its date and lie in
    the range of their [SMALLINT] casts: year 2008 to 2030, quarter 1 to
    4 and the one of the month, month 1 to 12, day within the month, day
    of week 0 to 6, weekend exactly on days 0 and 6; and the rows are in
    date order, each one day of the week after the row before it. *)
Theorem linhas_do_calendario (i : nat) (l : linha_tempo) :
  inicializar_dimensao_tempo [] !! i = Some l →
  (2008 <= ano l <= 2030 ∧ ano l = year (data_completa l))
  ∧ (1 <= mes l <= 12 ∧ mes l = month (data_completa l))
  ∧ (1 <= trimestre l <= 4 ∧ 3 * (trimestre l - 1) < mes l <= 3 * trimestre l)
  ∧ (1 <= dia l <= dias_no_mes (ano l) (mes l) ∧ dia l = day (data_completa l))
  ∧ dia_semana l = (2 + Z.of_nat i) mod 7
  ∧ (eh_fim_semana l = true ↔ dia_semana l = 0 ∨ dia_semana l = 6)
  ∧ sk_tempo l = yyyymmdd (data_completa l)
  ∧ date2j (data_completa l) = date2j inicio_calendario + Z.of_nat i.
Proof.
  rewrite inicializar_vazia, lookup_linhas. intros H.
  destruct (calendario !! i) as [d|] eqn:Hd; [|discriminate H].
  cbn in H. injection H as <-.
  destruct (calendario_dias i d Hd) as (Hj & Hv & Hlo & Hhi).
  destruct d as [y m dd].
  unfold data_valida, data_leb, inicio_calendario, fim_calendario in Hv, Hlo, Hhi.
  cbn [year month day] in Hv, Hlo, Hhi.
  cbn [linha_do_dia ano mes trimestre dia dia_semana eh_fim_semana sk_tempo
       data_completa year month day].
  assert (Hdow : extract_dow (Data y m dd) = (2 + Z.of_nat i) mod 7).
  { unfold extract_dow. rewrite Hj.
    change (date2j inicio_calendario) with 2454467.
    replace (2454467 + Z.of_nat i + 1) with ((2 + Z.of_nat i) + 350638 * 7) by lia.
    apply Z.mod_add. lia. }
  assert (Hq : 3 * ((m - 1) / 3) <= m - 1 < 3 * ((m - 1) / 3) + 3).
  { pose proof (Z.div_mod (m - 1) 3 ltac:(lia)).
    pose proof (Z.mod_pos_bound (m - 1) 3 ltac:(lia)). lia. }
  repeat split; try lia; try exact Hdow; exact Hj.
Qed.

Lemma linhas_do_calendario_witness :
  dia_semana (linha_do_dia inicio_calendario) = (2 + Z.of_nat 0) mod 7
  ∧ sk_tempo (linha_do_dia inicio_calendario) = 20080101.
Proof.
  destruct (linhas_do_calendario 0 (linha_do_dia inicio_calendario))
    as (_ & _ & _ & _ & Hdow & _ & Hsk & _).
  - reflexivity.
  - split; [exact Hdow|exact Hsk].
Defined.

End TempoChaves.

Module RegiaoCarga.
Import Regiao RegiaoProps.

Open Scope Z_scope.

Lemma carregar_Some (d d' : dim_regiao) (stg : list territorio) :
  carregar_dimensao_regiao d stg = Some d' →
  NoDup (p_nk_regiao <$> propostas stg) ∧ d' = foldl upsert d (propostas stg).
Proof.
  unfold carregar_dimensao_regiao.
  destruct (bool_decide (NoDup (p_nk_regiao <$> propostas stg))) eqn:Hnd; [|discriminate].
  apply bool_decide_eq_true_1 in Hnd. intros [= <-]. auto.
Qed.

(** After the statement the row of a proposed natural key carries the
    proposed territory name and regional group; a row the key did not
    have before is the proposed row, with a key read from the sequence. *)
Lemma foldl_upsert_proposta (ps : list proposta) :
  ∀ (d : dim_regiao) (p : proposta),
  NoDup (p_nk_regiao <$> ps) → p ∈ ps →
  ∃ r, linhas (foldl upsert d ps) !! p_nk_regiao p = Some r
       ∧ nome_territorio r = p_nome_territorio p
       ∧ grupo_regional r = p_grupo_regional p
       ∧ (linhas d !! p_nk_regiao p = None → ∃ sk, r = inserir sk p).
Proof.
  induction ps as [|p0 ps IH]; intros d p Hnd Hp; [inversion Hp|].
  rewrite fmap_cons in Hnd. apply NoDup_cons in Hnd as [Hp0 Hnd]. cbn [foldl].
  apply elem_of_cons in Hp as [->|Hp].
  - rewrite (foldl_upsert_alheias ps _ _ Hp0). unfold upsert.
    destruct (linhas d !! p_nk_regiao p0) as [antiga|] eqn:Hk; cbn [linhas];
      rewrite lookup_insert_eq; eexists; (split; [reflexivity|]);
      repeat split; try reflexivity.
    + intros H. discriminate H.
    + intros _. eauto.
  - destruct (IH (upsert d p0) p Hnd Hp) as (r & Hr & Hn & Hg & Hnew).
    exists r. repeat split; try assumption. intros Hnone. apply Hnew.
    rewrite upsert_outra_chave; [exact Hnone|]. intros Heq. apply Hp0.
    rewrite Heq. apply list_elem_of_fmap. eauto.
Qed.

(** Rows that already carry what is proposed for them are left as they
    are. *)
Lemma foldl_upsert_fixo (ps : list proposta) :
  ∀ d : dim_regiao,
  (∀ p, p ∈ ps → ∃ r, linhas d !! p_nk_regiao p = Some r ∧ atualizar r p = r) →
  linhas (foldl upsert d ps) = linhas d.
Proof.
  induction ps as [|p ps IH]; intros d Hfix; [reflexivity|]. cbn [foldl].
  assert (Hup : linhas (upsert d p) = linhas d).
  { destruct (Hfix p ltac:(apply elem_of_cons; left; reflexivity)) as (r & Hr & Hrp).
    unfold upsert. rewrite Hr. cbn [linhas]. rewrite Hrp. apply insert_id, Hr. }
  rewrite IH; [exact Hup|]. intros q Hq. rewrite Hup. apply Hfix.
  apply elem_of_cons. right. exact Hq.
Qed.

(** Loaded a second time from the same staged rows, the region dimension
    keeps every row as the first load left it, surrogate keys included. *)
Theorem carregar_dimensao_regiao_idempotente (d : dim_regiao)
    (stage_territorios : list territorio) :
  linhas (apos_carga (apos_carga d stage_territorios) stage_territorios)
  = linhas (apos_carga d stage_territorios).
Proof.
  unfold apos_carga at 2 3.
  destruct (carregar_dimensao_regiao d stage_territorios) as [d1|] eqn:H1; cbn [default].
  - apply carregar_Some in H1 as [Hnd ->]. unfold apos_carga, carregar_dimensao_regiao.
    rewrite (bool_decide_eq_true_2 _ Hnd). cbn [default].
    apply foldl_upsert_fixo. intros p Hp.
    destruct (foldl_upsert_proposta _ d p Hnd Hp) as (r & Hr & Hn & Hg & _).
    exists r. split; [exact Hr|]. destruct r. cbn in *. subst. reflexivity.
  - unfold apos_carga. rewrite H1. reflexivity.
Qed.

(** A staged territory without [TerritoryID] changes nothing in what the
    load does, and neither does a staged row that occurs again further
    down. *)
Theorem regiao_exclui_chave_nula (d : dim_regiao) (antes depois : list territorio)
    (t : territorio) :
  (TerritoryID t = None →
   carregar_dimensao_regiao d (antes ++ t :: depois)
   = carregar_dimensao_regiao d (antes ++ depois))
  ∧ (t ∈ depois →
     carregar_dimensao_regiao d (t :: depois) = carregar_dimensao_regiao d depois).
Proof.
  split.
  - intros Hnull.
    assert (Hp : propostas (antes ++ t :: depois) = propostas (antes ++ depois)).
    { assert (Hsel : selecionar t = None) by (unfold selecionar; rewrite Hnull; reflexivity).
      unfold propostas. rewrite !omap_app. f_equal. f_equal.
      change (omap selecionar (t :: depois))
        with (match selecionar t with
              | Some p => p :: omap selecionar depois
              | None => omap selecionar depois
              end).
      rewrite Hsel. reflexivity. }
    unfold carregar_dimensao_regiao. rewrite Hp. reflexivity.
  - intros Hin.
    assert (Hp : propostas (t :: depois) = propostas depois).
    { unfold propostas.
      change (omap selecionar (t :: depois))
        with (match selecionar t with
              | Some p => p :: omap selecionar depois
              | None => omap selecionar depois
              end).
      destruct (selecionar t) as [p|] eqn:Hsel; [|reflexivity].
      assert (Hp : p ∈ omap selecionar depois) by (apply list_elem_of_omap; eauto).
      cbn [remove_dups]. destruct (decide_rel elem_of p (omap selecionar depois)) as [_|Hn];
        [reflexivity|]. destruct (Hn Hp). }
    unfold carregar_dimensao_regiao. rewrite Hp. reflexivity.
Qed.

Lemma NoDup_fmap_igual {A B : Type} (f : A → B) (l : list A) (x y : A) :
  NoDup (f <$> l) → x ∈ l → y ∈ l → f x = f y → x = y.
Proof.
  induction l as [|a l IH]; intros Hnd Hx Hy Hf; [inversion Hx|].
  rewrite fmap_cons in Hnd. apply NoDup_cons in Hnd as [Ha Hnd].
  apply elem_of_cons in Hx as [->|Hx]; apply elem_of_cons in Hy as [->|Hy].
  - reflexivity.
  - exfalso. apply Ha. rewrite Hf. apply list_elem_of_fmap. eauto.
  - exfalso. apply Ha. rewrite <- Hf. apply list_elem_of_fmap. eauto.
  - apply IH; assumption.
Qed.

(** Two staged rows with one [TerritoryID] that differ in a selected
    column make the statement raise, and the dimension stays as it was. *)
Theorem regiao_chave_repetida (d : dim_regiao) (stage_territorios : list territorio)
    (t1 t2 : territorio) (p1 p2 : proposta) :
  t1 ∈ stage_territorios → t2 ∈ stage_territorios →
  selecionar t1 = Some p1 → selecionar t2 = Some p2 →
  p_nk_regiao p1 = p_nk_regiao p2 → p1 ≠ p2 →
  carregar_dimensao_regiao d stage_territorios = None
  ∧ apos_carga d stage_territorios = d.
Proof.
  intros Ht1 Ht2 Hs1 Hs2 Hk Hne.
  assert (Hnone : carregar_dimensao_regiao d stage_territorios = None).
  { unfold carregar_dimensao_regiao.
    destruct (bool_decide (NoDup (p_nk_regiao <$> propostas stage_territorios))) eqn:Hnd;
      [|reflexivity].
    apply bool_decide_eq_true_1 in Hnd. exfalso. apply Hne.
    apply (NoDup_fmap_igual p_nk_regiao (propostas stage_territorios)); try assumption;
      apply elem_of_propostas; eauto. }
  split; [exact Hnone|]. unfold apos_carga. rewrite Hnone. reflexivity.
Qed.

(** After the statement the natural keys present are those present before
    and the [TerritoryID]s staged. *)
Lemma foldl_upsert_dominio (ps : list proposta) :
  ∀ (d : dim_regiao) (k : Z),
  is_Some (linhas (foldl upsert d ps) !! k)
  ↔ is_Some (linhas d !! k) ∨ k ∈ p_nk_regiao <$> ps.
Proof.
  induction ps as [|p ps IH]; intros d k.
  - cbn. split; [auto|]. intros [H|H]; [exact H|inversion H].
  - cbn [foldl]. rewrite IH, fmap_cons, elem_of_cons.
    assert (Hup : is_Some (linhas (upsert d p) !! k)
                  ↔ is_Some (linhas d !! k) ∨ k = p_nk_regiao p).
    { unfold upsert. destruct (linhas d !! p_nk_regiao p) as [a|] eqn:Hk; cbn [linhas];
        rewrite lookup_insert_is_Some; split.
      - intros [<-|[_ H]]; auto.
      - intros [H| ->]; [|auto]. destruct (decide (p_nk_regiao p = k)); auto.
      - intros [<-|[_ H]]; auto.
      - intros [H| ->]; [|auto]. destruct (decide (p_nk_regiao p = k)); auto. }
    rewrite Hup. tauto.
Qed.

(** The row a completed load leaves for a staged territory. *)
Lemma carregada_linha (d d' : dim_regiao) (stage_territorios : list territorio)
    (t : territorio) (k : Z) :
  carregar_dimensao_regiao d stage_territorios = Some d' →
  t ∈ stage_territorios → TerritoryID t = Some k →
  ∃ r, linhas d' !! k = Some r
       ∧ nome_territorio r = Name t
       ∧ grupo_regional r = Group t
       ∧ (linhas d !! k = None →
          nk_regiao r = k
          ∧ codigo_pais r = CountryRegionCode t
          ∧ nome_pais r = CountryRegionCode t
          ∧ continente r = Some (continente_de (Group t))).
Proof.
  intros Hload Ht Hk. apply carregar_Some in Hload as [Hnd ->].
  set (p := Proposta k (Name t) (CountryRegionCode t) (CountryRegionCode t)
                     (Some (continente_de (Group t))) (Group t)).
  assert (Hp : p ∈ propostas stage_territorios).
  { apply elem_of_propostas. exists t. split; [exact Ht|].
    unfold selecionar. rewrite Hk. reflexivity. }
  destruct (foldl_upsert_proposta _ d p Hnd Hp) as (r & Hr & Hn & Hg & Hnew).
  exists r. cbn in Hr, Hn, Hg, Hnew.
  split; [exact Hr|split; [exact Hn|split; [exact Hg|]]].
  intros Hnone. destruct (Hnew Hnone) as [sk ->]. repeat split.
Qed.

(** The natural keys a completed load leaves. *)
Lemma carregada_dominio (d d' : dim_regiao) (stage_territorios : list territorio) (k : Z) :
  carregar_dimensao_regiao d stage_territorios = Some d' →
  is_Some (linhas d' !! k)
  ↔ is_Some (linhas d !! k) ∨ ∃ t, t ∈ stage_territorios ∧ TerritoryID t = Some k.
Proof.
  intros Hload. apply carregar_Some in Hload as [Hnd ->].
  rewrite foldl_upsert_dominio. split; (intros [H|H]; [left; exact H|right]).
  - apply list_elem_of_fmap in H as (p & -> & Hp).
    apply elem_of_propostas in Hp as (t & Ht & Hsel). exists t. split; [exact Ht|].
    unfold selecionar in Hsel. destruct (TerritoryID t); [|discriminate Hsel].
    cbn in Hsel. injection Hsel as <-. reflexivity.
  - destruct H as (t & Ht & Hk). apply list_elem_of_fmap.
    exists (Proposta k (Name t) (CountryRegionCode t) (CountryRegionCode t)
                     (Some (continente_de (Group t))) (Group t)).
    split; [reflexivity|]. apply elem_of_propostas. exists t. split; [exact Ht|].
    unfold selecionar. rewrite Hk. reflexivity.
Qed.

(** A load that completes leaves, for every staged territory with a
    [TerritoryID], a row under that key with the staged name and group;
    when the key is new the row also has the staged country code as code
    and as name, and the continent derived from the staged group.  The
    natural keys of the dimension are then those it had and those
    staged: no row is removed. *)
Theorem regiao_carregada (d d' : dim_regiao) (stage_territorios : list territorio) :
  carregar_dimensao_regiao d stage_territorios = Some d' →
  (∀ t k, t ∈ stage_territorios → TerritoryID t = Some k →
     ∃ r, linhas d' !! k = Some r
          ∧ nome_territorio r = Name t
          ∧ grupo_regional r = Group t
          ∧ (linhas d !! k = None →
             nk_regiao r = k
             ∧ codigo_pais r = CountryRegionCode t
             ∧ nome_pais r = CountryRegionCode t
             ∧ continente r = Some (continente_de (Group t))))
  ∧ (∀ k, is_Some (linhas d' !! k)
          ↔ is_Some (linhas d !! k)
            ∨ ∃ t, t ∈ stage_territorios ∧ TerritoryID t = Some k).
Proof.
  intros Hload. split.
  - intros t k. apply carregada_linha, Hload.
  - intros k. apply carregada_dominio, Hload.
Qed.

(** The salesperson load finds the region key of every territory staged
    for a region load that completed before it, and of no territory that
    the region dimension does not hold; a salesperson without territory
    has no region key. *)
Theorem vendedor_resolve_regiao (d d' : dim_regiao) (stage_territorios : list territorio) :
  carregar_dimensao_regiao d stage_territorios = Some d' →
  (∀ t k, t ∈ stage_territorios → TerritoryID t = Some k →
          is_Some (Dag.sk_regiao_do_vendedor d' (Some k)))
  ∧ (∀ k, linhas d !! k = None →
          (∀ t, t ∈ stage_territorios → TerritoryID t ≠ Some k) →
          Dag.sk_regiao_do_vendedor d' (Some k) = None)
  ∧ Dag.sk_regiao_do_vendedor d' None = None.
Proof.
  intros Hload. split; [|split; [|reflexivity]].
  - intros t k Ht Hk.
    destruct (carregada_linha d d' stage_territorios t k Hload Ht Hk) as (r & Hr & _).
    unfold Dag.sk_regiao_do_vendedor. cbn. rewrite Hr. cbn. eauto.
  - intros k Hnone Hno. unfold Dag.sk_regiao_do_vendedor. cbn.
    destruct (linhas d' !! k) as [r|] eqn:Hr; [|reflexivity]. exfalso.
    destruct (proj1 (carregada_dominio d d' stage_territorios k Hload)
                ltac:(rewrite Hr; eauto)) as [H|(t & Ht & Hk)].
    + rewrite Hnone in H. destruct H as [? H]. discriminate H.
    + apply (Hno t Ht Hk).
Qed.

Lemma regiao_chave_repetida_witness :
  carregar_dimensao_regiao dim_vazia (territorios_antes ++ territorios_depois) = None
  ∧ apos_carga dim_vazia (territorios_antes ++ territorios_depois) = dim_vazia.
Proof.
  apply (regiao_chave_repetida dim_vazia (territorios_antes ++ territorios_depois)
           (Territorio (Some 7) (Some "France") (Some "FR") (Some "Europe"))
           (Territorio (Some 7) (Some "Oceania") (Some "FR") (Some "Pacific"))
           (Proposta 7 (Some "France") (Some "FR") (Some "FR") (Some "Europa")
                     (Some "Europe"))
           (Proposta 7 (Some "Oceania") (Some "FR") (Some "FR") (Some "Ásia-Pacífico")
                     (Some "Pacific"))).
  - apply elem_of_cons. left. reflexivity.
  - apply elem_of_cons. right. apply elem_of_cons. left. reflexivity.
  - vm_compute. reflexivity.
  - vm_compute. reflexivity.
  - reflexivity.
  - discriminate.
Defined.

Lemma regiao_carregada_witness :
  ∃ r, linhas (apos_carga dim_vazia territorios_antes) !! 7 = Some r
       ∧ nome_territorio r = Some "France"
       ∧ grupo_regional r = Some "Europe".
Proof.
  assert (H : carregar_dimensao_regiao dim_vazia territorios_antes
              = Some (apos_carga dim_vazia territorios_antes))
    by (vm_compute; reflexivity).
  destruct (proj1 (regiao_carregada dim_vazia (apos_carga dim_vazia territorios_antes)
                     territorios_antes H)
              (Territorio (Some 7) (Some "France") (Some "FR") (Some "Europe")) 7)
    as (r & Hr & Hn & Hg & _).
  - apply elem_of_cons. left. reflexivity.
  - reflexivity.
  - exists r. split; [exact Hr|]. split; [exact Hn|exact Hg].
Defined.

Lemma vendedor_resolve_regiao_witness :
  is_Some (Dag.sk_regiao_do_vendedor (apos_carga dim_vazia territorios_antes) (Some 7)).
Proof.
  assert (H : carregar_dimensao_regiao dim_vazia territorios_antes
              = Some (apos_carga dim_vazia territorios_antes))
    by (vm_compute; reflexivity).
  apply (proj1 (vendedor_resolve_regiao dim_vazia (apos_carga dim_vazia territorios_antes)
                  territorios_antes H)
           (Territorio (Some 7) (Some "France") (Some "FR") (Some "Europe")) 7).
  - apply elem_of_cons. left. reflexivity.
  - reflexivity.
Defined.

End RegiaoCarga.

Module FatoCarga.
Import Num Fato NumProps NumLimites FatoProps.

Open Scope Z_scope.

Section MotorCarga.

Variable escala_divisao : numeric → numeric → nat.

(** The key columns of a proposed row: the date key computed from the
    order date, and each dimension key looked up by natural key. *)
Lemma linha_fato_chaves_dimensao (dw : dimensoes) (sod : pedido_detalhe)
    (soh : pedido_header) (pedido linha : Z) (f : fato) :
  linha_fato escala_divisao dw sod soh pedido linha = Some f →
  sk_tempo f = Tempo.yyyymmdd <$> soh_OrderDate soh
  ∧ sk_cliente f = soh_CustomerID soh ≫= (λ nk, dim_cliente dw !! nk)
  ∧ sk_produto f = dp_sk_produto <$> (sod_ProductID sod ≫= (λ nk, dim_produto dw !! nk))
  ∧ sk_regiao f = soh_TerritoryID soh ≫= (λ nk, dim_regiao dw !! nk)
  ∧ sk_vendedor f = soh_SalesPersonID soh ≫= (λ nk, dim_vendedor dw !! nk)
  ∧ sk_oferta f = sod_SpecialOfferID sod ≫= (λ nk, dim_oferta dw !! nk).
Proof.
  unfold linha_fato. intros H. cbv zeta in H.
  apply bind_Some in H as (preco & _ & H).
  apply bind_Some in H as (pct & _ & H).
  apply bind_Some in H as (mc & _ & H).
  injection H as <-. repeat split; reflexivity.
Qed.

(** A dimension key of a loaded row is null exactly when the natural key
    is null or has no row in the dimension; only the product's unit cost
    reaches the metrics: with the same cost the load proposes the same
    quantities and values, and raises in the same cases, whatever the
    dimensions hold. *)
Theorem fato_chaves_nao_resolvidas (dw dw' : dimensoes) (sod : pedido_detalhe)
    (soh : pedido_header) (pedido linha : Z) :
  (∀ f, linha_fato escala_divisao dw sod soh pedido linha = Some f →
        (sk_cliente f = None ↔
         ∀ nk, soh_CustomerID soh = Some nk → dim_cliente dw !! nk = None)
        ∧ (sk_produto f = None ↔
           ∀ nk, sod_ProductID sod = Some nk → dim_produto dw !! nk = None)
        ∧ (sk_regiao f = None ↔
           ∀ nk, soh_TerritoryID soh = Some nk → dim_regiao dw !! nk = None)
        ∧ (sk_vendedor f = None ↔
           ∀ nk, soh_SalesPersonID soh = Some nk → dim_vendedor dw !! nk = None)
        ∧ (sk_oferta f = None ↔
           ∀ nk, sod_SpecialOfferID sod = Some nk → dim_oferta dw !! nk = None))
  ∧ (custo_de dw sod = custo_de dw' sod →
     match linha_fato escala_divisao dw sod soh pedido linha,
           linha_fato escala_divisao dw' sod soh pedido linha with
     | Some f, Some f' =>
         quantidade_vendida f = quantidade_vendida f'
         ∧ valor_unitario f = valor_unitario f' ∧ valor_bruto f = valor_bruto f'
         ∧ valor_desconto f = valor_desconto f' ∧ valor_liquido f = valor_liquido f'
         ∧ custo_total f = custo_total f' ∧ lucro_bruto f = lucro_bruto f'
         ∧ percentual_desconto f = percentual_desconto f'
         ∧ margem_contribuicao f = margem_contribuicao f'
         ∧ sk_tempo f = sk_tempo f'
     | None, None => True
     | _, _ => False
     end).
Proof.
  split.
  - intros f Hf.
    destruct (linha_fato_chaves_dimensao dw sod soh pedido linha f Hf)
      as (_ & -> & -> & -> & -> & ->).
    assert (Hgen : ∀ (A : Type) (k : option Z) (m : gmap Z A),
               k ≫= (λ nk, m !! nk) = None ↔ ∀ nk, k = Some nk → m !! nk = None).
    { intros A k m. destruct k as [nk|]; cbn.
      - split; [intros H nk' [= <-]; exact H|intros H; apply H; reflexivity].
      - split; [intros _ nk H; discriminate H|reflexivity]. }
    repeat split; try apply Hgen.
    + intros H. apply fmap_None in H. apply Hgen, H.
    + intros H. apply fmap_None. apply Hgen, H.
  - intros Hcusto. unfold linha_fato. cbv zeta. rewrite <- Hcusto.
    destruct (cast_nulo 15 4 (sod_UnitPrice sod)) as [preco|]; [|exact I].
    cbn [mbind option_bind].
    destruct (cast_nulo 5 2 _) as [pct|]; [|exact I].
    cbn [mbind option_bind].
    destruct (margem escala_divisao _ _) as [mc|]; [|exact I].
    cbn. repeat split; reflexivity.
Qed.


(** A detail line that matches no staged header changes nothing in what
    the load does. *)
Theorem fato_exclui_sem_header (dw : dimensoes) (hs : list pedido_header)
    (antes depois : list pedido_detalhe) (sod : pedido_detalhe)
    (fato_vendas : gmap (Z * Z) fato) :
  Forall (λ soh, soh_SalesOrderID soh ≠ sod_SalesOrderID sod) hs →
  carregar_fato_vendas escala_divisao dw (Staging hs (antes ++ sod :: depois)) fato_vendas
  = carregar_fato_vendas escala_divisao dw (Staging hs (antes ++ depois)) fato_vendas.
Proof.
  intros Hno.
  assert (Hj : juntar (Staging hs [sod]) = []).
  { unfold juntar. cbn. rewrite app_nil_r.
    induction Hno as [|soh hs' Hne _ IH]; [reflexivity|].
    cbn. rewrite IH, app_nil_r. unfold sql_eq.
    destruct (soh_SalesOrderID soh) as [x|], (sod_SalesOrderID sod) as [y|];
      try reflexivity.
    destruct (Z.eqb_spec x y) as [->|_]; [congruence|reflexivity]. }
  assert (Hf : filtrados (Staging hs (antes ++ sod :: depois))
               = filtrados (Staging hs (antes ++ depois))).
  { change (sod :: depois) with ([sod] ++ depois).
    rewrite !filtrados_app. unfold filtrados at 2. rewrite Hj. reflexivity. }
  unfold carregar_fato_vendas, selecionar. rewrite Hf. reflexivity.
Qed.

Lemma inserir_chaves (acc : gmap (Z * Z) fato * nat) (f : fato) (k : Z * Z) :
  is_Some ((inserir_se_ausente acc f).1 !! k)
  ↔ is_Some (acc.1 !! k) ∨ k = (numero_pedido f, numero_linha f).
Proof.
  unfold inserir_se_ausente.
  destruct (acc.1 !! (numero_pedido f, numero_linha f)) as [g|] eqn:Hk.
  - split; [auto|]. intros [H| ->]; [exact H|]. rewrite Hk. eauto.
  - cbn [fst]. rewrite lookup_insert_is_Some. split.
    + intros [<-|[_ H]]; auto.
    + intros [H| ->]; [|auto].
      destruct (decide ((numero_pedido f, numero_linha f) = k)); auto.
Qed.

(** The statement leaves in the table the keys it had and the keys it
    proposed, and reports as inserted no more rows than it proposed. *)
Lemma foldl_inserir_dominio (fs : list fato) :
  ∀ (acc : gmap (Z * Z) fato * nat) (k : Z * Z),
  (is_Some ((foldl inserir_se_ausente acc fs).1 !! k)
   ↔ is_Some (acc.1 !! k) ∨ k ∈ (λ f, (numero_pedido f, numero_linha f)) <$> fs)
  ∧ ((foldl inserir_se_ausente acc fs).2 <= acc.2 + length fs)%nat.
Proof.
  induction fs as [|f fs IH]; intros acc k.
  - cbn. split; [|lia]. split; [auto|]. intros [H|H]; [exact H|inversion H].
  - cbn [foldl]. destruct (IH (inserir_se_ausente acc f) k) as [Hd Hn]. split.
    + rewrite Hd, inserir_chaves, fmap_cons, elem_of_cons. tauto.
    + etransitivity; [exact Hn|]. cbn [length]. unfold inserir_se_ausente.
      destruct (acc.1 !! _); cbn; lia.
Qed.

(** The count the statement reports is the growth of the fact table, and
    at most the number of rows that passed the join and the filter; the
    table then holds the keys it held and the keys of those rows, and no
    other. *)
Theorem fato_contagem_e_chaves (dw : dimensoes) (stg : staging)
    (fato_vendas t : gmap (Z * Z) fato) (total_inserido : nat) :
  carregar_fato_vendas escala_divisao dw stg fato_vendas = Some (t, total_inserido) →
  size t = (size fato_vendas + total_inserido)%nat
  ∧ (total_inserido <= length (filtrados stg))%nat
  ∧ ∀ k, is_Some (t !! k)
         ↔ is_Some (fato_vendas !! k)
           ∨ k ∈ (λ r : pedido_detalhe * pedido_header * Z * Z, (r.1.2, r.2))
                 <$> filtrados stg.
Proof.
  unfold carregar_fato_vendas. intros H.
  apply bind_Some in H as (fs & Hfs & H). injection H as H.
  pose proof (foldl_inserir_contagem fs (fato_vendas, 0%nat)) as Hc.
  rewrite H in Hc. cbn [fst snd] in Hc.
  assert (Hlen : length fs = length (filtrados stg)).
  { unfold selecionar in Hfs. apply mapM_Some in Hfs.
    symmetry. apply (Forall2_length _ _ _ Hfs). }
  split; [lia|]. split.
  - pose proof (proj2 (foldl_inserir_dominio fs (fato_vendas, 0%nat) (0, 0))) as Hn.
    rewrite H in Hn. cbn [fst snd] in Hn. lia.
  - intros k.
    pose proof (proj1 (foldl_inserir_dominio fs (fato_vendas, 0%nat) k)) as Hd.
    rewrite H in Hd. cbn [fst snd] in Hd.
    rewrite <- (selecionar_chaves escala_divisao dw stg fs Hfs). exact Hd.
Qed.

(** The statement raises exactly when the cast of one row that passed
    the join and the filter raises; no row is then loaded, not even those
    whose casts succeed. *)
Theorem fato_uma_linha_aborta (dw : dimensoes) (stg : staging)
    (fato_vendas : gmap (Z * Z) fato) :
  (carregar_fato_vendas escala_divisao dw stg fato_vendas = None
   ↔ ∃ r, r ∈ filtrados stg
          ∧ linha_fato escala_divisao dw r.1.1.1 r.1.1.2 r.1.2 r.2 = None)
  ∧ (carregar_fato_vendas escala_divisao dw stg fato_vendas = None →
     apos_carga escala_divisao dw stg fato_vendas = fato_vendas).
Proof.
  split; [|apply apos_carga_None].
  unfold carregar_fato_vendas. rewrite bind_None.
  assert (Hm : selecionar escala_divisao dw stg = None
               ↔ ∃ r, r ∈ filtrados stg
                      ∧ linha_fato escala_divisao dw r.1.1.1 r.1.1.2 r.1.2 r.2 = None).
  { unfold selecionar. generalize (filtrados stg). intros rs.
    induction rs as [|r rs IH].
    - split; [discriminate|]. intros (r & Hr & _). inversion Hr.
    - cbn [mapM]. rewrite bind_None. split.
      + intros [Hn|(f & Hf & Hrest)].
        * exists r. split; [apply elem_of_cons; left; reflexivity|exact Hn].
        * apply bind_None in Hrest as [Hrest|(fs & _ & Hrest)]; [|discriminate Hrest].
          apply IH in Hrest as (r' & Hr' & Hn). exists r'.
          split; [apply elem_of_cons; right; exact Hr'|exact Hn].
      + intros (r' & Hr' & Hn). apply elem_of_cons in Hr' as [->|Hr']; [left; exact Hn|].
        destruct (linha_fato escala_divisao dw r.1.1.1 r.1.1.2 r.1.2 r.2) as [f|];
          [|left; reflexivity].
        right. exists f. split; [reflexivity|]. apply bind_None. left.
        apply IH. eauto. }
  rewrite Hm. split; [|auto]. intros [H|(fs & _ & H)]; [exact H|discriminate H].
Qed.

(** A line of positive net value whose product has no cost in the
    dimension (product unresolved, cost null or zero) is loaded with a
    contribution margin of exactly 100.00, at whatever scale the engine
    rounds the quotient. *)
Theorem margem_sem_custo (dw : dimensoes) (sod : pedido_detalhe) (soh : pedido_header)
    (pedido linha : Z) (f : fato) (l : numeric) :
  linha_fato escala_divisao dw sod soh pedido linha = Some f →
  valor_liquido f = Some l →
  num_pos l = true →
  nm_val (custo_de dw sod) = 0 →
  margem_contribuicao f = Some (Numeric 10000 2)
  ∧ num_Q (Numeric 10000 2) == 100%Q.
Proof.
  intros Hf Hl Hpos Hcusto. split; [|reflexivity].
  destruct (linha_fato_Some escala_divisao dw sod soh pedido linha f Hf)
    as (_ & _ & Hb & _ & Hl' & Hct & Hlb & _ & Hmc).
  rewrite Hl in Hl'.
  destruct (sod_OrderQty sod) as [q|] eqn:Hq; cycle 1.
  { rewrite Hb in Hl'. destruct (valor_unitario f); discriminate Hl'. }
  cbn [fmap option_fmap option_map nulo2] in Hct.
  rewrite Hl, Hct in Hlb. cbn [nulo2] in Hlb.
  rewrite Hl, Hlb in Hmc. unfold margem in Hmc. cbn [positivo] in Hmc.
  rewrite Hpos in Hmc. unfold dividir in Hmc.
  assert (Hsub : num_sub l (num_mul (custo_de dw sod) (num_of_int q))
                 = Numeric (nm_val l * pot10 (Nat.max (nm_escala l)
                                                (nm_escala (custo_de dw sod) + 0)
                                              - nm_escala l))
                           (nm_escala l + (Nat.max (nm_escala l)
                                             (nm_escala (custo_de dw sod) + 0)
                                           - nm_escala l))).
  { unfold num_sub, num_mul, num_of_int. cbn [nm_val nm_escala]. rewrite Hcusto.
    f_equal; [ring|lia]. }
  rewrite Hsub in Hmc.
  assert (Hnz : nm_val l ≠ 0) by (unfold num_pos in Hpos; apply Z.ltb_lt in Hpos; lia).
  rewrite num_div_por_si in Hmc by exact Hnz.
  cbn [fmap option_fmap option_map mbind option_bind nulo2 cast_nulo] in Hmc.
  rewrite cem_por_cento in Hmc. cbn in Hmc. injection Hmc as <-. reflexivity.
Qed.

End MotorCarga.


Lemma fato_exclui_sem_header_witness :
  carregar_fato_vendas escala_20 dimensoes_vazias
    (Staging [header_exemplo]
       ([detalhe_100]
        ++ PedidoDetalhe (Some 50000) (Some 9) (Some 1) (Some 776) (Some 1)
                         (Some (Numeric 100 0)) None
           :: [detalhe_3]))
    ∅
  = carregar_fato_vendas escala_20 dimensoes_vazias
      (Staging [header_exemplo] ([detalhe_100] ++ [detalhe_3])) ∅.
Proof.
  apply (fato_exclui_sem_header escala_20 dimensoes_vazias [header_exemplo]
           [detalhe_100] [detalhe_3]).
  repeat constructor. cbn. discriminate.
Defined.

Lemma fato_contagem_e_chaves_witness :
  size (apos_carga escala_20 dimensoes_vazias staging_exemplo ∅)
  = (size (∅ : gmap (Z * Z) fato) + 2)%nat.
Proof.
  assert (H : carregar_fato_vendas escala_20 dimensoes_vazias staging_exemplo ∅
              = Some (apos_carga escala_20 dimensoes_vazias staging_exemplo ∅, 2%nat))
    by (vm_compute; reflexivity).
  apply (proj1 (fato_contagem_e_chaves escala_20 dimensoes_vazias staging_exemplo ∅
                  (apos_carga escala_20 dimensoes_vazias staging_exemplo ∅) 2 H)).
Defined.

Lemma margem_sem_custo_witness :
  margem_contribuicao fato_100 = Some (Numeric 10000 2).
Proof.
  apply (proj1 (margem_sem_custo escala_20 dimensoes_vazias detalhe_100 header_exemplo
                  43659 1 fato_100 (Numeric 18000000 5)
                  ltac:(vm_compute; reflexivity) eq_refl eq_refl eq_refl)).
Defined.

End FatoCarga.

Module EstatisticasProps.
Import Num Fato FatoProps Estatisticas.

Open Scope Z_scope.

Lemma soma_Some (coluna : list (option numeric)) :
  is_Some (soma coluna) ↔ ∃ x, Some x ∈ coluna.
Proof.
  unfold soma. destruct (omap id coluna) as [|x xs] eqn:Ho.
  - split; [intros [? H]; discriminate H|]. intros [x Hx].
    assert (Hin : x ∈ omap id coluna) by (apply list_elem_of_omap; eauto).
    rewrite Ho in Hin. inversion Hin.
  - split; [|eauto]. intros _. exists x.
    assert (Hin : x ∈ omap id coluna) by (rewrite Ho; apply elem_of_cons; left; reflexivity).
    apply list_elem_of_omap in Hin as (o & Ho' & Hid). cbn in Hid. subst o. exact Ho'.
Qed.

Lemma coluna_Some (t : gmap (Z * Z) fato) (col : fato → option numeric) :
  (∃ x, Some x ∈ col <$> (map_to_list t).*2)
  ↔ ∃ k f, t !! k = Some f ∧ is_Some (col f).
Proof.
  split.
  - intros [x Hx]. apply list_elem_of_fmap in Hx as (f & Hf & Hin).
    apply list_elem_of_fmap in Hin as ([k f'] & -> & Hin).
    apply elem_of_map_to_list in Hin. exists k, f'. split; [exact Hin|].
    cbn in Hf. rewrite <- Hf. eauto.
  - intros (k & f & Hk & [x Hx]). exists x. apply list_elem_of_fmap.
    exists f. split; [symmetry; exact Hx|]. apply list_elem_of_fmap.
    exists (k, f). split; [reflexivity|]. apply elem_of_map_to_list. exact Hk.
Qed.

Section MotorEstatisticas.

Variable escala_divisao : numeric → numeric → nat.

(** The task commits what the statement wrote and then ends without
    raising exactly when the fact table holds a row with a net value
    and a row with a gross profit.  With no staged order line and an
    empty fact table the statement completes, inserting nothing, and the
    task raises at its last log line. *)
Theorem fato_vendas_estatisticas (dw : dimensoes) (stg : staging)
    (fato_vendas : gmap (Z * Z) fato) :
  (tarefa_fato_vendas escala_divisao dw stg fato_vendas).1
  = apos_carga escala_divisao dw stg fato_vendas
  ∧ ((tarefa_fato_vendas escala_divisao dw stg fato_vendas).2 = true
     ↔ is_Some (carregar_fato_vendas escala_divisao dw stg fato_vendas)
       ∧ (∃ k f, apos_carga escala_divisao dw stg fato_vendas !! k = Some f
                 ∧ is_Some (valor_liquido f))
       ∧ (∃ k f, apos_carga escala_divisao dw stg fato_vendas !! k = Some f
                 ∧ is_Some (lucro_bruto f)))
  ∧ (stage_pedidos_detalhe stg = [] → fato_vendas = ∅ →
     carregar_fato_vendas escala_divisao dw stg fato_vendas = Some (∅, 0%nat)
     ∧ tarefa_fato_vendas escala_divisao dw stg fato_vendas = (∅, false)).
Proof.
  assert (Hlog : ∀ t : gmap (Z * Z) fato,
            is_Some (linha_de_log (estatisticas t))
            ↔ (∃ k f, t !! k = Some f ∧ is_Some (valor_liquido f))
              ∧ (∃ k f, t !! k = Some f ∧ is_Some (lucro_bruto f))).
  { intros t. rewrite <- !coluna_Some, <- !soma_Some. unfold estatisticas. cbv zeta.
    destruct (soma (valor_liquido <$> (map_to_list t).*2)) as [r|],
             (soma (lucro_bruto <$> (map_to_list t).*2)) as [l|]; cbn;
      split; try (intros [[? H] [? H']]; try discriminate H; discriminate H');
      try (intros [? H]; discriminate H); eauto. }
  unfold tarefa_fato_vendas, apos_carga. split; [|split].
  - destruct (carregar_fato_vendas escala_divisao dw stg fato_vendas) as [[t n]|];
      reflexivity.
  - destruct (carregar_fato_vendas escala_divisao dw stg fato_vendas) as [[t n]|];
      cbn [snd].
    + rewrite bool_decide_eq_true, Hlog. split; [intros [H1 H2]; eauto|].
      intros (_ & H1 & H2). auto.
    + split; [discriminate|]. intros ([? H] & _). discriminate H.
  - intros Hsod ->.
    assert (Hc : carregar_fato_vendas escala_divisao dw stg ∅ = Some (∅, 0%nat)).
    { unfold carregar_fato_vendas, selecionar, filtrados, juntar. rewrite Hsod. reflexivity. }
    split; [exact Hc|]. rewrite Hc. reflexivity.
Qed.

End MotorEstatisticas.
End EstatisticasProps.

Module ProdutoProps.
Import Num NumProps NumLimites Produto.

Open Scope Z_scope.

Section MotorProduto.

Variable escala_divisao : numeric → numeric → nat.

(** The margin of a product with a positive list price.  With a cost
    from zero to ten times the price the margin is stored, at two
    decimals, between -900 and 100; with a cost of eleven times the
    price or more the cast raises, and with it the statement; without a
    cost the margin is 100.00. *)
Theorem margem_percentual_limites (ListPrice StandardCost : numeric) :
  num_pos ListPrice = true →
  ((0 <= num_Q StandardCost <= 10 * num_Q ListPrice)%Q →
   ∃ m, margem_percentual escala_divisao (Some ListPrice) (Some StandardCost) = Some m
        ∧ nm_escala m = 2%nat ∧ (-900 <= num_Q m <= 100)%Q)
  ∧ ((11 * num_Q ListPrice <= num_Q StandardCost)%Q →
     margem_percentual escala_divisao (Some ListPrice) (Some StandardCost) = None)
  ∧ margem_percentual escala_divisao (Some ListPrice) None = Some (Numeric 10000 2).
Proof.
  intros Hpos. unfold margem_percentual, coalesce. cbn [from_option id]. rewrite Hpos. cbv zeta.
  set (a := num_sub ListPrice StandardCost).
  pose proof (num_Q_sub ListPrice StandardCost) as Ha. fold a in Ha.
  assert (Hcem : ∀ q, (num_Q (num_mul q (num_of_int 100)) == num_Q q * 100)%Q).
  { intros q. rewrite num_Q_mul, num_Q_of_int. reflexivity. }
  split; [|split].
  - intros [Hc0 Hc10].
    destruct (num_div_limites (escala_divisao a ListPrice) a ListPrice 1 Hpos)
      as (q & Hq & _ & Hup & _).
    destruct (num_div_limites (escala_divisao a ListPrice) a ListPrice (-9) Hpos)
      as (q' & Hq' & _ & _ & Hlo).
    rewrite Hq in Hq'. injection Hq' as <-. rewrite Hq. cbn [mbind option_bind].
    change (inject_Z 1) with 1%Q in Hup. change (inject_Z (-9)) with (-9)%Q in Hlo.
    specialize (Hup ltac:(lra)). specialize (Hlo ltac:(lra)).
    set (x := num_mul q (num_of_int 100)).
    destruct (num_round_limites x 2 100) as [Hr100 _].
    destruct (num_round_limites x 2 (-900)) as [_ Hr900].
    change (inject_Z 100) with 100%Q in Hr100.
    change (inject_Z (-900)) with (-900)%Q in Hr900.
    specialize (Hr100 ltac:(unfold x; rewrite Hcem; lra)).
    specialize (Hr900 ltac:(unfold x; rewrite Hcem; lra)).
    exists (num_round x 2). split; [|split; [apply num_round_escala|split; assumption]].
    unfold num_cast. cbv zeta.
    change 100%Q with (inject_Z 100) in Hr100.
    change (-900)%Q with (inject_Z (-900)) in Hr900.
    apply num_Q_le_int in Hr100. apply num_Q_ge_int in Hr900.
    rewrite num_round_escala in Hr100, Hr900. change (pot10 2) with 100 in Hr100, Hr900.
    change (pot10 5) with 100000.
    rewrite (proj2 (Z.ltb_lt _ _)) by lia. reflexivity.
  - intros Hc.
    destruct (num_div_limites (escala_divisao a ListPrice) a ListPrice (-10) Hpos)
      as (q & Hq & _ & Hup & _).
    rewrite Hq. cbn [mbind option_bind].
    change (inject_Z (-10)) with (-10)%Q in Hup. specialize (Hup ltac:(lra)).
    set (x := num_mul q (num_of_int 100)).
    destruct (num_round_limites x 2 (-1000)) as [Hr _].
    change (inject_Z (-1000)) with (-1000)%Q in Hr.
    specialize (Hr ltac:(unfold x; rewrite Hcem; lra)).
    change (-1000)%Q with (inject_Z (-1000)) in Hr.
    apply num_Q_le_int in Hr. rewrite num_round_escala in Hr.
    change (pot10 2) with 100 in Hr.
    unfold num_cast. cbv zeta. change (pot10 5) with 100000.
    rewrite (proj2 (Z.ltb_ge _ _)) by lia. reflexivity.
  - assert (Hsub : num_sub ListPrice (num_of_int 0)
                   = Numeric (nm_val ListPrice
                              * pot10 (Nat.max (nm_escala ListPrice) 0
                                       - nm_escala ListPrice))
                             (nm_escala ListPrice
                              + (Nat.max (nm_escala ListPrice) 0 - nm_escala ListPrice))).
    { unfold num_sub, num_of_int. cbn [nm_val nm_escala]. f_equal; [ring|lia]. }
    rewrite Hsub.
    assert (Hnz : nm_val ListPrice ≠ 0)
      by (unfold num_pos in Hpos; apply Z.ltb_lt in Hpos; lia).
    rewrite num_div_por_si by exact Hnz. cbn [mbind option_bind].
    apply cem_por_cento.
Qed.

End MotorProduto.

Lemma margem_percentual_limites_witness :
  ∃ m, margem_percentual Fato.escala_20 (Some (Numeric 34999 2)) (Some (Numeric 1000000 4))
       = Some m
       ∧ nm_escala m = 2%nat ∧ (-900 <= num_Q m <= 100)%Q.
Proof.
  apply (proj1 (margem_percentual_limites Fato.escala_20 (Numeric 34999 2)
                  (Numeric 1000000 4) eq_refl)).
  split; vm_compute; discriminate.
Defined.

End ProdutoProps.

Module VendedorProps.
Import Num NumProps Vendedor.

Open Scope Z_scope.

Lemma append_vazio (s : string) : "" +:+ s = s.
Proof. reflexivity. Qed.

Lemma append_cons (c : Ascii.ascii) (a b : string) :
  String c a +:+ b = String c (a +:+ b).
Proof. reflexivity. Qed.

Lemma length_append (a b : string) :
  String.length (a +:+ b) = (String.length a + String.length b)%nat.
Proof. induction a as [|c a IH]; simpl; [reflexivity|]. rewrite IH. reflexivity. Qed.

Lemma substring_0_append (n : nat) :
  ∀ a b : string, (n <= String.length a)%nat → substring 0 n (a +:+ b) = substring 0 n a.
Proof.
  induction n as [|n IH]; intros a b Hn.
  - destruct a; destruct b; reflexivity.
  - destruct a as [|c a]; simpl in Hn; [lia|]. simpl. rewrite IH by lia. reflexivity.
Qed.

Lemma length_substring_0 (n : nat) :
  ∀ s : string, (n <= String.length s)%nat → String.length (substring 0 n s) = n.
Proof.
  induction n as [|n IH]; intros s Hn.
  - destruct s; reflexivity.
  - destruct s as [|c s]; simpl in Hn; [lia|]. simpl. rewrite IH by lia. reflexivity.
Qed.

Lemma valor_decimal_append (a b : string) :
  ∀ acc, valor_decimal acc (a +:+ b) = valor_decimal (valor_decimal acc a) b.
Proof. induction a as [|c a IH]; intros acc; simpl; [reflexivity|]. apply IH. Qed.

Lemma valor_digito (d acc : Z) :
  0 <= d < 10 → valor_decimal acc (String (digito d) "") = acc * 10 + d.
Proof.
  intros Hd. cbn. unfold digito. rewrite Ascii.nat_ascii_embedding by lia. lia.
Qed.

(** Enough steps give the same digits. *)
Lemma digitos_estavel (p : nat) :
  ∀ (q : nat) (n : Z),
  0 <= n < pot10 (S p) → n < pot10 (S q) → digitos (S p) n = digitos (S q) n.
Proof.
  induction p as [|p IH]; intros q n Hp Hq.
  - change (pot10 1) with 10 in Hp. cbn [digitos].
    rewrite (proj2 (Z.ltb_lt n 10)) by lia. reflexivity.
  - cbn [digitos]. destruct (n <? 10) eqn:Hn; [reflexivity|]. apply Z.ltb_ge in Hn.
    f_equal.
    change (S (S p)) with (1 + S p)%nat in Hp. rewrite pot10_add in Hp.
    change (pot10 1) with 10 in Hp.
    destruct q as [|q]; [change (pot10 1) with 10 in Hq; lia|].
    change (S (S q)) with (1 + S q)%nat in Hq. rewrite pot10_add in Hq.
    change (pot10 1) with 10 in Hq.
    apply IH.
    + split; [apply Z.div_pos; lia|]. apply Z.div_lt_upper_bound; lia.
    + apply Z.div_lt_upper_bound; lia.
Qed.

Lemma passos_bastam (n : Z) : 0 <= n → n < pot10 (S (Z.to_nat (Z.log2 n))).
Proof.
  intros Hn. destruct (Z.eq_dec n 0) as [->|Hnz]; [reflexivity|].
  pose proof (Z.log2_spec n ltac:(lia)) as [_ Hlt].
  pose proof (Z.log2_nonneg n) as Hl.
  unfold pot10. rewrite Nat2Z.inj_succ, Z2Nat.id by exact Hl.
  eapply Z.lt_le_trans; [exact Hlt|].
  apply Z.pow_le_mono_l. lia.
Qed.

(** The digits of a natural number are those of its tenth followed by
    its last digit. *)
Lemma texto_de_int_passo (n : Z) :
  0 <= n →
  texto_de_int n
  = (if n <? 10 then "" else texto_de_int (n / 10)) +:+ String (digito (n mod 10)) "".
Proof.
  intros Hn. unfold texto_de_int at 1. rewrite (proj2 (Z.ltb_ge n 0)) by lia.
  cbn [digitos]. destruct (n <? 10) eqn:H10; [reflexivity|]. apply Z.ltb_ge in H10.
  f_equal. unfold texto_de_int.
  assert (Hq : 0 <= n / 10) by (apply Z.div_pos; lia).
  rewrite (proj2 (Z.ltb_ge (n / 10) 0)) by lia.
  pose proof (passos_bastam n Hn) as Hb.
  destruct (Z.to_nat (Z.log2 n)) as [|k] eqn:Hk.
  - change (pot10 1) with 10 in Hb. lia.
  - change (S (S k)) with (1 + S k)%nat in Hb. rewrite pot10_add in Hb.
    change (pot10 1) with 10 in Hb.
    apply digitos_estavel.
    + split; [exact Hq|]. apply Z.div_lt_upper_bound; lia.
    + apply passos_bastam, Hq.
Qed.

(** Induction on a natural number along its digits. *)
Lemma digitos_ind (P : Z → Prop) :
  (∀ n, 0 <= n < 10 → P n) →
  (∀ n, 10 <= n → P (n / 10) → P n) →
  ∀ n, 0 <= n → P n.
Proof.
  intros Hbase Hstep n Hn. revert n Hn.
  apply (Zlt_0_ind P). intros n IH Hn.
  destruct (Z_lt_le_dec n 10) as [Hlt|Hge]; [apply Hbase; lia|].
  apply Hstep; [exact Hge|]. apply IH.
  split; [apply Z.div_pos; lia|]. apply Z.div_lt; lia.
Qed.

(** The text of a natural number denotes it. *)
Lemma valor_texto (n : Z) : 0 <= n → valor_decimal 0 (texto_de_int n) = n.
Proof.
  intros Hn. pattern n. apply digitos_ind; [| |exact Hn]; clear n Hn; intros n Hn.
  - rewrite texto_de_int_passo by lia. rewrite (proj2 (Z.ltb_lt n 10)) by lia.
    rewrite append_vazio, valor_digito by (rewrite Z.mod_small; lia).
    rewrite Z.mod_small; lia.
  - intros IH. rewrite texto_de_int_passo by lia. rewrite (proj2 (Z.ltb_ge n 10)) by lia.
    rewrite valor_decimal_append, IH.
    rewrite valor_digito by (apply Z.mod_pos_bound; lia).
    pose proof (Z.div_mod n 10 ltac:(lia)). lia.
Qed.

(** A natural number has [k] digits or fewer when it is below [10 ^ k],
    and more when it is not. *)
Lemma texto_comprimento (n : Z) :
  0 <= n →
  ∀ k : nat,
  (n < pot10 (S k) → (String.length (texto_de_int n) <= S k)%nat)
  ∧ (pot10 k <= n → (k < String.length (texto_de_int n))%nat).
Proof.
  intros Hn. pattern n. apply digitos_ind; [| |exact Hn]; clear n Hn; intros n Hn.
  - intros k. rewrite texto_de_int_passo by lia. rewrite (proj2 (Z.ltb_lt n 10)) by lia.
    rewrite append_vazio. cbn [String.length]. split; [lia|]. intros Hk.
    destruct k as [|k]; [lia|].
    change (S k) with (1 + k)%nat in Hk. rewrite pot10_add in Hk.
    change (pot10 1) with 10 in Hk. pose proof (pot10_pos k). lia.
  - intros IH k. rewrite texto_de_int_passo by lia. rewrite (proj2 (Z.ltb_ge n 10)) by lia.
    rewrite length_append. cbn [String.length]. split.
    + intros Hk. destruct k as [|k]; [change (pot10 1) with 10 in Hk; lia|].
      change (S (S k)) with (1 + S k)%nat in Hk. rewrite pot10_add in Hk.
      change (pot10 1) with 10 in Hk.
      pose proof (proj1 (IH k) ltac:(apply Z.div_lt_upper_bound; lia)). lia.
    + intros Hk. destruct k as [|k]; [lia|].
      change (S k) with (1 + k)%nat in Hk. rewrite pot10_add in Hk.
      change (pot10 1) with 10 in Hk.
      pose proof (proj2 (IH k) ltac:(apply Z.div_le_lower_bound; lia)). lia.
Qed.

Lemma repetir_zero (k : nat) :
  String.length (repetir "0" k) = k ∧ ∀ acc s, valor_decimal acc (repetir "0" k +:+ s)
                                             = valor_decimal (acc * pot10 k) s.
Proof.
  induction k as [|k [IHl IHv]].
  - split; [reflexivity|]. intros acc s. cbn. f_equal. change (pot10 0) with 1. lia.
  - split; [cbn [repetir]; rewrite append_cons, append_vazio; cbn [String.length];
            rewrite IHl; reflexivity|]. intros acc s.
    cbn [repetir]. rewrite !append_cons, append_vazio. cbn [valor_decimal].
    rewrite IHv. f_equal.
    change (S k) with (1 + k)%nat. rewrite pot10_add. change (pot10 1) with 10.
    match goal with
    | |- context [Z.of_nat (Ascii.nat_of_ascii ?c)] =>
        change (Z.of_nat (Ascii.nat_of_ascii c)) with 48
    end.
    lia.
Qed.

Lemma substring_tudo (s : string) : substring 0 (String.length s) s = s.
Proof. induction s as [|c s IH]; simpl; [reflexivity|]. rewrite IH. reflexivity. Qed.

(** The salesperson code.  It always has six characters.  Identifiers
    from 0 to 99999 get codes that differ; an identifier of six digits
    or more is cut to its first five digits and gets the code of its
    tenth. *)
Theorem codigo_vendedor_seis_caracteres (BusinessEntityID outro : Z) :
  String.length (codigo_vendedor BusinessEntityID) = 6%nat
  ∧ (0 <= BusinessEntityID < 100000 → 0 <= outro < 100000 →
     codigo_vendedor BusinessEntityID = codigo_vendedor outro →
     BusinessEntityID = outro)
  ∧ (100000 <= BusinessEntityID →
     codigo_vendedor BusinessEntityID = codigo_vendedor (BusinessEntityID / 10)).
Proof.
  assert (Hcurto : ∀ n, 0 <= n < 100000 →
            valor_decimal 0 (lpad (texto_de_int n) 5 "0") = n).
  { intros n Hn. unfold lpad. cbv zeta.
    pose proof (proj1 (texto_comprimento n ltac:(lia) 4) ltac:(change (pot10 5) with 100000; lia))
      as Hlen.
    destruct (5 <=? String.length (texto_de_int n))%nat eqn:H5.
    - apply Nat.leb_le in H5. replace 5%nat with (String.length (texto_de_int n)) by lia.
      rewrite substring_tudo. apply valor_texto. lia.
    - apply Nat.leb_gt in H5. destruct (repetir_zero (5 - String.length (texto_de_int n)))
        as [Hl Hv].
      rewrite <- Hl at 1. rewrite substring_tudo, Hv. cbn [Z.mul].
      apply valor_texto. lia. }
  split; [|split].
  - unfold codigo_vendedor. rewrite append_cons, append_vazio. cbn [String.length]. f_equal.
    unfold lpad. cbv zeta.
    destruct (5 <=? String.length (texto_de_int BusinessEntityID))%nat eqn:H5.
    + apply Nat.leb_le in H5. apply length_substring_0, H5.
    + apply Nat.leb_gt in H5.
      destruct (repetir_zero (5 - String.length (texto_de_int BusinessEntityID))) as [Hl _].
      rewrite length_append, length_substring_0 by lia. lia.
  - intros Ha Hb Heq. unfold codigo_vendedor in Heq.
    rewrite !append_cons, !append_vazio in Heq. injection Heq as Heq.
    rewrite <- (Hcurto _ Ha), <- (Hcurto _ Hb), Heq. reflexivity.
  - intros Hn. unfold codigo_vendedor. f_equal. unfold lpad. cbv zeta.
    pose proof (proj2 (texto_comprimento BusinessEntityID ltac:(lia) 5)
                  ltac:(change (pot10 5) with 100000; lia)) as Hlen.
    pose proof (proj2 (texto_comprimento (BusinessEntityID / 10)
                         ltac:(apply Z.div_pos; lia) 4)
                  ltac:(change (pot10 4) with 10000; apply Z.div_le_lower_bound; lia))
      as Hlen10.
    rewrite (proj2 (Nat.leb_le _ _)) by lia.
    rewrite (proj2 (Nat.leb_le 5 (String.length (texto_de_int (BusinessEntityID / 10)))))
      by lia.
    rewrite texto_de_int_passo by lia.
    rewrite (proj2 (Z.ltb_ge BusinessEntityID 10)) by lia.
    apply substring_0_append. lia.
Qed.

Example codigo_vendedor_exemplo :
  codigo_vendedor 274 = "V00274"
  ∧ codigo_vendedor 123456 = "V12345"
  ∧ codigo_vendedor (-12) = "V00-12".
Proof. repeat split; vm_compute; reflexivity. Qed.

End VendedorProps.

Module DagOrdemProps.
Import Dag DagProps DagOrdem.

Lemma elem_of_jusante_direto (a c : tarefa) :
  c ∈ jusante_direto a ↔ (a, c) ∈ dag.
Proof.
  unfold jusante_direto. rewrite list_elem_of_fmap. split.
  - intros ([a' c'] & -> & Hin). apply list_elem_of_filter in Hin as [Ha Hin].
    cbn in Ha. subst a'. exact Hin.
  - intros Hin. exists (a, c). split; [reflexivity|].
    apply list_elem_of_filter. split; [reflexivity|exact Hin].
Qed.

(** A task starts only after every task it is downstream of has ended. *)
Lemma jusante_em_precede (l : list evento) (n : nat) :
  execucao_valida l = true →
  ∀ a b, jusante_em n a b = true → precede (Termina a) (Inicia b) l = true.
Proof.
  intros Hv. induction n as [|n IH]; intros a b H; [discriminate H|].
  cbn [jusante_em] in H. apply existsb_exists in H as (c & Hc & H).
  apply list_elem_of_In, elem_of_jusante_direto in Hc.
  pose proof (execucao_valida_aresta l a c Hv Hc) as Hac.
  apply orb_prop in H as [H|H].
  - apply bool_decide_eq_true_1 in H. subst c. exact Hac.
  - apply (precede_trans _ (Inicia c)); [exact Hac|].
    apply (precede_trans _ (Termina c)); [apply execucao_valida_tarefa, Hv|].
    apply IH, H.
Qed.

(** Where [b] is not downstream of [a], a run the scheduler may carry out
    does not end [a] before it starts [b]. *)
Lemma nao_jusante_execucao (a b : tarefa) :
  jusante a b = false →
  ∃ l, execucao_valida l = true ∧ precede (Termina a) (Inicia b) l = false.
Proof.
  intros H.
  destruct a, b; try (vm_compute in H; discriminate H);
    first [ exists (execucao_serial ordem_direta); split; vm_compute; reflexivity
          | exists (execucao_serial ordem_inversa); split; vm_compute; reflexivity ].
Qed.

(** The order of the tasks.  The scheduler ends [a] before it starts [b]
    in every run exactly when [b] is downstream of [a] in the flow.
    Every task is downstream of the start marker and upstream of the end
    marker; every dimension load is downstream of the date seeding and
    of the staging extraction and upstream of the fact load; and no
    dimension load is downstream of another. *)
Theorem ordem_das_tarefas (a b : tarefa) :
  (jusante a b = true
   ↔ ∀ l, execucao_valida l = true → precede (Termina a) (Inicia b) l = true)
  ∧ (a ≠ inicio_pipeline → jusante inicio_pipeline a = true)
  ∧ (a ≠ fim_pipeline → jusante a fim_pipeline = true)
  ∧ (a ∈ cargas_dimensao →
     jusante task_dim_tempo a = true ∧ jusante task_staging a = true
     ∧ jusante a task_fato_vendas = true)
  ∧ (a ∈ cargas_dimensao → b ∈ cargas_dimensao → jusante a b = false).
Proof.
  split; [|split; [|split; [|split]]].
  - split.
    + intros H l Hv. apply (jusante_em_precede l _ Hv a b H).
    + intros H. destruct (jusante a b) eqn:Hj; [reflexivity|].
      destruct (nao_jusante_execucao a b Hj) as (l & Hv & Hn).
      rewrite (H l Hv) in Hn. discriminate Hn.
  - destruct a; solve [congruence | intros _; vm_compute; reflexivity].
  - destruct a; solve [congruence | intros _; vm_compute; reflexivity].
  - intros Ha. unfold cargas_dimensao in Ha.
    repeat (apply elem_of_cons in Ha as [->|Ha]; [repeat split; vm_compute; reflexivity|]).
    inversion Ha.
  - intros Ha Hb. unfold cargas_dimensao in Ha, Hb.
    repeat (apply elem_of_cons in Ha as [->|Ha];
            [repeat (apply elem_of_cons in Hb as [->|Hb]; [vm_compute; reflexivity|]);
             inversion Hb|]).
    inversion Ha.
Qed.

End DagOrdemProps.
